(** * curious-pmo: access resolver, audit recorder and completion cascade

    A shallow embedding of the project-management core of the repository:
    - [pm/utils/permission_helpers.py]  (module [Access]),
    - [pm/services/audit_service.py]    (module [Audit]),
    - [pm/services/auto_completion.py] and [Task.save] of
      [pm/models/task_models.py]        (modules [Cascade] and [Instances]).

    The relational store is a record of tables.  A table with a primary key
    that the code dereferences is a finite map from the key to the row
    ([gmap Z row]); link tables that are only ever filtered are lists of
    rows.  A query [Model.objects.filter(...).exists()] is a decidable
    existential over the table, [count()] is the size of the filtered table.
    Following a foreign key ([project.workspace], [task.sprint], ...) is a
    lookup; a lookup that finds no row is the exception Django raises there
    and is propagated as [None] (pure reads) or [Raised] (stateful code). *)

From stdpp Require Import gmap strings list fin_maps pretty.

(** ** Rows of the data model ([pm/models/*.py]) *)

(** [request.user]: the primary key and the nullable [role] foreign key. *)
Record User := mkUser {
  user_id : Z;
  user_role : option Z
}.

Record Workspace := mkWorkspace {
  ws_name : string;
  ws_owner : Z
}.

Record WorkspaceMember := mkWorkspaceMember {
  wm_workspace : Z;
  wm_user : Z;
  wm_is_admin : bool
}.

Record Project := mkProject {
  proj_name : string;
  proj_status : string;
  proj_workspace : Z;
  proj_visibility : string
}.

Record ProjectMember := mkProjectMember {
  pm_user : Z;
  pm_project : Z
}.

Record WorkspaceProjectAccess := mkAccess {
  wpa_workspace_member : Z;
  wpa_project : Z;
  wpa_can_view : bool;
  wpa_can_edit : bool
}.

Record RolePermission := mkRolePermission {
  rp_role : Z;
  rp_permission_type : string
}.

Record Milestone := mkMilestone {
  ms_project : Z;
  ms_name : string;
  ms_status : string
}.

Record Sprint := mkSprint {
  sp_milestone : Z;
  sp_name : string;
  sp_status : string
}.

Record Task := mkTask {
  task_sprint : Z;
  task_title : string;
  task_status : string;
  task_assignee : option Z;
  task_reporter : option Z
}.

Record Notification := mkNotification {
  ntf_recipient : Z;
  ntf_actor : option Z;
  ntf_verb : string;
  ntf_type : string;
  ntf_target_object_id : Z
}.

(** The kinds of rows whose [status] column the cascade writes. *)
Inductive Level := LSprint | LMilestone | LProject.

Global Instance Level_eq_dec : EqDecision Level.
Proof. solve_decision. Defined.

(** The store.  [status_writes] is a ghost trace: every
    [save(update_fields=['status'])] appends the level and key it wrote;
    [notifications] is the Notification table in insertion order. *)
Record Store := mkStore {
  workspaces : gmap Z Workspace;
  workspace_members : gmap Z WorkspaceMember;
  projects : gmap Z Project;
  project_members : list ProjectMember;
  access_grants : list WorkspaceProjectAccess;
  role_permissions : list RolePermission;
  milestones : gmap Z Milestone;
  sprints : gmap Z Sprint;
  tasks : gmap Z Task;
  notifications : list Notification;
  status_writes : list (Level * Z)
}.

(** [qs.exists()] on a keyed table. *)
Definition exists_row {A} (P : A → Prop) `{!∀ a, Decision (P a)}
    (m : gmap Z A) : bool :=
  bool_decide (map_Exists (λ _ a, P a) m).

(** [qs.count()] on a keyed table. *)
Definition count_rows {A} (P : A → Prop) `{!∀ a, Decision (P a)}
    (m : gmap Z A) : nat :=
  size (filter (λ kv, P kv.2) m).

(** A [PositiveIntegerField] column ([ActivityLog.object_id],
    [Notification.target_object_id]) holds a value from 0 up to the largest
    signed 64-bit integer.  An INSERT with a negative value violates the
    CHECK constraint of the column ([IntegrityError]); a value outside the
    signed 64-bit range cannot be bound as a query parameter
    ([OverflowError]). *)
Definition positive_integer_field (n : Z) : Prop := (0 ≤ n < 2 ^ 63)%Z.

Global Instance positive_integer_field_dec n :
  Decision (positive_integer_field n).
Proof. unfold positive_integer_field. apply _. Defined.

(** * Access resolver *)
Module Access.

Section Resolver.
Variable st : Store.

(** [project.members.filter(id=user.id).exists()], the many-to-many
    relation through [ProjectMember]. *)
Definition is_project_member (u : User) (pid : Z) : bool :=
  bool_decide (Exists (λ r, pm_project r = pid ∧ pm_user r = user_id u)
                      (project_members st)).

Definition is_workspace_owner (u : User) (w : Workspace) : bool :=
  bool_decide (ws_owner w = user_id u).

(** [WorkspaceMember.objects.filter(workspace=..., user=user).exists()] *)
Definition is_workspace_member (u : User) (wid : Z) : bool :=
  exists_row (λ m, wm_workspace m = wid ∧ wm_user m = user_id u)
             (workspace_members st).

(** [... .filter(workspace=..., user=user, is_admin=True).exists()] *)
Definition is_admin_member (u : User) (wid : Z) : bool :=
  exists_row (λ m, wm_workspace m = wid ∧ wm_user m = user_id u
                   ∧ wm_is_admin m = true)
             (workspace_members st).

(** The join [workspace_member__user=user] of an access row. *)
Definition grant_of_user (u : User) (g : WorkspaceProjectAccess) : Prop :=
  ∃ m, workspace_members st !! wpa_workspace_member g = Some m
       ∧ wm_user m = user_id u.

Global Instance grant_of_user_dec u g : Decision (grant_of_user u g).
Proof.
  unfold grant_of_user.
  destruct (workspace_members st !! wpa_workspace_member g) as [m|] eqn:E.
  - destruct (decide (wm_user m = user_id u)) as [Hu|Hu].
    + left. eauto.
    + right. intros (m' & Hm & Hu'). congruence.
  - right. intros (m' & Hm & _). congruence.
Defined.

Definition has_view_grant (u : User) (pid : Z) : bool :=
  bool_decide (Exists (λ g, grant_of_user u g ∧ wpa_project g = pid
                            ∧ wpa_can_view g = true)
                      (access_grants st)).

Definition has_edit_grant (u : User) (pid : Z) : bool :=
  bool_decide (Exists (λ g, grant_of_user u g ∧ wpa_project g = pid
                            ∧ wpa_can_edit g = true)
                      (access_grants st)).

(** [has_role_permission(user, permission_type)] *)
Definition has_role_permission (u : User) (permission_type : string) : bool :=
  match user_role u with
  | None => false
  | Some r =>
      bool_decide (Exists (λ rp, rp_role rp = r
                                 ∧ rp_permission_type rp = permission_type)
                          (role_permissions st))
  end.

(** [can_user_view_project(user, project)].  The project is the pair of its
    key and its row.  [project.workspace] is first dereferenced by rule 2;
    a loaded workspace is a truthy object, so the second conjunct of the
    guard of rule 5 is [true]. *)
Definition can_user_view_project (u : User) (pid : Z) (p : Project)
    : option bool :=
  if is_project_member u pid then Some true
  else
    w ← workspaces st !! proj_workspace p;
    if is_workspace_owner u w then Some true
    else if is_admin_member u (proj_workspace p) then Some true
    else if has_view_grant u pid then Some true
    else if bool_decide (proj_visibility p = "public") && true
    then Some (is_workspace_member u (proj_workspace p))
    else Some false.

(** [can_user_edit_project(user, project)] *)
Definition can_user_edit_project (u : User) (pid : Z) (p : Project)
    : option bool :=
  if is_project_member u pid then Some true
  else
    w ← workspaces st !! proj_workspace p;
    if is_workspace_owner u w then Some true
    else if is_admin_member u (proj_workspace p) then Some true
    else if has_edit_grant u pid then Some true
    else if has_role_permission u "project.edit"
    then Some (is_workspace_member u (proj_workspace p))
    else Some false.

(** [task.sprint.milestone.project] *)
Definition task_project (t : Task) : option (Z * Project) :=
  s ← sprints st !! task_sprint t;
  m ← milestones st !! sp_milestone s;
  p ← projects st !! ms_project m;
  Some (ms_project m, p).

(** [task.assignee == user]: a null assignee equals no user. *)
Definition is_assignee (u : User) (t : Task) : bool :=
  bool_decide (task_assignee t = Some (user_id u)).

Definition is_reporter (u : User) (t : Task) : bool :=
  bool_decide (task_reporter t = Some (user_id u)).

(** [can_user_view_task(user, task)] *)
Definition can_user_view_task (u : User) (t : Task) : option bool :=
  if is_assignee u t || is_reporter u t then Some true
  else
    '(pid, p) ← task_project t;
    can_user_view_project u pid p.

(** The value of the ['fields'] entry: the string ['all'] or a list of
    field names. *)
Inductive EditFields :=
| AllFields
| FieldList (names : list string).

Record EditResult := mkEditResult {
  can_edit : bool;
  fields : EditFields
}.

(** [can_user_edit_task(user, task)] *)
Definition can_user_edit_task (u : User) (t : Task) : option EditResult :=
  '(pid, p) ← task_project t;
  e ← can_user_edit_project u pid p;
  if (e : bool) then Some (mkEditResult true AllFields)
  else if is_assignee u t
  then Some (mkEditResult true
               (FieldList ["status"; "description"; "start_date"; "due_date"]))
  else if has_role_permission u "task.edit"
  then
    v ← can_user_view_project u pid p;
    if (v : bool) then Some (mkEditResult true AllFields)
    else Some (mkEditResult false (FieldList []))
  else Some (mkEditResult false (FieldList [])).

(** [get_accessible_projects(user)]: the intermediate id sets and the final
    filter on the Project table. *)
Definition member_projects (u : User) : gset Z :=
  dom (filter (λ kv, is_project_member u kv.1 = true) (projects st)).

Definition admin_workspaces (u : User) : gset Z :=
  map_img (wm_workspace <$>
           filter (λ kv, wm_user kv.2 = user_id u ∧ wm_is_admin kv.2 = true)
                  (workspace_members st)).

Definition owned_workspaces (u : User) : gset Z :=
  dom (filter (λ kv, ws_owner kv.2 = user_id u) (workspaces st)).

Definition all_admin_workspace_ids (u : User) : gset Z :=
  admin_workspaces u ∪ owned_workspaces u.

Definition granted_project_ids (u : User) : gset Z :=
  list_to_set (wpa_project <$>
               filter (λ g, grant_of_user u g ∧ wpa_can_view g = true)
                      (access_grants st)).

Definition member_workspace_ids (u : User) : gset Z :=
  map_img (wm_workspace <$>
           filter (λ kv, wm_user kv.2 = user_id u) (workspace_members st)).

Definition get_accessible_projects (u : User) : gmap Z Project :=
  filter (λ kv : Z * Project, kv.1 ∈ member_projects u
                ∨ proj_workspace kv.2 ∈ all_admin_workspace_ids u
                ∨ kv.1 ∈ granted_project_ids u
                ∨ (proj_workspace kv.2 ∈ member_workspace_ids u
                   ∧ proj_visibility kv.2 = "public"))
         (projects st).

(** [is_workspace_admin(user, workspace)]: the owner, or a member row with
    [is_admin = True]. *)
Definition is_workspace_admin (u : User) (wid : Z) (w : Workspace) : bool :=
  if is_workspace_owner u w then true
  else is_admin_member u wid.

(** [get_user_workspaces(user)]: the workspaces the user owns or has a
    member row in. *)
Definition get_user_workspaces (u : User) : gmap Z Workspace :=
  filter (λ kv : Z * Workspace,
            ws_owner kv.2 = user_id u ∨ is_workspace_member u kv.1 = true)
         (workspaces st).

End Resolver.

End Access.

(** * Completion cascade

    The functions of this module take rows.  They are the run of the cascade
    for model instances that hold no related instance, so that every access
    to a parent ([task.sprint], [sprint.milestone], ...) is a query to the
    store and the status tested is the stored one.  Module [Instances]
    below takes the instances with what they hold; for instances in step
    with the store the two runs have the same outcome
    ([InstanceFacts.trigger_in_step]). *)
Module Cascade.

(** A call either returns or raises; the writes made before an exception
    stay in the store (the code opens no transaction). *)
Inductive outcome :=
| Returned (st : Store)
| Raised (st : Store).

Definition final (o : outcome) : Store :=
  match o with
  | Returned st => st
  | Raised st => st
  end.

Definition with_sprints (st : Store) (v : gmap Z Sprint) : Store :=
  mkStore (workspaces st) (workspace_members st) (projects st)
          (project_members st) (access_grants st) (role_permissions st)
          (milestones st) v (tasks st) (notifications st) (status_writes st).

Definition with_milestones (st : Store) (v : gmap Z Milestone) : Store :=
  mkStore (workspaces st) (workspace_members st) (projects st)
          (project_members st) (access_grants st) (role_permissions st)
          v (sprints st) (tasks st) (notifications st) (status_writes st).

Definition with_projects (st : Store) (v : gmap Z Project) : Store :=
  mkStore (workspaces st) (workspace_members st) v
          (project_members st) (access_grants st) (role_permissions st)
          (milestones st) (sprints st) (tasks st) (notifications st)
          (status_writes st).

Definition with_tasks (st : Store) (v : gmap Z Task) : Store :=
  mkStore (workspaces st) (workspace_members st) (projects st)
          (project_members st) (access_grants st) (role_permissions st)
          (milestones st) (sprints st) v (notifications st) (status_writes st).

Definition with_notifications (st : Store) (v : list Notification) : Store :=
  mkStore (workspaces st) (workspace_members st) (projects st)
          (project_members st) (access_grants st) (role_permissions st)
          (milestones st) (sprints st) (tasks st) v (status_writes st).

Definition with_status_writes (st : Store) (v : list (Level * Z)) : Store :=
  mkStore (workspaces st) (workspace_members st) (projects st)
          (project_members st) (access_grants st) (role_permissions st)
          (milestones st) (sprints st) (tasks st) (notifications st) v.

Definition log_write (lvl : Level) (key : Z) (st : Store) : Store :=
  with_status_writes st (status_writes st ++ [(lvl, key)]).

(** [obj.status = 'Completed'; obj.save(update_fields=['status'])]: the
    UPDATE touches the status column of the row with that key.  The stages
    below save a row they were handed by the query that read it, so the
    UPDATE finds its row; [Instances.save_sprint] and its siblings cover a
    row that is gone. *)
Definition save_sprint_status (st : Store) (sid : Z) (status : string) : Store :=
  log_write LSprint sid
    (with_sprints st
       (alter (λ s, mkSprint (sp_milestone s) (sp_name s) status) sid
              (sprints st))).

Definition save_milestone_status (st : Store) (mid : Z) (status : string)
    : Store :=
  log_write LMilestone mid
    (with_milestones st
       (alter (λ m, mkMilestone (ms_project m) (ms_name m) status) mid
              (milestones st))).

Definition save_project_status (st : Store) (pid : Z) (status : string)
    : Store :=
  log_write LProject pid
    (with_projects st
       (alter (λ p, mkProject (proj_name p) status (proj_workspace p)
                              (proj_visibility p)) pid
              (projects st))).

(** The object handed to [_create_completion_notification], with its key;
    [obj_type] is the string the caller passes along with it. *)
Inductive Completed :=
| CSprint (sid : Z) (s : Sprint)
| CMilestone (mid : Z) (m : Milestone)
| CProject (pid : Z) (p : Project).

Definition obj_type (obj : Completed) : string :=
  match obj with
  | CSprint _ _ => "Sprint"
  | CMilestone _ _ => "Milestone"
  | CProject _ _ => "Project"
  end.

Definition obj_name (obj : Completed) : string :=
  match obj with
  | CSprint _ s => sp_name s
  | CMilestone _ m => ms_name m
  | CProject _ p => proj_name p
  end.

Definition obj_id (obj : Completed) : Z :=
  match obj with
  | CSprint sid _ => sid
  | CMilestone mid _ => mid
  | CProject pid _ => pid
  end.

Definition dquote : string := String (Ascii.ascii_of_nat 34) EmptyString.

(** [f'{obj_type} "{obj.name}" auto-completed: {message}'] *)
Definition completion_verb (obj : Completed) (message : string) : string :=
  obj_type obj +:+ " " +:+ dquote +:+ obj_name obj +:+ dquote
    +:+ " auto-completed: " +:+ message.

(** [f'All {total} tasks completed!'] and its siblings. *)
Definition all_completed_message (total : nat) (children : string) : string :=
  "All " +:+ pretty total +:+ " " +:+ children +:+ " completed!".

(** The project whose members are notified: [obj.milestone.project],
    [obj.project] or [obj]; [None] when a dereference raises. *)
Definition notified_project (st : Store) (obj : Completed) : option Z :=
  match obj with
  | CSprint _ s =>
      m ← milestones st !! sp_milestone s;
      _ ← projects st !! ms_project m;
      Some (ms_project m)
  | CMilestone _ m =>
      _ ← projects st !! ms_project m;
      Some (ms_project m)
  | CProject pid _ => Some pid
  end.

(** [project.members.all()] *)
Definition project_member_users (st : Store) (pid : Z) : list Z :=
  pm_user <$> filter (λ r, pm_project r = pid) (project_members st).

(** [workspace.members.all()] *)
Definition workspace_member_users (st : Store) (wid : Z) : list Z :=
  (λ kv, wm_user kv.2) <$>
    map_to_list (filter (λ kv, wm_workspace kv.2 = wid) (workspace_members st)).

(** The loop [for member in project.members.all(): Notification.objects
    .create(...)] of [_create_completion_notification], inside its [try].
    Every row of the loop carries [obj.id] as its [target_object_id], so
    when that column does not accept the key the first INSERT raises,
    [except Exception] catches it and no notification is left.  (The store
    enforces no column length.) *)
Definition notify_project_members (st : Store) (pid : Z) (obj : Completed)
    (message : string) : Store :=
  if decide (positive_integer_field (obj_id obj))
  then
    with_notifications st
      (notifications st ++
       ((λ member, mkNotification member None (completion_verb obj message)
                                  "general" (obj_id obj))
          <$> project_member_users st pid))
  else st.

(** [_create_completion_notification(obj, obj_type, message)]: the body of
    the [try]; an exception while finding the project is caught and leaves
    the table as it is, and so does a failing INSERT. *)
Definition _create_completion_notification (st : Store) (obj : Completed)
    (message : string) : Store :=
  match notified_project st obj with
  | Some pid => notify_project_members st pid obj message
  | None => st
  end.

(** The verb of [_create_workspace_completion_notification]. *)
Definition workspace_verb (w : Workspace) (total_projects : nat) : string :=
  "Workspace " +:+ dquote +:+ ws_name w +:+ dquote +:+ " COMPLETED! All "
    +:+ pretty total_projects +:+ " projects have been completed!".

(** [_create_workspace_completion_notification(workspace, total_projects)]:
    as above, a [workspace.id] the [target_object_id] column does not accept
    makes the first INSERT raise inside the [try]. *)
Definition _create_workspace_completion_notification (st : Store) (wid : Z)
    (w : Workspace) (total_projects : nat) : Store :=
  if decide (positive_integer_field wid)
  then
    with_notifications st
      (notifications st ++
       ((λ member, mkNotification member None (workspace_verb w total_projects)
                                  "general" wid)
          <$> workspace_member_users st wid))
  else st.

(** [_check_and_complete_workspace(workspace)] *)
Definition _check_and_complete_workspace (st : Store)
    (workspace : option (Z * Workspace)) : outcome :=
  match workspace with
  | None => Returned st
  | Some (wid, w) =>
      let total_projects :=
        count_rows (λ p, proj_workspace p = wid) (projects st) in
      if decide (total_projects = 0%nat) then Returned st
      else
        let completed_projects :=
          count_rows (λ p, proj_workspace p = wid
                           ∧ proj_status p = "Completed") (projects st) in
        if decide (completed_projects = total_projects)
        then Returned
               (_create_workspace_completion_notification st wid w
                  total_projects)
        else Returned st
  end.

(** [_check_and_complete_project(project)] *)
Definition _check_and_complete_project (st : Store)
    (project : option (Z * Project)) : outcome :=
  match project with
  | None => Returned st
  | Some (pid, p) =>
      let total_milestones :=
        count_rows (λ m, ms_project m = pid) (milestones st) in
      if decide (total_milestones = 0%nat) then Returned st
      else
        let completed_milestones :=
          count_rows (λ m, ms_project m = pid ∧ ms_status m = "Completed")
                     (milestones st) in
        if decide (completed_milestones = total_milestones)
        then
          if decide (proj_status p ≠ "Completed")
          then
            let st1 := save_project_status st pid "Completed" in
            let st2 :=
              _create_completion_notification st1 (CProject pid p)
                (all_completed_message total_milestones "milestones") in
            match workspaces st2 !! proj_workspace p with
            | Some w =>
                _check_and_complete_workspace st2 (Some (proj_workspace p, w))
            | None => Raised st2
            end
          else Returned st
        else Returned st
  end.

(** [_check_and_complete_milestone(milestone)] *)
Definition _check_and_complete_milestone (st : Store)
    (milestone : option (Z * Milestone)) : outcome :=
  match milestone with
  | None => Returned st
  | Some (mid, m) =>
      let total_sprints :=
        count_rows (λ s, sp_milestone s = mid) (sprints st) in
      if decide (total_sprints = 0%nat) then Returned st
      else
        let completed_sprints :=
          count_rows (λ s, sp_milestone s = mid ∧ sp_status s = "Completed")
                     (sprints st) in
        if decide (completed_sprints = total_sprints)
        then
          if decide (ms_status m ≠ "Completed")
          then
            let st1 := save_milestone_status st mid "Completed" in
            let st2 :=
              _create_completion_notification st1 (CMilestone mid m)
                (all_completed_message total_sprints "sprints") in
            match projects st2 !! ms_project m with
            | Some p =>
                _check_and_complete_project st2 (Some (ms_project m, p))
            | None => Raised st2
            end
          else Returned st
        else Returned st
  end.

(** [_check_and_complete_sprint(sprint)] *)
Definition _check_and_complete_sprint (st : Store)
    (sprint : option (Z * Sprint)) : outcome :=
  match sprint with
  | None => Returned st
  | Some (sid, s) =>
      let total_tasks := count_rows (λ t, task_sprint t = sid) (tasks st) in
      if decide (total_tasks = 0%nat) then Returned st
      else
        let done_tasks :=
          count_rows (λ t, task_sprint t = sid ∧ task_status t = "Done")
                     (tasks st) in
        if decide (done_tasks = total_tasks)
        then
          if decide (sp_status s ≠ "Completed")
          then
            let st1 := save_sprint_status st sid "Completed" in
            let st2 :=
              _create_completion_notification st1 (CSprint sid s)
                (all_completed_message total_tasks "tasks") in
            match milestones st2 !! sp_milestone s with
            | Some m =>
                _check_and_complete_milestone st2 (Some (sp_milestone s, m))
            | None => Raised st2
            end
          else Returned st
        else Returned st
  end.

(** [AutoCompletionService.trigger_auto_completion(task)] for a task that
    holds no sprint: [task.sprint] is the query for the row with the key of
    the foreign-key column, and [DoesNotExist] leaves the trigger. *)
Definition trigger_auto_completion (st : Store) (t : Task) : outcome :=
  if decide (task_status t ≠ "Done") then Returned st
  else
    match sprints st !! task_sprint t with
    | Some s => _check_and_complete_sprint st (Some (task_sprint t, s))
    | None => Raised st
    end.

(** The module-level convenience function. *)
Definition auto_complete_on_task_done (st : Store) (t : Task) : outcome :=
  trigger_auto_completion st t.

(** The key an INSERT assigns: one that no row of the table has. *)
Definition next_key {A} (m : gmap Z A) : Z :=
  (1 + map_fold (λ k _ acc, Z.max k acc) 0 m)%Z.

(** [super().save()]: an UPDATE of the row with the object's key, or an
    INSERT when the object has no key or no such row exists.  Returns the
    store and the key the object has afterwards. *)
Definition super_save (st : Store) (pk : option Z) (t : Task) : Store * Z :=
  let key := default (next_key (tasks st)) pk in
  (with_tasks st (<[key := t]> (tasks st)), key).

(** The status [Task.save] reads back before saving; [if self.pk:] skips the
    query for a null and for a zero key, and [DoesNotExist] is passed over. *)
Definition old_status (st : Store) (pk : option Z) : option string :=
  match pk with
  | None => None
  | Some k =>
      if decide (k = 0%Z) then None
      else task_status <$> tasks st !! k
  end.

(** [Task.save(self)]; [pk] is [self.pk] on entry. *)
Definition Task_save (st : Store) (pk : option Z) (t : Task) : outcome :=
  let old := old_status st pk in
  let st1 := (super_save st pk t).1 in
  if decide (old ≠ Some "Done" ∧ task_status t = "Done")
  then auto_complete_on_task_done st1 t
  else Returned st1.

End Cascade.

(** * The cascade on model instances

    [trigger_auto_completion] is handed a [Task] object, not a row.  A model
    instance holds the field values it read when it was loaded (or was
    assigned since) and, for each foreign key, the related instance once
    that was accessed, assigned or selected with it; a later access returns
    the held instance without a query.  The cascade tests and assigns
    [status] on these instances, and reads [name] and the foreign keys from
    them.  The key of a held instance is the value of the foreign-key column
    of its holder.

    The functions of [Cascade] above are the run for instances that hold no
    related instance, where every access is a query; the functions here
    take the instances as they are and return them as the run leaves
    them. *)
Module Instances.

Import Cascade.

Record ProjectInstance := mkProjectInstance {
  pi_fields : Project;
  pi_workspace : option Workspace
}.

Record MilestoneInstance := mkMilestoneInstance {
  mi_fields : Milestone;
  mi_project : option ProjectInstance
}.

Record SprintInstance := mkSprintInstance {
  si_fields : Sprint;
  si_milestone : option MilestoneInstance
}.

Record TaskInstance := mkTaskInstance {
  ti_fields : Task;
  ti_sprint : option SprintInstance
}.

(** [project.workspace]: the held instance, else the row with the key of
    the foreign-key column; [None] when that query raises [DoesNotExist]. *)
Definition get_workspace (st : Store) (project : ProjectInstance)
    : option Workspace :=
  match pi_workspace project with
  | Some workspace => Some workspace
  | None => workspaces st !! proj_workspace (pi_fields project)
  end.

(** [milestone.project] *)
Definition get_project (st : Store) (milestone : MilestoneInstance)
    : option ProjectInstance :=
  match mi_project milestone with
  | Some project => Some project
  | None =>
      (λ p, mkProjectInstance p None)
        <$> projects st !! ms_project (mi_fields milestone)
  end.

(** [sprint.milestone] *)
Definition get_milestone (st : Store) (sprint : SprintInstance)
    : option MilestoneInstance :=
  match si_milestone sprint with
  | Some milestone => Some milestone
  | None =>
      (λ m, mkMilestoneInstance m None)
        <$> milestones st !! sp_milestone (si_fields sprint)
  end.

(** [task.sprint] *)
Definition get_sprint (st : Store) (task : TaskInstance)
    : option SprintInstance :=
  match ti_sprint task with
  | Some sprint => Some sprint
  | None =>
      (λ s, mkSprintInstance s None)
        <$> sprints st !! task_sprint (ti_fields task)
  end.

(** [obj.status = 'Completed'] *)
Definition complete_project (project : ProjectInstance) : ProjectInstance :=
  mkProjectInstance
    (mkProject (proj_name (pi_fields project)) "Completed"
               (proj_workspace (pi_fields project))
               (proj_visibility (pi_fields project)))
    (pi_workspace project).

Definition complete_milestone (milestone : MilestoneInstance)
    : MilestoneInstance :=
  mkMilestoneInstance
    (mkMilestone (ms_project (mi_fields milestone))
                 (ms_name (mi_fields milestone)) "Completed")
    (mi_project milestone).

Definition complete_sprint (sprint : SprintInstance) : SprintInstance :=
  mkSprintInstance
    (mkSprint (sp_milestone (si_fields sprint)) (sp_name (si_fields sprint))
              "Completed")
    (si_milestone sprint).

(** [obj.save(update_fields=['status'])]: the UPDATE of the status column
    of the row with the key of the instance; when no row has that key the
    UPDATE affects no row and [save] raises [DatabaseError]. *)
Definition save_project (st : Store) (pid : Z) (project : ProjectInstance)
    : option Store :=
  match projects st !! pid with
  | Some _ =>
      Some (save_project_status st pid (proj_status (pi_fields project)))
  | None => None
  end.

Definition save_milestone (st : Store) (mid : Z)
    (milestone : MilestoneInstance) : option Store :=
  match milestones st !! mid with
  | Some _ =>
      Some (save_milestone_status st mid (ms_status (mi_fields milestone)))
  | None => None
  end.

Definition save_sprint (st : Store) (sid : Z) (sprint : SprintInstance)
    : option Store :=
  match sprints st !! sid with
  | Some _ =>
      Some (save_sprint_status st sid (sp_status (si_fields sprint)))
  | None => None
  end.

(** [_create_completion_notification(obj, obj_type, message)], one
    definition for each [obj_type] the callers pass.  For a project the
    members are those of [obj] itself. *)
Definition _create_completion_notification_Project (st : Store) (pid : Z)
    (project : ProjectInstance) (message : string) : Store :=
  notify_project_members st pid (CProject pid (pi_fields project)) message.

(** For a milestone the project is [obj.project]; the access leaves the
    project on the milestone, and when it raises the exception is caught and
    nothing is created. *)
Definition _create_completion_notification_Milestone (st : Store) (mid : Z)
    (milestone : MilestoneInstance) (message : string)
    : Store * MilestoneInstance :=
  match get_project st milestone with
  | Some project =>
      (notify_project_members st (ms_project (mi_fields milestone))
         (CMilestone mid (mi_fields milestone)) message,
       mkMilestoneInstance (mi_fields milestone) (Some project))
  | None => (st, milestone)
  end.

(** For a sprint the project is [obj.milestone.project]: two accesses, each
    of which leaves what it found on its holder. *)
Definition _create_completion_notification_Sprint (st : Store) (sid : Z)
    (sprint : SprintInstance) (message : string) : Store * SprintInstance :=
  match get_milestone st sprint with
  | Some milestone =>
      match get_project st milestone with
      | Some project =>
          (notify_project_members st (ms_project (mi_fields milestone))
             (CSprint sid (si_fields sprint)) message,
           mkSprintInstance (si_fields sprint)
             (Some (mkMilestoneInstance (mi_fields milestone)
                                        (Some project))))
      | None => (st, mkSprintInstance (si_fields sprint) (Some milestone))
      end
  | None => (st, sprint)
  end.

(** [_check_and_complete_project(project)].  Here and in the two stages
    below the argument is a model instance, which is truthy, so the guard
    [if not project: return] is passed. *)
Definition _check_and_complete_project (st : Store) (pid : Z)
    (project : ProjectInstance) : outcome * ProjectInstance :=
  let total_milestones :=
    count_rows (λ m, ms_project m = pid) (milestones st) in
  if decide (total_milestones = 0%nat) then (Returned st, project)
  else
    let completed_milestones :=
      count_rows (λ m, ms_project m = pid ∧ ms_status m = "Completed")
                 (milestones st) in
    if decide (completed_milestones = total_milestones)
    then
      if decide (proj_status (pi_fields project) ≠ "Completed")
      then
        let project1 := complete_project project in
        match save_project st pid project1 with
        | Some st1 =>
            let st2 :=
              _create_completion_notification_Project st1 pid project1
                (all_completed_message total_milestones "milestones") in
            match get_workspace st2 project1 with
            | Some workspace =>
                (_check_and_complete_workspace st2
                   (Some (proj_workspace (pi_fields project1), workspace)),
                 mkProjectInstance (pi_fields project1) (Some workspace))
            | None => (Raised st2, project1)
            end
        | None => (Raised st, project1)
        end
      else (Returned st, project)
    else (Returned st, project).

(** [_check_and_complete_milestone(milestone)]; the instance is returned
    as the run leaves it, with the status assigned to it and the project it
    holds by then. *)
Definition _check_and_complete_milestone (st : Store) (mid : Z)
    (milestone : MilestoneInstance) : outcome * MilestoneInstance :=
  let total_sprints := count_rows (λ s, sp_milestone s = mid) (sprints st) in
  if decide (total_sprints = 0%nat) then (Returned st, milestone)
  else
    let completed_sprints :=
      count_rows (λ s, sp_milestone s = mid ∧ sp_status s = "Completed")
                 (sprints st) in
    if decide (completed_sprints = total_sprints)
    then
      if decide (ms_status (mi_fields milestone) ≠ "Completed")
      then
        let milestone1 := complete_milestone milestone in
        match save_milestone st mid milestone1 with
        | Some st1 =>
            let '(st2, milestone2) :=
              _create_completion_notification_Milestone st1 mid milestone1
                (all_completed_message total_sprints "sprints") in
            match get_project st2 milestone2 with
            | Some project =>
                let '(result, project') :=
                  _check_and_complete_project st2
                    (ms_project (mi_fields milestone2)) project in
                (result,
                 mkMilestoneInstance (mi_fields milestone2) (Some project'))
            | None => (Raised st2, milestone2)
            end
        | None => (Raised st, milestone1)
        end
      else (Returned st, milestone)
    else (Returned st, milestone).

(** [_check_and_complete_sprint(sprint)]: the test
    [sprint.status != 'Completed'] reads the instance, and the assignment
    [sprint.status = 'Completed'] stays on it whether or not the save that
    follows succeeds. *)
Definition _check_and_complete_sprint (st : Store) (sid : Z)
    (sprint : SprintInstance) : outcome * SprintInstance :=
  let total_tasks := count_rows (λ t, task_sprint t = sid) (tasks st) in
  if decide (total_tasks = 0%nat) then (Returned st, sprint)
  else
    let done_tasks :=
      count_rows (λ t, task_sprint t = sid ∧ task_status t = "Done")
                 (tasks st) in
    if decide (done_tasks = total_tasks)
    then
      if decide (sp_status (si_fields sprint) ≠ "Completed")
      then
        let sprint1 := complete_sprint sprint in
        match save_sprint st sid sprint1 with
        | Some st1 =>
            let '(st2, sprint2) :=
              _create_completion_notification_Sprint st1 sid sprint1
                (all_completed_message total_tasks "tasks") in
            match get_milestone st2 sprint2 with
            | Some milestone =>
                let '(result, milestone') :=
                  _check_and_complete_milestone st2
                    (sp_milestone (si_fields sprint2)) milestone in
                (result,
                 mkSprintInstance (si_fields sprint2) (Some milestone'))
            | None => (Raised st2, sprint2)
            end
        | None => (Raised st, sprint1)
        end
      else (Returned st, sprint)
    else (Returned st, sprint).

(** [AutoCompletionService.trigger_auto_completion(task)]: the sprint
    examined is the one the task holds, when it holds one. *)
Definition trigger_auto_completion (st : Store) (task : TaskInstance)
    : outcome * TaskInstance :=
  if decide (task_status (ti_fields task) ≠ "Done") then (Returned st, task)
  else
    match get_sprint st task with
    | Some sprint =>
        let '(result, sprint') :=
          _check_and_complete_sprint st (task_sprint (ti_fields task)) sprint
        in
        (result, mkTaskInstance (ti_fields task) (Some sprint'))
    | None => (Raised st, task)
    end.

(** The module-level convenience function. *)
Definition auto_complete_on_task_done (st : Store) (task : TaskInstance)
    : outcome * TaskInstance :=
  trigger_auto_completion st task.

End Instances.

(** * Kanban board: moving a task ([pm/services/kanban_service.py]) *)
Module Kanban.

Record Column := mkColumn {
  col_id : string;
  col_name : string;
  col_status : string
}.

Definition KANBAN_COLUMNS : list Column :=
  [ mkColumn "todo" "To-do" "To-do";
    mkColumn "in_progress" "In Progress" "In Progress";
    mkColumn "review" "Review" "Review";
    mkColumn "done" "Done" "Done" ].

(** [[col['status'] for col in KANBAN_COLUMNS]] *)
Definition valid_statuses : list string := col_status <$> KANBAN_COLUMNS.

(** Python's rendering of a list of strings inside an f-string. *)
Definition py_list_repr (l : list string) : string :=
  "[" +:+ String.concat ", " ((λ x, "'" +:+ x +:+ "'") <$> l) +:+ "]".

(** What [move_task_to_column] hands back: the error dictionary, [None], or
    the summary of the move; or nothing, when [task.save()] raised. *)
Inductive MoveResult :=
| MoveError (error : string)
| MoveNotFound
| Moved (id : Z) (title old_status new_status : string)
| MoveRaised.

Definition with_status (t : Task) (status : string) : Task :=
  mkTask (task_sprint t) (task_title t) status (task_assignee t)
         (task_reporter t).

(** [move_task_to_column(task_id, new_status, user=None)] *)
Definition move_task_to_column (st : Store) (task_id : Z)
    (new_status : string) : Store * MoveResult :=
  if decide (new_status ∉ valid_statuses)
  then (st, MoveError ("Invalid status. Must be one of: "
                       +:+ py_list_repr valid_statuses))
  else
    match tasks st !! task_id with
    | None => (st, MoveNotFound)
    | Some task =>
        let old_status := task_status task in
        match Cascade.Task_save st (Some task_id) (with_status task new_status)
        with
        | Cascade.Returned st' =>
            (st', Moved task_id (task_title task) old_status new_status)
        | Cascade.Raised st' => (st', MoveRaised)
        end
    end.

End Kanban.

(** * Audit recorder *)
Module Audit.

(** The exception classes the recorder can meet.  Django's
    [RelatedObjectDoesNotExist], raised for an unset non-nullable parent, is
    a subclass of [AttributeError] and counts as one here;
    [ObjectDoesNotExist] is what loading a parent row that is gone raises. *)
Inductive exn :=
| AttributeError
| ObjectDoesNotExist
| TypeError
| IntegrityError
| OverflowError.

Global Instance exn_eq_dec : EqDecision exn.
Proof. solve_decision. Defined.

Inductive result (A : Type) :=
| Ok (a : A)
| Raise (e : exn).
Arguments Ok {A} a.
Arguments Raise {A} e.

(** What a snapshot or [extra_info] can hold: JSON scalars, the
    [{'id': ..., 'display': ...}] dictionary of a foreign key, and a list of
    field names. *)
Inductive json :=
| JNull
| JBool (b : bool)
| JInt (z : Z)
| JStr (s : string)
| JRef (id : option Z) (display : string)
| JList (l : list string).

Global Instance json_eq_dec : EqDecision json.
Proof. solve_decision. Defined.

(** A Python value as the recorder inspects it: a JSON value, a date (with
    its [isoformat()]), or a model instance with its class name, primary
    key, [str()] and attributes.  Reading an attribute yields a value or
    raises. *)
#[warnings="-register-all"]
Inductive pyval :=
| PJson (j : json)
| PDate (iso : string)
| PObj (model_name : string) (pk : option Z) (str : result string)
       (attrs : list (string * result pyval)).

Definition type_name (v : pyval) : string :=
  match v with
  | PObj model_name _ _ _ => model_name
  | PDate _ => "date"
  | PJson JNull => "NoneType"
  | PJson (JBool _) => "bool"
  | PJson (JInt _) => "int"
  | PJson (JStr _) => "str"
  | PJson (JRef _ _) => "dict"
  | PJson (JList _) => "list"
  end.

Definition json_of_pk (pk : option Z) : json :=
  match pk with
  | Some z => JInt z
  | None => JNull
  end.

(** [value.name]: an instance answers [pk] and [id] with its key and the
    other names from its attributes; anything else has none of the names the
    recorder asks for. *)
Definition getattr (v : pyval) (name : string) : result pyval :=
  match v with
  | PObj _ pk _ attrs =>
      if decide (name = "pk" ∨ name = "id") then Ok (PJson (json_of_pk pk))
      else
        match (list_to_map attrs : gmap string (result pyval)) !! name with
        | Some r => r
        | None => Raise AttributeError
        end
  | _ => Raise AttributeError
  end.

(** [get_default_fields_for_model(model_name)] *)
Definition get_default_fields_for_model (model_name : string) : list string :=
  if decide (model_name = "Workspace")
  then ["id"; "name"; "description"; "owner"]
  else if decide (model_name = "Project")
  then ["id"; "name"; "description"; "status"; "visibility";
        "start_date"; "end_date"; "archived"; "workspace"]
  else if decide (model_name = "Milestone")
  then ["id"; "name"; "description"; "status"; "start_date";
        "end_date"; "project"]
  else if decide (model_name = "Sprint")
  then ["id"; "name"; "description"; "status"; "start_date";
        "end_date"; "milestone"]
  else if decide (model_name = "Task")
  then ["id"; "title"; "description"; "status"; "priority";
        "assignee"; "reporter"; "start_date"; "due_date"; "sprint"]
  else if decide (model_name = "WorkspaceMember")
  then ["id"; "user"; "workspace"; "is_admin"; "role"]
  else if decide (model_name = "ProjectMember")
  then ["id"; "user"; "project"; "role"]
  else ["id"].

(** The body of the loop of [serialize_model_state] for one field:
    [getattr(instance, field, None)] turns an [AttributeError] into [None];
    any other exception, and one raised by [str(value)], is caught by
    [except Exception] and records [None]. *)
Definition serialize_field (instance : pyval) (field : string) : json :=
  match getattr instance field with
  | Ok (PObj _ pk (Ok display) _) => JRef pk display
  | Ok (PObj _ _ (Raise _) _) => JNull
  | Ok (PDate iso) => JStr iso
  | Ok (PJson j) => j
  | Raise _ => JNull
  end.

(** [serialize_model_state(instance, fields)] *)
Definition serialize_model_state (instance : pyval)
    (fields : option (list string)) : option (gmap string json) :=
  match instance with
  | PJson JNull => None
  | _ =>
      let field_list :=
        match fields with
        | Some (f :: fs) => f :: fs
        | _ => get_default_fields_for_model (type_name instance)
        end in
      Some (foldl (λ data field, <[field := serialize_field instance field]> data)
                  ∅ field_list)
  end.

(** Python's [==] on the values of a snapshot; [True == 1] and
    [False == 0]. *)
Definition py_eqb (a b : json) : bool :=
  match a, b with
  | JBool x, JInt z | JInt z, JBool x => bool_decide (z = if x then 1 else 0)%Z
  | _, _ => bool_decide (a = b)
  end.

(** [d.get(key)] *)
Definition py_get (d : gmap string json) (key : string) : json :=
  default JNull (d !! key).

(** The test of the loop of [compute_changes]: two dictionaries are compared
    by their ['id'] alone, everything else with [!=]. *)
Definition differs (old_val new_val : json) : bool :=
  match old_val, new_val with
  | JRef i _, JRef j _ => negb (bool_decide (i = j))
  | _, _ => negb (py_eqb old_val new_val)
  end.

(** [compute_changes(old_state, new_state)]; a change is the pair of the old
    and the new value. *)
Definition compute_changes (old_state new_state : option (gmap string json))
    : gmap string (json * json) :=
  match old_state, new_state with
  | Some o, Some n =>
      let all_keys : gset string := dom o ∪ dom n in
      set_fold (λ key changes,
                  let old_val := py_get o key in
                  let new_val := py_get n key in
                  if differs old_val new_val
                  then <[key := (old_val, new_val)]> changes
                  else changes)
               ∅ all_keys
  | _, _ => ∅
  end.

(** [instance.a.b.c] *)
Fixpoint getattr_path (v : pyval) (path : list string) : result pyval :=
  match path with
  | [] => Ok v
  | name :: rest =>
      match getattr v name with
      | Ok v' => getattr_path v' rest
      | Raise e => Raise e
      end
  end.

(** The assignments [context[key] = instance.<path>] of
    [get_entity_context], in the order of the source, per model name. *)
Definition context_assignments (model_name : string)
    : list (string * list string) :=
  if decide (model_name = "Workspace")
  then [("workspace_id", ["id"]); ("workspace_name", ["name"])]
  else if decide (model_name = "Project")
  then [("workspace_id", ["workspace_id"]);
        ("workspace_name", ["workspace"; "name"]);
        ("project_id", ["id"]); ("project_name", ["name"])]
  else if decide (model_name = "Milestone")
  then [("workspace_id", ["project"; "workspace_id"]);
        ("workspace_name", ["project"; "workspace"; "name"]);
        ("project_id", ["project_id"]);
        ("project_name", ["project"; "name"]);
        ("milestone_id", ["id"]); ("milestone_name", ["name"])]
  else if decide (model_name = "Sprint")
  then [("workspace_id", ["milestone"; "project"; "workspace_id"]);
        ("workspace_name", ["milestone"; "project"; "workspace"; "name"]);
        ("project_id", ["milestone"; "project_id"]);
        ("project_name", ["milestone"; "project"; "name"]);
        ("milestone_id", ["milestone_id"]);
        ("milestone_name", ["milestone"; "name"]);
        ("sprint_id", ["id"]); ("sprint_name", ["name"])]
  else if decide (model_name = "Task")
  then [("workspace_id", ["sprint"; "milestone"; "project"; "workspace_id"]);
        ("workspace_name",
         ["sprint"; "milestone"; "project"; "workspace"; "name"]);
        ("project_id", ["sprint"; "milestone"; "project_id"]);
        ("project_name", ["sprint"; "milestone"; "project"; "name"]);
        ("milestone_id", ["sprint"; "milestone_id"]);
        ("milestone_name", ["sprint"; "milestone"; "name"]);
        ("sprint_id", ["sprint_id"]); ("sprint_name", ["sprint"; "name"]);
        ("task_id", ["id"]); ("task_title", ["title"])]
  else if decide (model_name = "WorkspaceMember")
  then [("workspace_id", ["workspace_id"]);
        ("workspace_name", ["workspace"; "name"]);
        ("member_user_id", ["user_id"]);
        ("member_username", ["user"; "username"])]
  else if decide (model_name = "ProjectMember")
  then [("workspace_id", ["project"; "workspace_id"]);
        ("workspace_name", ["project"; "workspace"; "name"]);
        ("project_id", ["project_id"]);
        ("project_name", ["project"; "name"]);
        ("member_user_id", ["user_id"]);
        ("member_username", ["user"; "username"])]
  else [].

(** The [try] block: the assignments run in order; the first exception
    leaves the entries made so far and is returned with them. *)
Fixpoint run_assignments (instance : pyval)
    (assignments : list (string * list string)) (context : gmap string pyval)
    : gmap string pyval * option exn :=
  match assignments with
  | [] => (context, None)
  | (key, path) :: rest =>
      match getattr_path instance path with
      | Ok v => run_assignments instance rest (<[key := v]> context)
      | Raise e => (context, Some e)
      end
  end.

(** [get_entity_context(instance)]: [except AttributeError: pass] keeps the
    partial context; any other exception leaves the function. *)
Definition get_entity_context (instance : pyval)
    : result (gmap string pyval) :=
  match run_assignments instance (context_assignments (type_name instance)) ∅
  with
  | (context, None) => Ok context
  | (context, Some AttributeError) => Ok context
  | (_, Some e) => Raise e
  end.

(** A row of the ActivityLog table. *)
Record ActivityLog := mkActivityLog {
  al_user : option Z;
  al_action : string;
  al_content_type : string;
  al_object_id : Z;
  al_reason : option string;
  al_old_value : option (gmap string json);
  al_new_value : option (gmap string json);
  al_extra_info : gmap string json
}.

Definition is_json (v : pyval) : Prop :=
  match v with
  | PJson _ => True
  | _ => False
  end.

Global Instance is_json_dec v : Decision (is_json v).
Proof. destruct v; simpl; apply _. Defined.

Definition to_json (v : pyval) : option json :=
  match v with
  | PJson j => Some j
  | _ => None
  end.

(** Encoding [extra_info] for its JSONField: a date or a model instance is
    not JSON serializable. *)
Definition encode_extra_info (d : gmap string pyval)
    : result (gmap string json) :=
  if decide (map_Forall (λ _ v, is_json v) d)
  then Ok (omap to_json d)
  else Raise TypeError.

(** The INSERT into the ActivityLog table with [object_id] as its
    [PositiveIntegerField]: a value outside the signed 64-bit range cannot
    be bound, a null violates NOT NULL and a negative value the CHECK
    constraint. *)
Definition insert_activity_log (object_id : json) (row : Z → ActivityLog)
    : result ActivityLog :=
  match object_id with
  | JInt n =>
      if decide (n < - 2 ^ 63 ∨ 2 ^ 63 ≤ n)%Z then Raise OverflowError
      else if decide (n < 0)%Z then Raise IntegrityError
      else Ok (row n)
  | JNull => Raise IntegrityError
  | _ => Raise TypeError
  end.

(** [ActivityLog.objects.create(..., object_id=instance.id, ...)]:
    [instance.id] is read when the call is made; the values are then
    prepared for their columns, where [extra_info] is encoded for its
    JSONField, and the row is inserted.  The result is the inserted row. *)
Definition create (user : option Z) (action : string) (instance : pyval)
    (reason : option string) (old_value new_value : option (gmap string json))
    (extra_info : gmap string pyval) : result ActivityLog :=
  match getattr instance "id" with
  | Raise e => Raise e
  | Ok (PJson object_id) =>
      match encode_extra_info extra_info with
      | Ok extra =>
          insert_activity_log object_id
            (λ n, mkActivityLog user action (type_name instance) n reason
                                old_value new_value extra)
      | Raise e => Raise e
      end
  | Ok _ => Raise TypeError
  end.

(** [{**context, **(extra_info or {})}] *)
Definition merge_extra_info (context : gmap string pyval)
    (extra_info : option (gmap string json)) : gmap string pyval :=
  (PJson <$> default ∅ extra_info) ∪ context.

(** [AuditService.log_create] *)
Definition log_create (user : option Z) (instance : pyval)
    (reason : option string) (extra_info : option (gmap string json))
    : result ActivityLog :=
  let new_state := serialize_model_state instance None in
  match get_entity_context instance with
  | Raise e => Raise e
  | Ok context =>
      let final_extra_info := merge_extra_info context extra_info in
      create user "CREATED" instance reason None new_state final_extra_info
  end.

(** [list(changes.keys())]; the order is that of the iteration over the set
    [all_keys], which Python leaves unspecified. *)
Definition changed_keys (changes : gmap string (json * json)) : list string :=
  elements (dom changes).

(** [AuditService.log_update]; [if old_state] is false for [None] and for
    the empty dictionary. *)
Definition log_update (user : option Z) (instance : pyval)
    (old_state : option (gmap string json)) (reason : option string)
    (extra_info : option (gmap string json)) (fields : option (list string))
    : result ActivityLog :=
  let new_state := serialize_model_state instance fields in
  match get_entity_context instance with
  | Raise e => Raise e
  | Ok context =>
      let changes :=
        match old_state with
        | Some o =>
            if decide (o = ∅) then ∅ else compute_changes old_state new_state
        | None => ∅
        end in
      let final_extra_info :=
        <["changed_fields" := PJson (JList (changed_keys changes))]>
          (merge_extra_info context extra_info) in
      create user "UPDATED" instance reason old_state new_state
             final_extra_info
  end.

(** [AuditService.log_delete] *)
Definition log_delete (user : option Z) (instance : pyval)
    (reason : option string) (extra_info : option (gmap string json))
    : result ActivityLog :=
  let old_state := serialize_model_state instance None in
  match get_entity_context instance with
  | Raise e => Raise e
  | Ok context =>
      let final_extra_info := merge_extra_info context extra_info in
      create user "DELETED" instance reason old_state None final_extra_info
  end.

(** [AuditService.log_event] *)
Definition log_event (user : option Z) (instance : pyval) (action : string)
    (old_state new_state : option (gmap string json)) (reason : option string)
    (extra_info : option (gmap string json)) : result ActivityLog :=
  match get_entity_context instance with
  | Raise e => Raise e
  | Ok context =>
      let final_extra_info := merge_extra_info context extra_info in
      create user action instance reason old_state new_state final_extra_info
  end.

(** [AuditService.capture_state] *)
Definition capture_state (instance : pyval) (fields : option (list string))
    : option (gmap string json) :=
  serialize_model_state instance fields.

End Audit.

(** * The static role table ([pm/utils/role_permissions.py]) *)
Module Roles.

Record RoleData := mkRoleData {
  description : string;
  permissions : list string
}.

(** The dictionary [ROLE_PERMISSIONS], in the order of its literal. *)
Definition ROLE_PERMISSIONS : list (string * RoleData) :=
  [ ("Admin",
     mkRoleData
       "Manages access (login/signup) and creates Workspaces, assigns people"
       [ "user.create"; "user.view"; "user.edit"; "user.delete";
         "user.suspend";
         "workspace.create"; "workspace.view"; "workspace.edit";
         "workspace.delete"; "workspace.manage_members";
         "workspace.assign_roles";
         "role.create"; "role.view"; "role.edit"; "role.delete";
         "role.assign";
         "project.view"; "milestone.view"; "sprint.view"; "story.view";
         "task.view" ]);
    ("Project Admin",
     mkRoleData "Manages Projects, Milestones, Sprints, Stories, and Tasks"
       [ "project.create"; "project.view"; "project.edit"; "project.delete";
         "project.manage_members";
         "milestone.create"; "milestone.view"; "milestone.edit";
         "milestone.delete";
         "sprint.create"; "sprint.view"; "sprint.edit"; "sprint.delete";
         "story.create"; "story.view"; "story.edit"; "story.delete";
         "task.create"; "task.view"; "task.edit"; "task.delete";
         "task.assign";
         "comment.create"; "comment.view"; "attachment.upload";
         "attachment.view" ]);
    ("User",
     mkRoleData "Views assigned Workspaces, Projects, and Tasks"
       [ "workspace.view"; "project.view"; "task.view";
         "task.update_status"; "task.update_progress";
         "comment.create"; "comment.view";
         "milestone.view"; "sprint.view"; "story.view" ]);
    ("System",
     mkRoleData "Automated system role for auto-completion logic"
       [ "task.auto_complete"; "story.auto_complete"; "sprint.auto_complete";
         "milestone.auto_complete"; "project.auto_complete";
         "workspace.auto_complete";
         "notification.create"; "activity.log" ]) ].

(** [d.get(key)] on a dictionary given by its items. *)
Definition dict_get {A} (d : list (string * A)) (key : string) : option A :=
  (λ found : nat * (string * A), found.2.2)
    <$> list_find (λ item, item.1 = key) d.

(** [get_roles_with_permission(permission)] *)
Definition get_roles_with_permission (permission : string) : list string :=
  foldl (λ roles item,
           if decide (permission ∈ permissions item.2)
           then roles ++ [item.1]
           else roles)
        [] ROLE_PERMISSIONS.

(** [get_role_permissions(role_name)] *)
Definition get_role_permissions (role_name : string) : list string :=
  match dict_get ROLE_PERMISSIONS role_name with
  | Some role_data => permissions role_data
  | None => []
  end.

(** [user_has_permission(user, permission)]; the user is absent, or has no
    role, or has a role with the given name. *)
Definition user_has_permission (user : option (option string))
    (permission : string) : bool :=
  match user with
  | Some (Some role_name) =>
      bool_decide (permission ∈ get_role_permissions role_name)
  | _ => false
  end.

End Roles.

(** * Example data

    One workspace owned by alice with a private and a public project; bob,
    carol and erin are plain workspace members, dave is an outsider.  Bob's
    role holds [project.edit] and [task.edit]; carol has a grant that allows
    editing but not viewing, erin one that allows both. *)
Module Fixture.

Local Open Scope Z_scope.

Definition alice : User := mkUser 1 None.
Definition bob : User := mkUser 2 (Some 10).
Definition carol : User := mkUser 3 None.
Definition dave : User := mkUser 4 None.
Definition erin : User := mkUser 5 None.

Definition apollo : Project := mkProject "Apollo" "Not Started" 1 "private".
Definition beacon : Project := mkProject "Beacon" "Not Started" 1 "public".

Definition sprint1 : Sprint := mkSprint 200 "S1" "Not Started".

Definition task1 : Task := mkTask 300 "T1" "Done" (Some 2) None.
Definition task2 : Task := mkTask 300 "T2" "To-do" None None.
Definition task2_done : Task := mkTask 300 "T2" "Done" None None.

Definition demo : Store :=
  mkStore
    {[ 1 := mkWorkspace "Acme" 1 ]}
    (list_to_map [ (11, mkWorkspaceMember 1 2 false);
                   (12, mkWorkspaceMember 1 3 false);
                   (13, mkWorkspaceMember 1 5 false) ])
    (list_to_map [ (100, apollo); (101, beacon) ])
    [ mkProjectMember 1 100 ]
    [ mkAccess 12 100 false true; mkAccess 13 100 true true ]
    [ mkRolePermission 10 "project.edit"; mkRolePermission 10 "task.edit" ]
    {[ 200 := mkMilestone 100 "M1" "Not Started" ]}
    {[ 300 := sprint1 ]}
    (list_to_map [ (400, task1); (401, task2) ])
    []
    [].

(** The same store once the second task is Done as well. *)
Definition demo_all_done : Store :=
  Cascade.with_tasks demo (list_to_map [ (400, task1); (401, task2_done) ]).


(** Model instances as the audit recorder sees them.  [orphan_task] is a
    saved task whose sprint has a null milestone, so that [str(sprint)],
    which reads [self.milestone.name], raises; [dangling_task] is one whose
    sprint row is gone, so that loading it raises; [unsaved_task] has no key
    yet. *)
Definition task_attrs (sprint : Audit.result Audit.pyval)
    : list (string * Audit.result Audit.pyval) :=
  [ ("title", Audit.Ok (Audit.PJson (Audit.JStr "Fix login")));
    ("status", Audit.Ok (Audit.PJson (Audit.JStr "Done")));
    ("priority", Audit.Ok (Audit.PJson (Audit.JStr "High")));
    ("due_date", Audit.Ok (Audit.PDate "2024-05-01"));
    ("sprint_id", Audit.Ok (Audit.PJson (Audit.JInt 300)));
    ("sprint", sprint) ].

Definition null_milestone_sprint : Audit.pyval :=
  Audit.PObj "Sprint" (Some 300) (Audit.Raise Audit.AttributeError)
    [ ("name", Audit.Ok (Audit.PJson (Audit.JStr "S1")));
      ("milestone", Audit.Ok (Audit.PJson Audit.JNull)) ].

Definition orphan_task : Audit.pyval :=
  Audit.PObj "Task" (Some 400) (Audit.Ok "Fix login")
    (task_attrs (Audit.Ok null_milestone_sprint)).

Definition dangling_task : Audit.pyval :=
  Audit.PObj "Task" (Some 400) (Audit.Ok "Fix login")
    (task_attrs (Audit.Raise Audit.ObjectDoesNotExist)).


Definition todo_state : gmap string Audit.json :=
  {[ "status" := Audit.JStr "To-do" ]}.

(** A variant for the task rules: heidi is one more plain member of the
    workspace, with a role that holds [task.edit] only; the public project
    has a milestone and a sprint, and a task of that sprint is assigned to
    dave. *)
Definition heidi : User := mkUser 8 (Some 20).

Definition demo_roles : Store :=
  mkStore
    (workspaces demo)
    (<[15 := mkWorkspaceMember 1 8 false]> (workspace_members demo))
    (projects demo)
    (project_members demo)
    (access_grants demo)
    (mkRolePermission 20 "task.edit" :: role_permissions demo)
    (<[201 := mkMilestone 101 "M2" "Not Started"]> (milestones demo))
    (<[301 := mkSprint 201 "S2" "Not Started"]> (sprints demo))
    (tasks demo)
    []
    [].

Definition beacon_task : Task := mkTask 301 "B1" "To-do" (Some 4) None.

End Fixture.

(** * Properties of the access resolver *)
Module AccessFacts.

Import Access.

(** The five rules of [can_user_view_project] as propositions over the
    tables, and the rules particular to [can_user_edit_project]. *)
Definition rule_member (st : Store) (u : User) (pid : Z) : Prop :=
  ∃ r, r ∈ project_members st ∧ pm_project r = pid ∧ pm_user r = user_id u.

Definition rule_owner (u : User) (w : Workspace) : Prop :=
  ws_owner w = user_id u.

Definition rule_admin (st : Store) (u : User) (wid : Z) : Prop :=
  ∃ k m, workspace_members st !! k = Some m
         ∧ wm_workspace m = wid ∧ wm_user m = user_id u
         ∧ wm_is_admin m = true.

Definition rule_workspace_member (st : Store) (u : User) (wid : Z) : Prop :=
  ∃ k m, workspace_members st !! k = Some m
         ∧ wm_workspace m = wid ∧ wm_user m = user_id u.

Definition rule_view_grant (st : Store) (u : User) (pid : Z) : Prop :=
  ∃ g m, g ∈ access_grants st
         ∧ workspace_members st !! wpa_workspace_member g = Some m
         ∧ wm_user m = user_id u
         ∧ wpa_project g = pid ∧ wpa_can_view g = true.

Definition rule_edit_grant (st : Store) (u : User) (pid : Z) : Prop :=
  ∃ g m, g ∈ access_grants st
         ∧ workspace_members st !! wpa_workspace_member g = Some m
         ∧ wm_user m = user_id u
         ∧ wpa_project g = pid ∧ wpa_can_edit g = true.

Definition rule_public (st : Store) (u : User) (p : Project) : Prop :=
  proj_visibility p = "public"
  ∧ rule_workspace_member st u (proj_workspace p).

Definition rule_role (st : Store) (u : User) (permission_type : string)
    : Prop :=
  ∃ r rp, user_role u = Some r ∧ rp ∈ role_permissions st
          ∧ rp_role rp = r ∧ rp_permission_type rp = permission_type.

(** The five checks of [can_user_view_project] in the order of the source. *)
Definition view_rules (st : Store) (u : User) (pid : Z) (p : Project)
    (w : Workspace) : list bool :=
  [ is_project_member st u pid;
    is_workspace_owner u w;
    is_admin_member st u (proj_workspace p);
    has_view_grant st u pid;
    bool_decide (proj_visibility p = "public")
      && is_workspace_member st u (proj_workspace p) ].

(** Foreign-key integrity of [Project.workspace]. *)
Definition projects_have_workspace (st : Store) : Prop :=
  map_Forall (λ _ p, is_Some (workspaces st !! proj_workspace p)) (projects st).

Lemma exists_row_true {A} (P : A → Prop) `{!∀ a, Decision (P a)}
    (m : gmap Z A) :
  exists_row P m = true ↔ ∃ k a, m !! k = Some a ∧ P a.
Proof.
  unfold exists_row. etrans; [apply bool_decide_eq_true|].
  unfold map_Exists. reflexivity.
Qed.

Lemma is_project_member_true st u pid :
  is_project_member st u pid = true ↔ rule_member st u pid.
Proof.
  unfold is_project_member, rule_member.
  etrans; [apply bool_decide_eq_true|]. apply Exists_exists.
Qed.

Lemma is_workspace_owner_true u w :
  is_workspace_owner u w = true ↔ rule_owner u w.
Proof. unfold is_workspace_owner. apply bool_decide_eq_true. Qed.

Lemma is_admin_member_true st u wid :
  is_admin_member st u wid = true ↔ rule_admin st u wid.
Proof. unfold is_admin_member. rewrite exists_row_true. reflexivity. Qed.

Lemma is_workspace_member_true st u wid :
  is_workspace_member st u wid = true ↔ rule_workspace_member st u wid.
Proof. unfold is_workspace_member. rewrite exists_row_true. reflexivity. Qed.

Lemma has_view_grant_true st u pid :
  has_view_grant st u pid = true ↔ rule_view_grant st u pid.
Proof.
  unfold has_view_grant, rule_view_grant, grant_of_user.
  etrans; [apply bool_decide_eq_true|]. rewrite Exists_exists. split.
  - intros (g & Hg & (m & Hm & Hu) & Hp & Hv). exists g, m. tauto.
  - intros (g & m & Hg & Hm & Hu & Hp & Hv). exists g. eauto 10.
Qed.

Lemma has_role_permission_true st u permission_type :
  has_role_permission st u permission_type = true
  ↔ rule_role st u permission_type.
Proof.
  unfold has_role_permission, rule_role.
  destruct (user_role u) as [r|].
  - etrans; [apply bool_decide_eq_true|]. rewrite Exists_exists. split.
    + intros (rp & Hin & Hr & Hp). exists r, rp. tauto.
    + intros (r' & rp & Hr' & Hin & Hr & Hp). exists rp.
      inversion Hr'; subst. tauto.
  - split; [discriminate|]. intros (r & rp & Hr & _). discriminate.
Qed.

Lemma existsb_Permutation {A} (f : A → bool) (l l' : list A) :
  l ≡ₚ l' → existsb f l = existsb f l'.
Proof.
  induction 1 as [|x l l' _ IH|x y l|l l' l'' _ IH1 _ IH2]; simpl.
  - reflexivity.
  - by rewrite IH.
  - destruct (f x), (f y); reflexivity.
  - by rewrite IH1.
Qed.

(** The result of [can_user_view_project] once the workspace is loaded: the
    disjunction of its five checks. *)
Lemma view_is_disjunction st u pid p w :
  workspaces st !! proj_workspace p = Some w →
  can_user_view_project st u pid p = Some (existsb id (view_rules st u pid p w)).
Proof.
  intros Hw. unfold can_user_view_project, view_rules. rewrite Hw. simpl.
  destruct (is_project_member st u pid); [reflexivity|].
  destruct (is_workspace_owner u w); [reflexivity|].
  destruct (is_admin_member st u (proj_workspace p)); [reflexivity|].
  destruct (has_view_grant st u pid); [reflexivity|].
  destruct (bool_decide (proj_visibility p = "public")); simpl;
    [|reflexivity].
  by rewrite orb_false_r.
Qed.

Lemma view_true_iff st u pid p w :
  workspaces st !! proj_workspace p = Some w →
  can_user_view_project st u pid p = Some true
  ↔ rule_member st u pid ∨ rule_owner u w
    ∨ rule_admin st u (proj_workspace p)
    ∨ rule_view_grant st u pid ∨ rule_public st u p.
Proof.
  intros Hw. rewrite (view_is_disjunction _ _ _ _ _ Hw).
  unfold view_rules, rule_public. simpl.
  rewrite <- is_project_member_true, <- is_workspace_owner_true,
    <- is_admin_member_true, <- has_view_grant_true,
    <- is_workspace_member_true.
  assert (Hpub : bool_decide (proj_visibility p = "public") = true
                 ↔ proj_visibility p = "public") by apply bool_decide_eq_true.
  revert Hpub. unfold id.
  destruct (is_project_member st u pid), (is_workspace_owner u w),
    (is_admin_member st u (proj_workspace p)), (has_view_grant st u pid),
    (bool_decide (proj_visibility p = "public")),
    (is_workspace_member st u (proj_workspace p)); simpl;
    intuition congruence.
Qed.

Lemma has_edit_grant_true st u pid :
  has_edit_grant st u pid = true ↔ rule_edit_grant st u pid.
Proof.
  unfold has_edit_grant, rule_edit_grant, grant_of_user.
  etrans; [apply bool_decide_eq_true|]. rewrite Exists_exists. split.
  - intros (g & Hg & (m & Hm & Hu) & Hp & Hv). exists g, m. tauto.
  - intros (g & m & Hg & Hm & Hu & Hp & Hv). exists g. eauto 10.
Qed.

Lemma edit_true_iff st u pid p w :
  workspaces st !! proj_workspace p = Some w →
  can_user_edit_project st u pid p = Some true
  ↔ rule_member st u pid ∨ rule_owner u w
    ∨ rule_admin st u (proj_workspace p)
    ∨ rule_edit_grant st u pid
    ∨ (rule_role st u "project.edit"
       ∧ rule_workspace_member st u (proj_workspace p)).
Proof.
  intros Hw. unfold can_user_edit_project. rewrite Hw. simpl.
  rewrite <- is_project_member_true, <- is_workspace_owner_true,
    <- is_admin_member_true, <- has_edit_grant_true,
    <- has_role_permission_true, <- is_workspace_member_true.
  destruct (is_project_member st u pid), (is_workspace_owner u w),
    (is_admin_member st u (proj_workspace p)), (has_edit_grant st u pid),
    (has_role_permission st u "project.edit"),
    (is_workspace_member st u (proj_workspace p)); simpl;
    intuition congruence.
Qed.

(** ** C8 *)

(** C8. A user without a role fails [has_role_permission] for every
    permission string, whatever the RolePermission table holds; a user with
    role [r] passes exactly when the table has a row for [r] and that
    permission type. *)
Theorem has_role_permission_default_deny (st : Store) (uid : Z) :
  (∀ permission_type,
     has_role_permission st (mkUser uid None) permission_type = false)
  ∧ (∀ r permission_type,
       has_role_permission st (mkUser uid (Some r)) permission_type = true
       ↔ ∃ rp, rp ∈ role_permissions st
               ∧ rp_role rp = r ∧ rp_permission_type rp = permission_type).
Proof.
  split.
  - reflexivity.
  - intros r permission_type. unfold has_role_permission. simpl.
    etrans; [apply bool_decide_eq_true|]. apply Exists_exists.
Qed.

(** ** C2 *)

(** C2. With the project's workspace loaded, [can_user_view_project] returns
    true exactly when one of the five rules holds (project member, workspace
    owner, workspace admin, a view grant of one of the user's memberships,
    public project and workspace member); it returns false when none holds;
    and checking the five rules in any other order gives the same result. *)
Theorem can_view_project_five_rules (st : Store) (u : User) (pid : Z)
    (p : Project) (w : Workspace) :
  workspaces st !! proj_workspace p = Some w →
  (can_user_view_project st u pid p = Some true
   ↔ rule_member st u pid ∨ rule_owner u w
     ∨ rule_admin st u (proj_workspace p)
     ∨ rule_view_grant st u pid ∨ rule_public st u p)
  ∧ (¬ (rule_member st u pid ∨ rule_owner u w
        ∨ rule_admin st u (proj_workspace p)
        ∨ rule_view_grant st u pid ∨ rule_public st u p)
     → can_user_view_project st u pid p = Some false)
  ∧ (∀ order, order ≡ₚ view_rules st u pid p w →
       can_user_view_project st u pid p = Some (existsb id order)).
Proof.
  intros Hw. split; [by apply view_true_iff|]. split.
  - intros Hnone. rewrite <- (view_true_iff _ _ _ _ _ Hw) in Hnone.
    rewrite (view_is_disjunction _ _ _ _ _ Hw) in *.
    destruct (existsb id (view_rules st u pid p w)); congruence.
  - intros order Hperm. rewrite (view_is_disjunction _ _ _ _ _ Hw).
    f_equal. symmetry. by apply existsb_Permutation.
Qed.

Lemma can_view_project_five_rules_witness :
  Access.can_user_view_project Fixture.demo Fixture.erin 100 Fixture.apollo
    = Some true
  ∧ Access.can_user_view_project Fixture.demo Fixture.dave 100 Fixture.apollo
    = Some false.
Proof.
  pose proof (can_view_project_five_rules Fixture.demo Fixture.erin 100
                Fixture.apollo (mkWorkspace "Acme" 1) eq_refl) as [_ [_ He]].
  pose proof (can_view_project_five_rules Fixture.demo Fixture.dave 100
                Fixture.apollo (mkWorkspace "Acme" 1) eq_refl) as [_ [_ Hd]].
  split.
  - rewrite (He _ (reflexivity _)). vm_compute. reflexivity.
  - rewrite (Hd _ (reflexivity _)). vm_compute. reflexivity.
Defined.

(** ** C1 *)

(** C1, as stated, fails on the code.  Bob is a plain member of the
    workspace whose role holds [project.edit]: he may edit the private
    project but not view it.  Carol's membership has a grant with
    [can_edit = true] and [can_view = false]: the same. *)
Lemma edit_without_view_counterexample :
  ¬ (can_user_edit_project Fixture.demo Fixture.bob 100 Fixture.apollo
       = Some true →
     can_user_view_project Fixture.demo Fixture.bob 100 Fixture.apollo
       = Some true)
  ∧ ¬ (can_user_edit_project Fixture.demo Fixture.carol 100 Fixture.apollo
         = Some true →
       can_user_view_project Fixture.demo Fixture.carol 100 Fixture.apollo
         = Some true).
Proof.
  split; intros H; specialize (H eq_refl); vm_compute in H; discriminate.
Qed.

(** The routes to edit that carry view with them.  Rules 1 to 3 are shared
    by the two functions.  An edit grant (rule 4 of edit) carries view when
    the user also has a view grant on the project, or the project is public
    and the user a member of its workspace.  The [project.edit] role
    permission of a workspace member (rule 5 of edit), reached when the user
    has no edit grant, carries view when the user has a view grant on the
    project or the project is public. *)
Definition edit_routes_carry_view (st : Store) (u : User) (pid : Z)
    (p : Project) (w : Workspace) : Prop :=
  rule_member st u pid ∨ rule_owner u w ∨ rule_admin st u (proj_workspace p)
  ∨ (rule_edit_grant st u pid
     ∧ (rule_view_grant st u pid ∨ rule_public st u p))
  ∨ (¬ rule_edit_grant st u pid
     ∧ rule_role st u "project.edit"
     ∧ rule_workspace_member st u (proj_workspace p)
     ∧ (rule_view_grant st u pid ∨ proj_visibility p = "public")).

(** C1, amended.  Let [can_user_edit_project] return true.  For a member
    of the project [can_user_view_project] returns true; for anyone else the
    workspace of the project loads.  With the workspace loaded,
    [can_user_view_project] returns true exactly when the route by which the
    user may edit carries view: the user is a member of the project, the
    owner of its workspace or an admin of it; or has an edit grant together
    with a view grant or with membership of the workspace of a public
    project; or, without an edit grant, holds [project.edit] as a workspace
    member and has a view grant or the project is public.  In every other
    configuration that allows editing [can_user_view_project] returns
    false. *)
Theorem edit_implies_view_amended (st : Store) (u : User) (pid : Z)
    (p : Project) :
  can_user_edit_project st u pid p = Some true →
  (rule_member st u pid → can_user_view_project st u pid p = Some true)
  ∧ (¬ rule_member st u pid →
     ∃ w, workspaces st !! proj_workspace p = Some w)
  ∧ ∀ w,
      workspaces st !! proj_workspace p = Some w →
      (edit_routes_carry_view st u pid p w →
       can_user_view_project st u pid p = Some true)
      ∧ (can_user_view_project st u pid p = Some true →
         edit_routes_carry_view st u pid p w)
      ∧ (¬ edit_routes_carry_view st u pid p w →
         can_user_view_project st u pid p = Some false).
Proof.
  intros Hedit. split; [|split].
  - intros Hm. apply is_project_member_true in Hm.
    unfold can_user_view_project. by rewrite Hm.
  - intros Hnm. rewrite <- is_project_member_true in Hnm.
    unfold can_user_edit_project in Hedit.
    destruct (is_project_member st u pid); [exfalso; by apply Hnm|].
    destruct (workspaces st !! proj_workspace p) as [w|]; [eauto|].
    discriminate.
  - intros w Hw. apply (edit_true_iff _ _ _ _ _ Hw) in Hedit.
    pose proof (view_true_iff st u pid p w Hw) as Hview.
    assert (rule_edit_grant st u pid ∨ ¬ rule_edit_grant st u pid) as Hdec.
    { rewrite <- has_edit_grant_true.
      destruct (has_edit_grant st u pid); [by left|right; discriminate]. }
    assert (edit_routes_carry_view st u pid p w
            ↔ can_user_view_project st u pid p = Some true) as Hiff.
    { rewrite Hview. unfold edit_routes_carry_view, rule_public. tauto. }
    split; [apply Hiff|]. split; [apply Hiff|].
    intros Hnot. rewrite Hiff in Hnot.
    rewrite (view_is_disjunction _ _ _ _ _ Hw) in *.
    destruct (existsb id (view_rules st u pid p w)); congruence.
Qed.

Lemma edit_implies_view_amended_witness :
  can_user_view_project Fixture.demo Fixture.erin 100 Fixture.apollo
    = Some true
  ∧ can_user_view_project Fixture.demo (mkUser 1 (Some 10%Z)) 100
      Fixture.apollo
    = Some true
  ∧ can_user_view_project Fixture.demo Fixture.bob 100 Fixture.apollo
    = Some false.
Proof.
  split; [|split].
  - destruct (edit_implies_view_amended Fixture.demo Fixture.erin 100
                Fixture.apollo eq_refl) as (_ & _ & H).
    apply (H (mkWorkspace "Acme" 1) eq_refl).
    right. right. right. left. split.
    + apply has_edit_grant_true. vm_compute. reflexivity.
    + left. apply has_view_grant_true. vm_compute. reflexivity.
  - destruct (edit_implies_view_amended Fixture.demo (mkUser 1 (Some 10%Z))
                100 Fixture.apollo eq_refl) as (H & _).
    apply H. apply is_project_member_true. vm_compute. reflexivity.
  - destruct (edit_implies_view_amended Fixture.demo Fixture.bob 100
                Fixture.apollo eq_refl) as (_ & _ & H).
    apply (H (mkWorkspace "Acme" 1) eq_refl).
    intros [Hr|[Hr|[Hr|[[Hr _]|(_ & _ & _ & [Hr|Hr])]]]].
    + apply is_project_member_true in Hr. vm_compute in Hr. discriminate.
    + apply is_workspace_owner_true in Hr. vm_compute in Hr. discriminate.
    + apply is_admin_member_true in Hr. vm_compute in Hr. discriminate.
    + apply has_edit_grant_true in Hr. vm_compute in Hr. discriminate.
    + apply has_view_grant_true in Hr. vm_compute in Hr. discriminate.
    + vm_compute in Hr. discriminate.
Defined.

(** ** C3 *)

Lemma elem_of_member_projects st u pid :
  pid ∈ member_projects st u
  ↔ is_Some (projects st !! pid) ∧ rule_member st u pid.
Proof.
  unfold member_projects. rewrite elem_of_dom. unfold is_Some.
  setoid_rewrite map_lookup_filter_Some. simpl.
  rewrite <- is_project_member_true.
  split; [intros (x & Hx & Hm) | intros [[x Hx] Hm]]; eauto.
Qed.

Lemma elem_of_admin_workspaces st u wid :
  wid ∈ admin_workspaces st u ↔ rule_admin st u wid.
Proof.
  unfold admin_workspaces, rule_admin. rewrite elem_of_map_img.
  setoid_rewrite lookup_fmap_Some.
  setoid_rewrite map_lookup_filter_Some. simpl.
  split; intros (k & m & H); exists k, m; tauto.
Qed.

Lemma elem_of_member_workspace_ids st u wid :
  wid ∈ member_workspace_ids st u ↔ rule_workspace_member st u wid.
Proof.
  unfold member_workspace_ids, rule_workspace_member.
  rewrite elem_of_map_img.
  setoid_rewrite lookup_fmap_Some.
  setoid_rewrite map_lookup_filter_Some. simpl.
  split; intros (k & m & H); exists k, m; tauto.
Qed.

Lemma elem_of_owned_workspaces st u wid :
  wid ∈ owned_workspaces st u
  ↔ ∃ w, workspaces st !! wid = Some w ∧ rule_owner u w.
Proof.
  unfold owned_workspaces, rule_owner. rewrite elem_of_dom. unfold is_Some.
  setoid_rewrite map_lookup_filter_Some. simpl. reflexivity.
Qed.

Lemma elem_of_granted_project_ids st u pid :
  pid ∈ granted_project_ids st u ↔ rule_view_grant st u pid.
Proof.
  unfold granted_project_ids, rule_view_grant, grant_of_user.
  rewrite elem_of_list_to_set, list_elem_of_fmap.
  setoid_rewrite list_elem_of_filter. split.
  - intros (g & -> & ((m & Hm & Hu) & Hv) & Hin). exists g, m. tauto.
  - intros (g & m & Hin & Hm & Hu & Hp & Hv). exists g. eauto 10.
Qed.

(** C3. Under foreign-key integrity of [Project.workspace], the set built by
    [get_accessible_projects] holds exactly the rows of the Project table for
    which [can_user_view_project] returns true. *)
Theorem accessible_projects_are_viewable (st : Store) (u : User) :
  projects_have_workspace st →
  ∀ pid p,
    get_accessible_projects st u !! pid = Some p
    ↔ projects st !! pid = Some p
      ∧ can_user_view_project st u pid p = Some true.
Proof.
  intros Hfk pid p. unfold get_accessible_projects.
  rewrite map_lookup_filter_Some. simpl.
  split; intros [Hp H]; (split; [exact Hp|]);
    destruct (Hfk _ _ Hp) as [w Hw];
    pose proof (view_true_iff st u pid p w Hw) as Hview.
  - apply Hview. unfold all_admin_workspace_ids in H.
    rewrite elem_of_union, elem_of_member_projects, elem_of_admin_workspaces,
      elem_of_owned_workspaces, elem_of_granted_project_ids,
      elem_of_member_workspace_ids in H.
    unfold rule_public.
    destruct H as [[_ H]|[[H|(w' & Hw' & H)]|[H|[H1 H2]]]]; try tauto.
    rewrite Hw in Hw'. inversion Hw'; subst. tauto.
  - apply Hview in H. unfold all_admin_workspace_ids.
    rewrite elem_of_union, elem_of_member_projects, elem_of_admin_workspaces,
      elem_of_owned_workspaces, elem_of_granted_project_ids,
      elem_of_member_workspace_ids.
    unfold rule_public in H.
    destruct H as [H|[H|[H|[H|[H1 H2]]]]]; eauto 10.
Qed.

Lemma accessible_projects_are_viewable_witness :
  get_accessible_projects Fixture.demo Fixture.erin !! 100%Z
    = Some Fixture.apollo
  ↔ projects Fixture.demo !! 100%Z = Some Fixture.apollo
    ∧ can_user_view_project Fixture.demo Fixture.erin 100 Fixture.apollo
      = Some true.
Proof.
  apply (accessible_projects_are_viewable Fixture.demo Fixture.erin).
  unfold projects_have_workspace.
  apply (bool_decide_unpack _). vm_compute. exact I.
Defined.

(** ** C7 *)

(** The limited field list of the self-service branch. *)
Definition assignee_fields : EditFields :=
  FieldList ["status"; "description"; "start_date"; "due_date"].

(** C7. For a task whose sprint, milestone, project and workspace load,
    [can_user_edit_project] and [can_user_view_project] on the derived
    project return some booleans [e] and [v], and [can_user_edit_task]
    returns: all fields if [e]; else the limited fields if the task's
    assignee is the user; else all fields if a RolePermission row gives the
    user's role [task.edit] and [v]; else a refusal with no fields. *)
Theorem can_edit_task_rule_order (st : Store) (u : User) (t : Task) (pid : Z)
    (p : Project) (w : Workspace) :
  task_project st t = Some (pid, p) →
  workspaces st !! proj_workspace p = Some w →
  ∃ e v,
    can_user_edit_project st u pid p = Some e
    ∧ can_user_view_project st u pid p = Some v
    ∧ (e = true →
       can_user_edit_task st u t = Some (mkEditResult true AllFields))
    ∧ (e = false → task_assignee t = Some (user_id u) →
       can_user_edit_task st u t = Some (mkEditResult true assignee_fields))
    ∧ (e = false → task_assignee t ≠ Some (user_id u) →
       rule_role st u "task.edit" → v = true →
       can_user_edit_task st u t = Some (mkEditResult true AllFields))
    ∧ (e = false → task_assignee t ≠ Some (user_id u) →
       ¬ (rule_role st u "task.edit" ∧ v = true) →
       can_user_edit_task st u t = Some (mkEditResult false (FieldList []))).
Proof.
  intros Hproj Hw.
  assert (∃ e, can_user_edit_project st u pid p = Some e) as [e He].
  { unfold can_user_edit_project. rewrite Hw. simpl.
    repeat (match goal with |- context [if ?b then _ else _] => destruct b end;
            eauto). }
  pose proof (view_is_disjunction st u pid p w Hw) as Hv.
  revert Hv. generalize (existsb id (view_rules st u pid p w)).
  intros v Hv. exists e, v.
  split; [exact He|]. split; [exact Hv|].
  pose proof (has_role_permission_true st u "task.edit") as Hrole.
  assert (is_assignee u t = true ↔ task_assignee t = Some (user_id u))
    as Hassignee by apply bool_decide_eq_true.
  unfold can_user_edit_task. rewrite Hproj. simpl. rewrite He. simpl.
  split; [by intros ->|]. split; [|split].
  - intros -> Ha. apply Hassignee in Ha. by rewrite Ha.
  - intros -> Hna Hr ->. apply Hrole in Hr.
    destruct (is_assignee u t); [exfalso; tauto|].
    by rewrite Hr, Hv.
  - intros -> Hna Hnot.
    destruct (is_assignee u t); [exfalso; tauto|].
    destruct (has_role_permission st u "task.edit"); [|reflexivity].
    rewrite Hv. simpl. destruct v; [exfalso; tauto|reflexivity].
Qed.

Lemma can_edit_task_rule_order_witness :
  can_user_edit_task Fixture.demo_roles Fixture.alice Fixture.task1
    = Some (mkEditResult true AllFields)
  ∧ can_user_edit_task Fixture.demo_roles Fixture.dave Fixture.beacon_task
    = Some (mkEditResult true assignee_fields)
  ∧ can_user_edit_task Fixture.demo_roles Fixture.heidi Fixture.beacon_task
    = Some (mkEditResult true AllFields)
  ∧ can_user_edit_task Fixture.demo_roles Fixture.heidi Fixture.task1
    = Some (mkEditResult false (FieldList []))
  ∧ can_user_edit_task Fixture.demo_roles Fixture.dave Fixture.task1
    = Some (mkEditResult false (FieldList [])).
Proof.
  split; [|split; [|split; [|split]]].
  - destruct (can_edit_task_rule_order Fixture.demo_roles Fixture.alice
                Fixture.task1 100 Fixture.apollo (mkWorkspace "Acme" 1)
                eq_refl eq_refl) as (e & v & He & _ & H & _).
    apply H. vm_compute in He. congruence.
  - destruct (can_edit_task_rule_order Fixture.demo_roles Fixture.dave
                Fixture.beacon_task 101 Fixture.beacon (mkWorkspace "Acme" 1)
                eq_refl eq_refl) as (e & v & He & _ & _ & H & _).
    apply H; [|reflexivity]. vm_compute in He. congruence.
  - destruct (can_edit_task_rule_order Fixture.demo_roles Fixture.heidi
                Fixture.beacon_task 101 Fixture.beacon (mkWorkspace "Acme" 1)
                eq_refl eq_refl) as (e & v & He & Hv & _ & _ & H & _).
    apply H.
    + vm_compute in He. congruence.
    + discriminate.
    + apply has_role_permission_true. vm_compute. reflexivity.
    + vm_compute in Hv. congruence.
  - destruct (can_edit_task_rule_order Fixture.demo_roles Fixture.heidi
                Fixture.task1 100 Fixture.apollo (mkWorkspace "Acme" 1)
                eq_refl eq_refl) as (e & v & He & Hv & _ & _ & _ & H).
    apply H.
    + vm_compute in He. congruence.
    + discriminate.
    + intros [_ Hview]. vm_compute in Hv. congruence.
  - destruct (can_edit_task_rule_order Fixture.demo_roles Fixture.dave
                Fixture.task1 100 Fixture.apollo (mkWorkspace "Acme" 1)
                eq_refl eq_refl) as (e & v & He & Hv & _ & _ & _ & H).
    apply H.
    + vm_compute in He. congruence.
    + discriminate.
    + intros [Hrole _]. apply has_role_permission_true in Hrole.
      vm_compute in Hrole. discriminate.
Defined.

End AccessFacts.

(** * Properties of the completion cascade *)
Module CascadeFacts.

Import Cascade.

(** ** Counting rows *)

Lemma count_rows_ne_0 {A} (P : A → Prop) `{!∀ a, Decision (P a)}
    (m : gmap Z A) :
  count_rows P m ≠ 0%nat ↔ ∃ k a, m !! k = Some a ∧ P a.
Proof.
  unfold count_rows. rewrite map_size_ne_0_lookup. split.
  - intros (k & a & Ha). apply map_lookup_filter_Some in Ha. eauto.
  - intros (k & a & Ha & HP). exists k, a.
    apply map_lookup_filter_Some. auto.
Qed.

Lemma count_rows_all {A} (P Q : A → Prop) `{!∀ a, Decision (P a)}
    `{!∀ a, Decision (Q a)} (m : gmap Z A) :
  count_rows (λ a, P a ∧ Q a) m = count_rows P m
  ↔ ∀ k a, m !! k = Some a → P a → Q a.
Proof.
  unfold count_rows. split.
  - intros Hsize k a Ha HP.
    assert (Hsub : filter (λ kv : Z * A, P kv.2 ∧ Q kv.2) m
                   ⊆ filter (λ kv : Z * A, P kv.2) m).
    { apply map_filter_subseteq_ext. simpl. tauto. }
    apply map_subseteq_size_eq in Hsub; [|lia].
    assert (Hin : filter (λ kv : Z * A, P kv.2) m !! k = Some a).
    { apply map_lookup_filter_Some. auto. }
    rewrite <- Hsub in Hin. apply map_lookup_filter_Some in Hin. simpl in Hin.
    tauto.
  - intros Hall. f_equal. apply map_filter_ext. simpl.
    intros k a Ha. split; [tauto|]. eauto.
Qed.

(** ** What the levels above the sprint leave alone *)

(** [above_sprint st st']: [st'] has the Sprint and Task tables of [st], and
    its status writes are those of [st] followed by writes to other levels. *)
Definition above_sprint (st st' : Store) : Prop :=
  sprints st' = sprints st
  ∧ tasks st' = tasks st
  ∧ ∃ l, status_writes st' = status_writes st ++ l
         ∧ Forall (λ e, e.1 ≠ LSprint) l.

Lemma above_sprint_refl st : above_sprint st st.
Proof.
  repeat split. exists []. by rewrite app_nil_r.
Qed.

Lemma above_sprint_trans st1 st2 st3 :
  above_sprint st1 st2 → above_sprint st2 st3 → above_sprint st1 st3.
Proof.
  intros (Hs1 & Ht1 & l1 & Hw1 & Hl1) (Hs2 & Ht2 & l2 & Hw2 & Hl2).
  repeat split; [congruence..|].
  exists (l1 ++ l2). rewrite Hw2, Hw1, app_assoc.
  split; [reflexivity|]. by apply Forall_app.
Qed.

Lemma above_sprint_notify st pid obj message :
  above_sprint st (notify_project_members st pid obj message).
Proof.
  unfold notify_project_members.
  destruct (decide (positive_integer_field (obj_id obj)));
    [|apply above_sprint_refl].
  repeat split. exists []. simpl. by rewrite app_nil_r.
Qed.

Lemma above_sprint_notification st obj message :
  above_sprint st (_create_completion_notification st obj message).
Proof.
  unfold _create_completion_notification.
  destruct (notified_project st obj); [|apply above_sprint_refl].
  apply above_sprint_notify.
Qed.

Lemma above_sprint_workspace_notification st wid w total :
  above_sprint st (_create_workspace_completion_notification st wid w total).
Proof.
  unfold _create_workspace_completion_notification.
  destruct (decide (positive_integer_field wid)); [|apply above_sprint_refl].
  repeat split. exists []. simpl. by rewrite app_nil_r.
Qed.

Lemma above_sprint_save_milestone st mid status :
  above_sprint st (save_milestone_status st mid status).
Proof.
  repeat split. exists [(LMilestone, mid)]. simpl.
  split; [reflexivity|]. repeat constructor. discriminate.
Qed.

Lemma above_sprint_save_project st pid status :
  above_sprint st (save_project_status st pid status).
Proof.
  repeat split. exists [(LProject, pid)]. simpl.
  split; [reflexivity|]. repeat constructor. discriminate.
Qed.

(** Case analysis on the outermost test of a stage. *)
Ltac stage_test :=
  match goal with
  | |- above_sprint _ (final (if ?d then _ else _)) => destruct d
  end.

Lemma above_sprint_workspace st workspace :
  above_sprint st (final (_check_and_complete_workspace st workspace)).
Proof.
  unfold _check_and_complete_workspace.
  destruct workspace as [[wid w]|]; [|apply above_sprint_refl].
  cbv zeta. stage_test; [apply above_sprint_refl|].
  stage_test; [|apply above_sprint_refl].
  apply above_sprint_workspace_notification.
Qed.

Lemma above_sprint_project st project :
  above_sprint st (final (_check_and_complete_project st project)).
Proof.
  unfold _check_and_complete_project.
  destruct project as [[pid p]|]; [|apply above_sprint_refl].
  cbv zeta. stage_test; [apply above_sprint_refl|].
  stage_test; [|apply above_sprint_refl].
  stage_test; [|apply above_sprint_refl].
  set (st1 := save_project_status st pid "Completed").
  set (st2 := _create_completion_notification st1 _ _).
  assert (above_sprint st st2) as H12.
  { eapply above_sprint_trans;
      [apply above_sprint_save_project|apply above_sprint_notification]. }
  destruct (workspaces st2 !! proj_workspace p) as [w|]; [|exact H12].
  eapply above_sprint_trans; [exact H12|apply above_sprint_workspace].
Qed.

Lemma above_sprint_milestone st milestone :
  above_sprint st (final (_check_and_complete_milestone st milestone)).
Proof.
  unfold _check_and_complete_milestone.
  destruct milestone as [[mid m]|]; [|apply above_sprint_refl].
  cbv zeta. stage_test; [apply above_sprint_refl|].
  stage_test; [|apply above_sprint_refl].
  stage_test; [|apply above_sprint_refl].
  set (st1 := save_milestone_status st mid "Completed").
  set (st2 := _create_completion_notification st1 _ _).
  assert (above_sprint st st2) as H12.
  { eapply above_sprint_trans;
      [apply above_sprint_save_milestone|apply above_sprint_notification]. }
  destruct (projects st2 !! ms_project m) as [p|]; [|exact H12].
  eapply above_sprint_trans; [exact H12|apply above_sprint_project].
Qed.

(** ** The sprint level *)

(** The condition under which the sprint is completed: it has a task, all
    its tasks are Done, and it is not Completed yet. *)
Definition sprint_ready (st : Store) (sid : Z) (s : Sprint) : Prop :=
  (∃ k t, tasks st !! k = Some t ∧ task_sprint t = sid)
  ∧ (∀ k t, tasks st !! k = Some t → task_sprint t = sid →
            task_status t = "Done")
  ∧ sp_status s ≠ "Completed".

(** The number of status writes made to a sprint so far. *)
Definition sprint_writes (st : Store) (sid : Z) : nat :=
  length (filter (λ e, e = (LSprint, sid)) (status_writes st)).

Definition completed_sprint (s : Sprint) : Sprint :=
  mkSprint (sp_milestone s) (sp_name s) "Completed".

Lemma sprint_has_task_iff st sid :
  count_rows (λ t, task_sprint t = sid) (tasks st) ≠ 0%nat
  ↔ ∃ k t, tasks st !! k = Some t ∧ task_sprint t = sid.
Proof. apply (count_rows_ne_0 (λ t, task_sprint t = sid)). Qed.

Lemma sprint_all_done_iff st sid :
  count_rows (λ t, task_sprint t = sid ∧ task_status t = "Done") (tasks st)
  = count_rows (λ t, task_sprint t = sid) (tasks st)
  ↔ ∀ k t, tasks st !! k = Some t → task_sprint t = sid →
           task_status t = "Done".
Proof.
  apply (count_rows_all (λ t, task_sprint t = sid)
                        (λ t, task_status t = "Done")).
Qed.

Lemma sprint_stage_ready st sid s :
  sprints st !! sid = Some s →
  sprint_ready st sid s →
  let st' := final (_check_and_complete_sprint st (Some (sid, s))) in
  sprints st' !! sid = Some (completed_sprint s)
  ∧ tasks st' = tasks st
  ∧ ∃ l, status_writes st' = status_writes st ++ (LSprint, sid) :: l
         ∧ Forall (λ e, e.1 ≠ LSprint) l.
Proof.
  intros Hs (Hsome & Hall & Hstatus). unfold _check_and_complete_sprint.
  destruct (decide (count_rows (λ t, task_sprint t = sid) (tasks st) = 0%nat))
    as [Hz|_].
  { exfalso. revert Hz. by apply sprint_has_task_iff. }
  destruct (decide (count_rows (λ t, task_sprint t = sid ∧ task_status t = "Done")
                               (tasks st)
                    = count_rows (λ t, task_sprint t = sid) (tasks st)))
    as [_|Hne].
  2:{ exfalso. apply Hne. by apply sprint_all_done_iff. }
  destruct (decide (sp_status s ≠ "Completed")) as [_|Hc]; [|tauto].
  set (st1 := save_sprint_status st sid "Completed").
  set (st2 := _create_completion_notification st1 _ _).
  assert (above_sprint st1 st2) as H12 by apply above_sprint_notification.
  assert (∀ o, above_sprint st2 (final o) →
               sprints (final o) !! sid = Some (completed_sprint s)
               ∧ tasks (final o) = tasks st
               ∧ ∃ l, status_writes (final o)
                      = status_writes st ++ (LSprint, sid) :: l
                      ∧ Forall (λ e, e.1 ≠ LSprint) l) as Hfin.
  { intros o Ho.
    destruct (above_sprint_trans _ _ _ H12 Ho) as (Hsp & Htk & l & Hw & Hl).
    rewrite Hsp, Htk, Hw. subst st1. simpl.
    rewrite lookup_alter_eq, Hs. simpl.
    repeat split. exists l. by rewrite <- app_assoc. }
  destruct (milestones st2 !! sp_milestone s) as [m|].
  - apply Hfin, above_sprint_milestone.
  - apply (Hfin (Raised st2)), above_sprint_refl.
Qed.

Lemma sprint_stage_not_ready st sid s :
  ¬ sprint_ready st sid s →
  _check_and_complete_sprint st (Some (sid, s)) = Returned st.
Proof.
  intros Hnot. unfold _check_and_complete_sprint.
  destruct (decide (count_rows (λ t, task_sprint t = sid) (tasks st) = 0%nat))
    as [|Hz]; [reflexivity|].
  destruct (decide (count_rows (λ t, task_sprint t = sid ∧ task_status t = "Done")
                               (tasks st)
                    = count_rows (λ t, task_sprint t = sid) (tasks st)))
    as [Hall|]; [|reflexivity].
  destruct (decide (sp_status s ≠ "Completed")) as [Hc|]; [|reflexivity].
  exfalso. apply Hnot. repeat split.
  - exact (proj1 (sprint_has_task_iff st sid) Hz).
  - exact (proj1 (sprint_all_done_iff st sid) Hall).
  - exact Hc.
Qed.

Global Instance sprint_ready_dec st sid s : Decision (sprint_ready st sid s).
Proof.
  destruct (decide (count_rows (λ t, task_sprint t = sid) (tasks st) ≠ 0%nat
                    ∧ count_rows (λ t, task_sprint t = sid
                                       ∧ task_status t = "Done") (tasks st)
                      = count_rows (λ t, task_sprint t = sid) (tasks st)
                    ∧ sp_status s ≠ "Completed")) as [H|H].
  - left. destruct H as (H1 & H2 & H3). split; [|split]; [| |exact H3].
    + exact (proj1 (sprint_has_task_iff st sid) H1).
    + exact (proj1 (sprint_all_done_iff st sid) H2).
  - right. intros (H1 & H2 & H3). apply H. split; [|split]; [| |exact H3].
    + by apply sprint_has_task_iff.
    + by apply sprint_all_done_iff.
Defined.

Lemma trigger_done st t s :
  task_status t = "Done" →
  sprints st !! task_sprint t = Some s →
  trigger_auto_completion st t
  = _check_and_complete_sprint st (Some (task_sprint t, s)).
Proof.
  intros Hdone Hs. unfold trigger_auto_completion.
  destruct (decide (task_status t ≠ "Done")); [tauto|]. by rewrite Hs.
Qed.

Lemma sprint_writes_app st st' sid l :
  status_writes st' = status_writes st ++ (LSprint, sid) :: l →
  Forall (λ e, e.1 ≠ LSprint) l →
  sprint_writes st' sid = S (sprint_writes st sid).
Proof.
  intros Hw Hl. unfold sprint_writes. rewrite Hw, filter_app, length_app.
  rewrite filter_cons_True by reflexivity. simpl.
  assert (filter (λ e, e = (LSprint, sid)) l = []) as ->; [|simpl; lia].
  clear Hw. induction Hl as [|e l He _ IH]; [reflexivity|].
  rewrite filter_cons_False; [exact IH|]. intros ->. by apply He.
Qed.

(** ** Running the trigger again *)

Lemma trigger_not_done st t :
  task_status t ≠ "Done" → trigger_auto_completion st t = Returned st.
Proof.
  intros Hnd. unfold trigger_auto_completion.
  destruct (decide (task_status t ≠ "Done")); [reflexivity|tauto].
Qed.

Lemma trigger_no_sprint st t :
  task_status t = "Done" →
  sprints st !! task_sprint t = None →
  trigger_auto_completion st t = Raised st.
Proof.
  intros Hdone Hs. unfold trigger_auto_completion.
  destruct (decide (task_status t ≠ "Done")); [tauto|]. by rewrite Hs.
Qed.

(** Running the trigger on the store a first run left behind. *)
Lemma trigger_twice st t st1 :
  final (trigger_auto_completion st t) = st1 →
  final (trigger_auto_completion st1 t) = st1
  ∧ (trigger_auto_completion st t = Returned st1 →
     trigger_auto_completion st1 t = Returned st1).
Proof.
  destruct (decide (task_status t ≠ "Done")) as [Hnd|Hd].
  { rewrite (trigger_not_done st t Hnd). simpl. intros <-.
    rewrite (trigger_not_done st t Hnd). auto. }
  apply dec_stable in Hd.
  destruct (sprints st !! task_sprint t) as [s|] eqn:Hs.
  2:{ rewrite (trigger_no_sprint st t Hd Hs). simpl. intros <-.
      rewrite (trigger_no_sprint st t Hd Hs).
      split; [reflexivity|discriminate]. }
  rewrite (trigger_done _ _ _ Hd Hs).
  destruct (decide (sprint_ready st (task_sprint t) s)) as [Hready|Hnot].
  - pose proof (sprint_stage_ready st _ s Hs Hready) as Hstage.
    cbv zeta in Hstage. intros Hst1. rewrite Hst1 in Hstage.
    destruct Hstage as (Hsp & _ & _).
    rewrite (trigger_done _ _ _ Hd Hsp).
    rewrite sprint_stage_not_ready; [auto|].
    intros (_ & _ & Hc). apply Hc. reflexivity.
  - rewrite (sprint_stage_not_ready _ _ _ Hnot). simpl. intros <-.
    rewrite (trigger_done _ _ _ Hd Hs).
    rewrite (sprint_stage_not_ready _ _ _ Hnot). auto.
Qed.

(** ** C10 *)







End CascadeFacts.

(** * Properties of the audit recorder *)
Module AuditFacts.

Import Audit.

(** The property C6 asks of a log entry: its [changed_fields] are exactly
    the keys at which the two states differ. *)
Definition lists_differing_keys (entry : ActivityLog)
    (old new : gmap string json) : Prop :=
  ∃ l, al_extra_info entry !! "changed_fields" = Some (JList l)
       ∧ ∀ k, k ∈ l ↔ differs (py_get old k) (py_get new k) = true.

(** Every exception met along the context paths of the instance is an
    [AttributeError], and every value read is a JSON value. *)
Definition benign_chain (instance : pyval) : Prop :=
  Forall (λ kp : string * list string,
            match getattr_path instance kp.2 with
            | Ok v => is_json v
            | Raise e => e = AttributeError
            end)
         (context_assignments (type_name instance)).

Global Instance benign_chain_dec instance : Decision (benign_chain instance).
Proof.
  unfold benign_chain. apply Forall_dec. intros kp.
  destruct (getattr_path instance kp.2); apply _.
Defined.

(** ** The diff *)

Lemma differs_refl v : differs v v = false.
Proof.
  destruct v; unfold differs, py_eqb;
    rewrite bool_decide_eq_true_2 by reflexivity; reflexivity.
Qed.

Lemma compute_changes_dom (o n : gmap string json) k :
  k ∈ dom (compute_changes (Some o) (Some n))
  ↔ differs (py_get o k) (py_get n k) = true.
Proof.
  unfold compute_changes.
  assert (∀ X : gset string,
            k ∈ dom (set_fold
                       (λ key changes,
                          let old_val := py_get o key in
                          let new_val := py_get n key in
                          if differs old_val new_val
                          then <[key := (old_val, new_val)]> changes
                          else changes) (∅ : gmap string (json * json)) X)
            ↔ k ∈ X ∧ differs (py_get o k) (py_get n k) = true) as Hfold.
  { apply (set_fold_ind_L
             (λ (r : gmap string (json * json)) (X : gset string),
                k ∈ dom r
                ↔ k ∈ X ∧ differs (py_get o k) (py_get n k) = true)).
    - rewrite dom_empty_L. split; [intros H|intros [H _]];
        by apply not_elem_of_empty in H.
    - intros x X r Hx IH. cbv zeta.
      destruct (differs (py_get o x) (py_get n x)) eqn:Hd.
      + rewrite dom_insert_L, elem_of_union, elem_of_singleton, IH.
        rewrite elem_of_union, elem_of_singleton.
        split; [intros [->|[? ?]]; auto|tauto].
      + rewrite IH, elem_of_union, elem_of_singleton.
        split; [tauto|]. intros [[->|?] ?]; [congruence|tauto]. }
  rewrite Hfold. split; [tauto|]. intros Hd. split; [|exact Hd].
  rewrite elem_of_union, !elem_of_dom. unfold py_get in Hd.
  destruct (o !! k); [left; eauto|].
  destruct (n !! k); [right; eauto|]. discriminate.
Qed.

Lemma changed_keys_spec (o n : gmap string json) :
  NoDup (changed_keys (compute_changes (Some o) (Some n)))
  ∧ ∀ k, k ∈ changed_keys (compute_changes (Some o) (Some n))
         ↔ differs (py_get o k) (py_get n k) = true.
Proof.
  unfold changed_keys. split; [apply NoDup_elements|].
  intros k. rewrite elem_of_elements. apply compute_changes_dom.
Qed.

Lemma changed_keys_empty : changed_keys ∅ = [].
Proof. unfold changed_keys. by rewrite dom_empty_L, elements_empty. Qed.

(** ** Persisting an entry *)

Lemma merge_extra_info_json context extra_info :
  map_Forall (λ _ v, is_json v) context →
  map_Forall (λ _ v, is_json v) (merge_extra_info context extra_info).
Proof.
  intros Hctx. unfold merge_extra_info. apply map_Forall_union_2; [|exact Hctx].
  intros k v Hk. apply lookup_fmap_Some in Hk as (j & <- & _). exact I.
Qed.

Lemma insert_activity_log_ok n row :
  positive_integer_field n → insert_activity_log (JInt n) row = Ok (row n).
Proof.
  intros [Hlo Hhi]. unfold insert_activity_log.
  destruct (decide (n < - 2 ^ 63 ∨ 2 ^ 63 ≤ n)%Z); [lia|].
  destruct (decide (n < 0)%Z); [lia|reflexivity].
Qed.

Lemma create_ok user action instance reason old_value new_value extra n :
  getattr instance "id" = Ok (PJson (JInt n)) →
  positive_integer_field n →
  map_Forall (λ _ v, is_json v) extra →
  create user action instance reason old_value new_value extra
  = Ok (mkActivityLog user action (type_name instance) n reason
                      old_value new_value (omap to_json extra)).
Proof.
  intros Hid Hn Hextra. unfold create, encode_extra_info. rewrite Hid.
  destruct (decide (map_Forall (λ _ v, is_json v) extra)); [|tauto].
  by rewrite insert_activity_log_ok.
Qed.

(** ** Context enrichment *)

Lemma run_assignments_benign instance assignments context :
  Forall (λ kp : string * list string,
            match getattr_path instance kp.2 with
            | Ok v => is_json v
            | Raise e => e = AttributeError
            end) assignments →
  map_Forall (λ _ v, is_json v) context →
  ∃ context' caught,
    run_assignments instance assignments context = (context', caught)
    ∧ (caught = None ∨ caught = Some AttributeError)
    ∧ map_Forall (λ _ v, is_json v) context'.
Proof.
  intros Hall. revert context.
  induction Hall as [|[key path] rest Hhead _ IH]; intros context Hctx; simpl.
  - exists context, None. auto.
  - simpl in Hhead. destruct (getattr_path instance path) as [v|e].
    + apply IH. by apply map_Forall_insert_2.
    + subst e. exists context, (Some AttributeError). auto.
Qed.

Lemma get_entity_context_benign instance :
  benign_chain instance →
  ∃ context, get_entity_context instance = Ok context
             ∧ map_Forall (λ _ v, is_json v) context.
Proof.
  intros Hb. unfold get_entity_context.
  destruct (run_assignments_benign instance _ ∅ Hb)
    as (context & caught & -> & Hcaught & Hjson).
  { apply map_Forall_empty. }
  exists context. destruct Hcaught as [->| ->]; auto.
Qed.


Lemma saved_instance_serializes instance n fields :
  getattr instance "id" = Ok (PJson (JInt n)) →
  ∃ new, serialize_model_state instance fields = Some new.
Proof.
  intros Hid. destruct instance as [j|iso|name pk str attrs];
    [discriminate..|]. simpl. eauto.
Qed.

Lemma lookup_changed_fields (m : gmap string pyval) l :
  omap to_json (<["changed_fields" := PJson (JList l)]> m) !! "changed_fields"
  = Some (JList l).
Proof. by rewrite lookup_omap, lookup_insert_eq. Qed.

(** The entry [log_update] persists when nothing fails. *)
Lemma log_update_entry user instance old_state reason extra_info fields n
    context :
  getattr instance "id" = Ok (PJson (JInt n)) →
  positive_integer_field n →
  get_entity_context instance = Ok context →
  map_Forall (λ _ v, is_json v) context →
  ∃ l extra,
    log_update user instance old_state reason extra_info fields
    = Ok (mkActivityLog user "UPDATED" (type_name instance) n reason old_state
            (serialize_model_state instance fields) extra)
    ∧ extra !! "changed_fields" = Some (JList l)
    ∧ l = changed_keys
            match old_state with
            | Some o =>
                if decide (o = ∅) then ∅
                else compute_changes old_state
                       (serialize_model_state instance fields)
            | None => ∅
            end.
Proof.
  intros Hid Hn Hctx Hjson. unfold log_update. rewrite Hctx.
  eexists _, _. split; [|split; [|reflexivity]].
  - apply create_ok; [exact Hid|exact Hn|].
    apply map_Forall_insert_2; [exact I|]. by apply merge_extra_info_json.
  - apply lookup_changed_fields.
Qed.

(** What a call of [create] that returns has stored. *)
Lemma create_inv user action instance reason old_value new_value extra entry :
  create user action instance reason old_value new_value extra = Ok entry →
  ∃ n, getattr instance "id" = Ok (PJson (JInt n))
       ∧ positive_integer_field n
       ∧ entry = mkActivityLog user action (type_name instance) n reason
                   old_value new_value (omap to_json extra).
Proof.
  unfold create, encode_extra_info, insert_activity_log.
  destruct (getattr instance "id") as [[j| |]|]; try discriminate.
  destruct (decide (map_Forall (λ _ v, is_json v) extra)); [|discriminate].
  destruct j as [| |n| | |]; try discriminate.
  destruct (decide (n < - 2 ^ 63 ∨ 2 ^ 63 ≤ n)%Z); [discriminate|].
  destruct (decide (n < 0)%Z); [discriminate|].
  intros H. inversion H. exists n. repeat split; lia.
Qed.


(** The entry of a call of [log_update] that returns. *)
Lemma log_update_inv user instance old_state reason extra_info fields entry :
  log_update user instance old_state reason extra_info fields = Ok entry →
  ∃ new,
    serialize_model_state instance fields = Some new
    ∧ al_old_value entry = old_state
    ∧ al_new_value entry = Some new
    ∧ al_extra_info entry !! "changed_fields"
      = Some (JList (changed_keys
                       match old_state with
                       | Some o =>
                           if decide (o = ∅) then ∅
                           else compute_changes old_state (Some new)
                       | None => ∅
                       end)).
Proof.
  unfold log_update.
  destruct (get_entity_context instance) as [context|]; [|discriminate].
  intros Hcreate. apply create_inv in Hcreate as (n & Hid & _ & ->).
  destruct (saved_instance_serializes instance n fields Hid) as [new Hnew].
  exists new. rewrite Hnew. simpl.
  split; [reflexivity|]. split; [reflexivity|]. split; [reflexivity|].
  apply lookup_changed_fields.
Qed.

Lemma singleton_list (l : list string) k0 :
  NoDup l → (∀ k, k ∈ l ↔ k = k0) → l = [k0].
Proof.
  intros Hnd Hk. apply Permutation_singleton_r.
  apply NoDup_Permutation; [exact Hnd|apply NoDup_singleton|].
  intros k. rewrite Hk, list_elem_of_singleton. reflexivity.
Qed.

(** ** C6 *)

(** C6, as stated, fails on the code.  [log_update] treats an empty
    [old_state] as an absent one: against the fresh state [{status: Done}]
    the key [status] differs, yet [changed_fields] is empty. *)
Lemma changed_fields_empty_old_state_counterexample :
  ∃ entry new,
    log_update None Fixture.orphan_task (Some ∅) None None (Some ["status"])
    = Ok entry
    ∧ serialize_model_state Fixture.orphan_task (Some ["status"]) = Some new
    ∧ ¬ lists_differing_keys entry ∅ new.
Proof.
  eexists _, _. split; [vm_compute; reflexivity|].
  split; [vm_compute; reflexivity|].
  intros (l & Hl & Hk). vm_compute in Hl. inversion Hl; subst l.
  specialize (Hk "status"). vm_compute in Hk. destruct Hk as [_ Hk].
  specialize (Hk eq_refl). inversion Hk.
Qed.

(** C6, amended.  [log_update] returns its entry for a saved instance whose
    key the [object_id] column accepts and whose context enrichment does not
    fail.  Whenever it returns, with whatever instance and arguments, the
    entry holds [old_state] and the freshly serialized state, and its
    [changed_fields] is a list without repetitions such that: for a
    non-empty [old_state] it lists exactly the keys at which [old_state] and
    the new state differ, where an absent key reads as null and two
    foreign-key dictionaries differ when their ids do, so a single differing
    key gives the one-element list; for an [old_state] equal to the new
    state it is empty; and for an absent or empty [old_state] it is empty
    whatever the new state holds. *)
Theorem changed_fields_amended (user : option Z) (instance : pyval)
    (old_state : option (gmap string json)) (reason : option string)
    (extra_info : option (gmap string json)) (fields : option (list string)) :
  (∀ n, getattr instance "id" = Ok (PJson (JInt n)) →
        positive_integer_field n →
        benign_chain instance →
        ∃ entry,
          log_update user instance old_state reason extra_info fields
          = Ok entry)
  ∧ (∀ entry,
       log_update user instance old_state reason extra_info fields = Ok entry →
       ∃ new l,
         serialize_model_state instance fields = Some new
         ∧ al_old_value entry = old_state
         ∧ al_new_value entry = Some new
         ∧ al_extra_info entry !! "changed_fields" = Some (JList l)
         ∧ NoDup l
         ∧ (∀ old, old_state = Some old → old ≠ ∅ →
              lists_differing_keys entry old new
              ∧ (∀ k, k ∈ l ↔ differs (py_get old k) (py_get new k) = true)
              ∧ (∀ k0,
                   (∀ k, differs (py_get old k) (py_get new k) = true
                         ↔ k = k0) →
                   l = [k0]))
         ∧ (old_state = Some new → l = [])
         ∧ (old_state = None ∨ old_state = Some ∅ → l = [])).
Proof.
  split.
  { intros n Hid Hn Hbenign.
    destruct (get_entity_context_benign instance Hbenign)
      as (ctx & Hctx & Hjson).
    destruct (log_update_entry user instance old_state reason extra_info
                fields n ctx Hid Hn Hctx Hjson) as (l & extra & Hlog & _).
    eauto. }
  intros entry Hlog.
  destruct (log_update_inv _ _ _ _ _ _ _ Hlog)
    as (new & Hnew & Hold & Hnewv & Hcf).
  exists new. eexists. split; [exact Hnew|]. split; [exact Hold|].
  split; [exact Hnewv|]. split; [exact Hcf|].
  destruct old_state as [old|].
  2:{ rewrite changed_keys_empty. split; [constructor|].
      split; [discriminate|]. split; [discriminate|]. reflexivity. }
  destruct (decide (old = ∅)) as [Hempty|Hne].
  { rewrite changed_keys_empty. split; [constructor|].
    split; [intros old' H; inversion H; subst old'; tauto|].
    split; reflexivity. }
  destruct (changed_keys_spec old new) as [Hnd Hmem].
  split; [exact Hnd|]. split; [|split].
  - intros old' H _. inversion H; subst old'. split; [|split].
    + eexists. split; [exact Hcf|exact Hmem].
    + exact Hmem.
    + intros k0 Hk0. apply singleton_list; [exact Hnd|].
      intros k. rewrite Hmem. apply Hk0.
  - intros H. inversion H; subst old.
    destruct (changed_keys (compute_changes (Some new) (Some new)))
      as [|k l'] eqn:El; [reflexivity|]. exfalso.
    assert (k ∈ k :: l') as Hin by apply list_elem_of_here.
    apply Hmem in Hin. rewrite differs_refl in Hin. discriminate.
  - intros [H|H]; [discriminate|]. inversion H; subst old. tauto.
Qed.

Lemma changed_fields_amended_witness :
  (∃ entry,
     log_update None Fixture.orphan_task (Some Fixture.todo_state) None None
                (Some ["status"]) = Ok entry
     ∧ al_extra_info entry !! "changed_fields" = Some (JList ["status"]))
  ∧ (∃ entry,
       log_update None Fixture.orphan_task None None None (Some ["status"])
       = Ok entry
       ∧ al_extra_info entry !! "changed_fields" = Some (JList [])).
Proof.
  split.
  - destruct (changed_fields_amended None Fixture.orphan_task
                (Some Fixture.todo_state) None None (Some ["status"]))
      as [Hret Hentry].
    destruct (Hret 400%Z eq_refl) as [entry Hlog].
    { apply (bool_decide_unpack _). vm_compute. exact I. }
    { apply (bool_decide_unpack _). vm_compute. exact I. }
    destruct (Hentry entry Hlog)
      as (new & l & Hnew & _ & _ & Hcf & _ & Hdiff & _).
    exists entry. split; [exact Hlog|]. rewrite Hcf. do 2 f_equal.
    destruct (Hdiff Fixture.todo_state eq_refl) as (_ & _ & Hone).
    { intros Hempty. apply (f_equal (λ m : gmap string json, m !! "status"))
        in Hempty. vm_compute in Hempty. discriminate. }
    apply Hone.
    assert (serialize_model_state Fixture.orphan_task (Some ["status"])
            = Some (<["status" := JStr "Done"]> ∅)) as Hser
      by (vm_compute; reflexivity).
    rewrite Hser in Hnew. inversion Hnew; subst new. clear.
    intros k. destruct (decide (k = "status")) as [->|Hne].
    + split; [reflexivity|]. intros _. vm_compute. reflexivity.
    + split; [|tauto]. unfold py_get, Fixture.todo_state.
      rewrite lookup_singleton_ne by done.
      rewrite lookup_insert_ne by done. rewrite lookup_empty. simpl.
      discriminate.
  - destruct (changed_fields_amended None Fixture.orphan_task None None None
                (Some ["status"])) as [Hret Hentry].
    destruct (Hret 400%Z eq_refl) as [entry Hlog].
    { apply (bool_decide_unpack _). vm_compute. exact I. }
    { apply (bool_decide_unpack _). vm_compute. exact I. }
    destruct (Hentry entry Hlog)
      as (new & l & _ & _ & _ & Hcf & _ & _ & _ & Hnone).
    exists entry. split; [exact Hlog|]. rewrite Hcf, Hnone; [reflexivity|].
    by left.
Defined.

(** ** C9 *)









End AuditFacts.

(** * Further example data *)
Module Fixture2.

Local Open Scope Z_scope.

(** Frank is a member of the private project without being a member of its
    workspace; grace administers the workspace. *)
Definition frank : User := mkUser 6 None.
Definition grace : User := mkUser 7 None.

Definition demo2 : Store :=
  mkStore
    (workspaces Fixture.demo)
    (<[14 := mkWorkspaceMember 1 7 true]> (workspace_members Fixture.demo))
    (projects Fixture.demo)
    (mkProjectMember 6 100 :: project_members Fixture.demo)
    (mkAccess 11 100 true false :: access_grants Fixture.demo)
    (role_permissions Fixture.demo)
    (milestones Fixture.demo)
    (sprints Fixture.demo)
    (tasks Fixture.demo)
    []
    [].

End Fixture2.

(** * Further properties of the access resolver *)
Module AccessExtras.

Import Access AccessFacts.

Lemma no_membership_no_rows st u :
  map_Forall (λ _ m, wm_user m ≠ user_id u) (workspace_members st) →
  (∀ wid, is_workspace_member st u wid = false)
  ∧ (∀ wid, is_admin_member st u wid = false)
  ∧ (∀ pid, has_view_grant st u pid = false)
  ∧ (∀ pid, has_edit_grant st u pid = false).
Proof.
  intros Hnone.
  assert (∀ k m, workspace_members st !! k = Some m → wm_user m ≠ user_id u)
    as Hrow by exact Hnone.
  repeat split; intros x; apply not_true_is_false; intros H.
  - apply is_workspace_member_true in H as (k & m & Hm & _ & Hu).
    by apply (Hrow k m Hm).
  - apply is_admin_member_true in H as (k & m & Hm & _ & Hu & _).
    by apply (Hrow k m Hm).
  - apply has_view_grant_true in H as (g & m & _ & Hm & Hu & _).
    by apply (Hrow _ m Hm).
  - apply has_edit_grant_true in H as (g & m & _ & Hm & Hu & _).
    by apply (Hrow _ m Hm).
Qed.

(** X1. A user who has no member row in any workspace, is not a member of
    the project and does not own its workspace can neither view nor edit the
    project, whatever its visibility, the access rows and the permissions of
    the user's role. *)
Theorem outsider_is_denied (st : Store) (u : User) (pid : Z) (p : Project)
    (w : Workspace) :
  workspaces st !! proj_workspace p = Some w →
  is_project_member st u pid = false →
  is_workspace_owner u w = false →
  map_Forall (λ _ m, wm_user m ≠ user_id u) (workspace_members st) →
  can_user_view_project st u pid p = Some false
  ∧ can_user_edit_project st u pid p = Some false.
Proof.
  intros Hw Hpm Hown Hnone.
  destruct (no_membership_no_rows st u Hnone) as (Hm & Ha & Hv & He).
  unfold can_user_view_project, can_user_edit_project.
  rewrite Hpm, Hw. simpl. rewrite Hown, Ha, Hv, He, Hm.
  split.
  - by destruct (bool_decide (proj_visibility p = "public")).
  - by destruct (has_role_permission st u "project.edit").
Qed.

Lemma outsider_is_denied_witness :
  can_user_view_project Fixture.demo Fixture.dave 101 Fixture.beacon
    = Some false
  ∧ can_user_edit_project Fixture.demo Fixture.dave 101 Fixture.beacon
    = Some false.
Proof.
  apply (outsider_is_denied Fixture.demo Fixture.dave 101 Fixture.beacon
           (mkWorkspace "Acme" 1)).
  - reflexivity.
  - vm_compute. reflexivity.
  - vm_compute. reflexivity.
  - apply (bool_decide_unpack _). vm_compute. exact I.
Defined.

(** X2. Whoever [is_workspace_admin] accepts for a workspace (its owner, or
    a member with the admin flag) can view and edit every project of that
    workspace, and finds every such project of the table in
    [get_accessible_projects]. *)
Theorem workspace_admin_has_full_access (st : Store) (u : User) (pid : Z)
    (p : Project) (w : Workspace) :
  workspaces st !! proj_workspace p = Some w →
  is_workspace_admin st u (proj_workspace p) w = true →
  can_user_view_project st u pid p = Some true
  ∧ can_user_edit_project st u pid p = Some true
  ∧ (projects st !! pid = Some p →
     get_accessible_projects st u !! pid = Some p).
Proof.
  intros Hw Hadmin. unfold is_workspace_admin in Hadmin.
  assert (rule_owner u w ∨ rule_admin st u (proj_workspace p)) as Hrule.
  { destruct (is_workspace_owner u w) eqn:Ho.
    - left. by apply is_workspace_owner_true.
    - right. by apply is_admin_member_true. }
  split; [|split].
  - apply (view_true_iff _ _ _ _ _ Hw). tauto.
  - apply (edit_true_iff _ _ _ _ _ Hw). tauto.
  - intros Hp. unfold get_accessible_projects.
    apply map_lookup_filter_Some. split; [exact Hp|]. simpl.
    right. left. unfold all_admin_workspace_ids.
    rewrite elem_of_union, elem_of_admin_workspaces, elem_of_owned_workspaces.
    destruct Hrule; [right; eauto|left; done].
Qed.

Lemma workspace_admin_has_full_access_witness :
  can_user_view_project Fixture2.demo2 Fixture2.grace 100 Fixture.apollo
    = Some true
  ∧ can_user_edit_project Fixture2.demo2 Fixture2.grace 100 Fixture.apollo
    = Some true
  ∧ (projects Fixture2.demo2 !! 100%Z = Some Fixture.apollo →
     get_accessible_projects Fixture2.demo2 Fixture2.grace !! 100%Z
     = Some Fixture.apollo).
Proof.
  apply (workspace_admin_has_full_access Fixture2.demo2 Fixture2.grace 100
           Fixture.apollo (mkWorkspace "Acme" 1)).
  - reflexivity.
  - vm_compute. reflexivity.
Defined.

(** X3. The assignee of a task can always view it, even when its sprint,
    milestone or project cannot be loaded, and so can its reporter; when the
    chain and the workspace load, the assignee is always allowed to edit,
    with all fields or with the four self-service fields. *)
Theorem assignee_can_view_and_edit (st : Store) (u : User) (t : Task) :
  (is_assignee u t = true ∨ is_reporter u t = true →
   can_user_view_task st u t = Some true)
  ∧ (is_assignee u t = true →
     ∀ pid p w,
       task_project st t = Some (pid, p) →
       workspaces st !! proj_workspace p = Some w →
       can_user_edit_task st u t = Some (mkEditResult true AllFields)
       ∨ can_user_edit_task st u t
         = Some (mkEditResult true
                   (FieldList ["status"; "description"; "start_date";
                               "due_date"]))).
Proof.
  split.
  - intros H. unfold can_user_view_task.
    destruct H as [-> | ->]; [reflexivity|].
    by rewrite orb_true_r.
  - intros Ha pid p w Hproj Hw. unfold can_user_edit_task.
    rewrite Hproj. simpl.
    assert (∃ e, can_user_edit_project st u pid p = Some e) as [e He].
    { destruct (can_user_edit_project st u pid p) as [e|] eqn:E; [eauto|].
      exfalso. unfold can_user_edit_project in E. rewrite Hw in E.
      simpl in E.
      repeat match type of E with
             | (if ?b then _ else _) = _ => destruct b
             end; discriminate. }
    rewrite He. simpl. rewrite Ha. destruct e; auto.
Qed.

Lemma assignee_can_view_and_edit_witness :
  can_user_view_task Fixture.demo Fixture.bob Fixture.task1 = Some true
  ∧ (can_user_edit_task Fixture.demo Fixture.bob Fixture.task1
       = Some (mkEditResult true AllFields)
     ∨ can_user_edit_task Fixture.demo Fixture.bob Fixture.task1
       = Some (mkEditResult true
                 (FieldList ["status"; "description"; "start_date";
                             "due_date"]))).
Proof.
  pose proof (assignee_can_view_and_edit Fixture.demo Fixture.bob
                Fixture.task1) as [Hview Hedit].
  split.
  - apply Hview. left. vm_compute. reflexivity.
  - apply (Hedit eq_refl 100%Z Fixture.apollo (mkWorkspace "Acme" 1));
      reflexivity.
Defined.

(** X4. [get_user_workspaces] holds exactly the workspaces the user owns or
    has a member row in; a project the user can view whose workspace is not
    among them is visible through project membership or through a view
    grant, never through a workspace-level rule. *)
Theorem user_workspaces_and_visibility (st : Store) (u : User) :
  (∀ wid w,
     get_user_workspaces st u !! wid = Some w
     ↔ workspaces st !! wid = Some w
       ∧ (rule_owner u w ∨ rule_workspace_member st u wid))
  ∧ (∀ pid p w,
       workspaces st !! proj_workspace p = Some w →
       can_user_view_project st u pid p = Some true →
       get_user_workspaces st u !! proj_workspace p = None →
       rule_member st u pid ∨ rule_view_grant st u pid).
Proof.
  assert (∀ wid w,
            get_user_workspaces st u !! wid = Some w
            ↔ workspaces st !! wid = Some w
              ∧ (rule_owner u w ∨ rule_workspace_member st u wid)) as Hchar.
  { intros wid w. unfold get_user_workspaces.
    rewrite map_lookup_filter_Some. simpl.
    rewrite is_workspace_member_true. reflexivity. }
  split; [exact Hchar|].
  intros pid p w Hw Hview Hout.
  apply (view_true_iff _ _ _ _ _ Hw) in Hview.
  assert (¬ (rule_owner u w ∨ rule_workspace_member st u (proj_workspace p)))
    as Hnot.
  { intros H. assert (get_user_workspaces st u !! proj_workspace p = Some w)
      as Hin by (apply Hchar; auto). congruence. }
  destruct Hview as [H|[H|[H|[H|[_ H]]]]]; auto; exfalso; apply Hnot; auto.
  right. destruct H as (k & m & Hm & Hwid & Hu & _). exists k, m. auto.
Qed.

Lemma user_workspaces_and_visibility_witness :
  rule_member Fixture2.demo2 Fixture2.frank 100
  ∨ rule_view_grant Fixture2.demo2 Fixture2.frank 100.
Proof.
  pose proof (user_workspaces_and_visibility Fixture2.demo2 Fixture2.frank)
    as [_ H].
  apply (H 100%Z Fixture.apollo (mkWorkspace "Acme" 1)).
  - reflexivity.
  - vm_compute. reflexivity.
  - vm_compute. reflexivity.
Defined.

(** X5. The resolver has no deny rules: with the Workspace table fixed,
    adding member rows, project-member rows, access rows or role permissions
    never takes away a view or edit permission that was granted. *)
Theorem access_is_monotone (st st' : Store) (u : User) (pid : Z)
    (p : Project) :
  workspaces st' = workspaces st →
  workspace_members st ⊆ workspace_members st' →
  project_members st ⊆ project_members st' →
  access_grants st ⊆ access_grants st' →
  role_permissions st ⊆ role_permissions st' →
  (can_user_view_project st u pid p = Some true →
   can_user_view_project st' u pid p = Some true)
  ∧ (can_user_edit_project st u pid p = Some true →
     can_user_edit_project st' u pid p = Some true).
Proof.
  intros Hws Hwm Hpm Hag Hrp.
  assert (∀ k m, workspace_members st !! k = Some m →
                 workspace_members st' !! k = Some m) as Hrow.
  { intros k m Hm. by eapply lookup_weaken. }
  assert (rule_member st u pid → rule_member st' u pid) as Hmem.
  { intros (r & Hin & H). exists r. auto. }
  assert (∀ wid, rule_admin st u wid → rule_admin st' u wid) as Hadm.
  { intros wid (k & m & Hm & H). exists k, m. auto. }
  assert (∀ wid, rule_workspace_member st u wid →
                 rule_workspace_member st' u wid) as Hwsm.
  { intros wid (k & m & Hm & H). exists k, m. auto. }
  assert (rule_view_grant st u pid → rule_view_grant st' u pid) as Hvg.
  { intros (g & m & Hin & Hm & H). exists g, m. auto. }
  assert (rule_edit_grant st u pid → rule_edit_grant st' u pid) as Heg.
  { intros (g & m & Hin & Hm & H). exists g, m. auto. }
  assert (∀ perm, rule_role st u perm → rule_role st' u perm) as Hrole.
  { intros perm (r & rp & Hr & Hin & H). exists r, rp. auto. }
  split; intros H.
  - destruct (is_project_member st u pid) eqn:Hpmem.
    + apply is_project_member_true, Hmem, is_project_member_true in Hpmem.
      unfold can_user_view_project. by rewrite Hpmem.
    + unfold can_user_view_project in H. rewrite Hpmem in H.
      destruct (workspaces st !! proj_workspace p) as [w|] eqn:Hw;
        [|discriminate].
      assert (can_user_view_project st u pid p = Some true) as H'.
      { unfold can_user_view_project. by rewrite Hpmem, Hw. }
      apply (view_true_iff _ _ _ _ _ Hw) in H'.
      rewrite <- Hws in Hw. apply (view_true_iff _ _ _ _ _ Hw).
      unfold rule_public in *.
      destruct H' as [?|[?|[?|[?|[? ?]]]]]; auto 10.
  - destruct (is_project_member st u pid) eqn:Hpmem.
    + apply is_project_member_true, Hmem, is_project_member_true in Hpmem.
      unfold can_user_edit_project. by rewrite Hpmem.
    + unfold can_user_edit_project in H. rewrite Hpmem in H.
      destruct (workspaces st !! proj_workspace p) as [w|] eqn:Hw;
        [|discriminate].
      assert (can_user_edit_project st u pid p = Some true) as H'.
      { unfold can_user_edit_project. by rewrite Hpmem, Hw. }
      apply (edit_true_iff _ _ _ _ _ Hw) in H'.
      rewrite <- Hws in Hw. apply (edit_true_iff _ _ _ _ _ Hw).
      destruct H' as [?|[?|[?|[?|[? ?]]]]]; auto 10.
Qed.

Lemma access_is_monotone_witness :
  (can_user_view_project Fixture.demo Fixture.erin 100 Fixture.apollo
     = Some true →
   can_user_view_project Fixture2.demo2 Fixture.erin 100 Fixture.apollo
     = Some true)
  ∧ (can_user_edit_project Fixture.demo Fixture.erin 100 Fixture.apollo
       = Some true →
     can_user_edit_project Fixture2.demo2 Fixture.erin 100 Fixture.apollo
       = Some true).
Proof.
  apply (access_is_monotone Fixture.demo Fixture2.demo2 Fixture.erin 100
           Fixture.apollo).
  - reflexivity.
  - apply insert_subseteq. vm_compute. reflexivity.
  - apply list_subseteq_cons. reflexivity.
  - apply list_subseteq_cons. reflexivity.
  - reflexivity.
Defined.

End AccessExtras.

(** * Further properties of the completion cascade *)
Module CascadeExtras.

Import Cascade CascadeFacts.

Definition completed_milestone (m : Milestone) : Milestone :=
  mkMilestone (ms_project m) (ms_name m) "Completed".

Definition completed_project (p : Project) : Project :=
  mkProject (proj_name p) "Completed" (proj_workspace p) (proj_visibility p).

(** Every row of [m'] is the row of [m] with the same key, as it was or with
    its status set to Completed; no key comes or goes. *)
Definition same_or_completed {A} (completed : A → A) (m m' : gmap Z A)
    : Prop :=
  ∀ k, m' !! k = m !! k
       ∨ ∃ r, m !! k = Some r ∧ m' !! k = Some (completed r).

(** A notification the cascade creates: no actor, type [general]. *)
Definition system_notification (n : Notification) : Prop :=
  ntf_actor n = None ∧ ntf_type n = "general".

(** What a run of the cascade may do to the store. *)
Record progress (st st' : Store) : Prop := mkProgress {
  pr_workspaces : workspaces st' = workspaces st;
  pr_workspace_members : workspace_members st' = workspace_members st;
  pr_project_members : project_members st' = project_members st;
  pr_access_grants : access_grants st' = access_grants st;
  pr_role_permissions : role_permissions st' = role_permissions st;
  pr_tasks : tasks st' = tasks st;
  pr_sprints : same_or_completed completed_sprint (sprints st) (sprints st');
  pr_milestones :
    same_or_completed completed_milestone (milestones st) (milestones st');
  pr_projects :
    same_or_completed completed_project (projects st) (projects st');
  pr_notifications :
    ∃ l, notifications st' = notifications st ++ l
         ∧ Forall system_notification l;
  pr_status_writes : ∃ l, status_writes st' = status_writes st ++ l
}.

Lemma same_or_completed_refl {A} (c : A → A) (m : gmap Z A) :
  same_or_completed c m m.
Proof. intros k. by left. Qed.

Lemma same_or_completed_trans {A} (c : A → A) (m1 m2 m3 : gmap Z A) :
  (∀ r, c (c r) = c r) →
  same_or_completed c m1 m2 → same_or_completed c m2 m3 →
  same_or_completed c m1 m3.
Proof.
  intros Hidem H12 H23 k.
  destruct (H12 k) as [E12|(r & Hr & E12)],
           (H23 k) as [E23|(r' & Hr' & E23)].
  - left. congruence.
  - right. exists r'. split; congruence.
  - right. exists r. split; congruence.
  - right. exists r. split; [exact Hr|].
    rewrite E23. rewrite E12 in Hr'. inversion Hr'; subst r'.
    by rewrite Hidem.
Qed.

Lemma same_or_completed_alter {A} (c : A → A) (m : gmap Z A) key :
  same_or_completed c m (alter c key m).
Proof.
  intros k. destruct (decide (key = k)) as [->|Hne].
  - rewrite lookup_alter_eq. destruct (m !! k) as [r|]; simpl.
    + right. eauto.
    + by left.
  - left. by rewrite lookup_alter_ne.
Qed.

Lemma progress_refl st : progress st st.
Proof.
  split; try reflexivity; try apply same_or_completed_refl.
  - exists []. split; [by rewrite app_nil_r|constructor].
  - exists []. by rewrite app_nil_r.
Qed.

Lemma progress_trans st1 st2 st3 :
  progress st1 st2 → progress st2 st3 → progress st1 st3.
Proof.
  intros [] []. split; try congruence.
  - eapply same_or_completed_trans; [|eassumption..]. reflexivity.
  - eapply same_or_completed_trans; [|eassumption..]. reflexivity.
  - eapply same_or_completed_trans; [|eassumption..]. reflexivity.
  - destruct pr_notifications0 as (l1 & E1 & F1),
             pr_notifications1 as (l2 & E2 & F2).
    exists (l1 ++ l2). rewrite E2, E1, app_assoc.
    split; [reflexivity|]. by apply Forall_app.
  - destruct pr_status_writes0 as (l1 & E1), pr_status_writes1 as (l2 & E2).
    exists (l1 ++ l2). by rewrite E2, E1, app_assoc.
Qed.

Lemma progress_save_sprint st sid :
  progress st (save_sprint_status st sid "Completed").
Proof.
  split; try reflexivity; try apply same_or_completed_refl.
  - apply (same_or_completed_alter completed_sprint).
  - exists []. split; [by rewrite app_nil_r|constructor].
  - by exists [(LSprint, sid)].
Qed.

Lemma progress_save_milestone st mid :
  progress st (save_milestone_status st mid "Completed").
Proof.
  split; try reflexivity; try apply same_or_completed_refl.
  - apply (same_or_completed_alter completed_milestone).
  - exists []. split; [by rewrite app_nil_r|constructor].
  - by exists [(LMilestone, mid)].
Qed.

Lemma progress_save_project st pid :
  progress st (save_project_status st pid "Completed").
Proof.
  split; try reflexivity; try apply same_or_completed_refl.
  - apply (same_or_completed_alter completed_project).
  - exists []. split; [by rewrite app_nil_r|constructor].
  - by exists [(LProject, pid)].
Qed.

Lemma progress_notification st obj message :
  progress st (_create_completion_notification st obj message).
Proof.
  unfold _create_completion_notification, notify_project_members.
  destruct (notified_project st obj) as [pid|]; [|apply progress_refl].
  destruct (decide (positive_integer_field (obj_id obj)));
    [|apply progress_refl].
  split; try reflexivity; try apply same_or_completed_refl.
  - eexists. split; [reflexivity|].
    apply Forall_fmap, Forall_true. intros uid. by split.
  - exists []. by rewrite app_nil_r.
Qed.

Lemma progress_workspace_notification st wid w total :
  progress st (_create_workspace_completion_notification st wid w total).
Proof.
  unfold _create_workspace_completion_notification.
  destruct (decide (positive_integer_field wid)); [|apply progress_refl].
  split; try reflexivity; try apply same_or_completed_refl.
  - eexists. split; [reflexivity|].
    apply Forall_fmap, Forall_true. intros uid. by split.
  - exists []. by rewrite app_nil_r.
Qed.

(** Case analysis on the outermost test of a stage. *)
Ltac progress_test :=
  match goal with
  | |- progress _ (final (if ?d then _ else _)) => destruct d
  end.

Lemma progress_workspace st workspace :
  progress st (final (_check_and_complete_workspace st workspace)).
Proof.
  unfold _check_and_complete_workspace.
  destruct workspace as [[wid w]|]; [|apply progress_refl].
  cbv zeta. progress_test; [apply progress_refl|].
  progress_test; [|apply progress_refl].
  apply progress_workspace_notification.
Qed.

Lemma progress_project st project :
  progress st (final (_check_and_complete_project st project)).
Proof.
  unfold _check_and_complete_project.
  destruct project as [[pid p]|]; [|apply progress_refl].
  cbv zeta. progress_test; [apply progress_refl|].
  progress_test; [|apply progress_refl].
  progress_test; [|apply progress_refl].
  set (st1 := save_project_status st pid "Completed").
  set (st2 := _create_completion_notification st1 _ _).
  assert (progress st st2) as H12.
  { eapply progress_trans;
      [apply progress_save_project|apply progress_notification]. }
  destruct (workspaces st2 !! proj_workspace p) as [w|]; [|exact H12].
  eapply progress_trans; [exact H12|apply progress_workspace].
Qed.

Lemma progress_milestone st milestone :
  progress st (final (_check_and_complete_milestone st milestone)).
Proof.
  unfold _check_and_complete_milestone.
  destruct milestone as [[mid m]|]; [|apply progress_refl].
  cbv zeta. progress_test; [apply progress_refl|].
  progress_test; [|apply progress_refl].
  progress_test; [|apply progress_refl].
  set (st1 := save_milestone_status st mid "Completed").
  set (st2 := _create_completion_notification st1 _ _).
  assert (progress st st2) as H12.
  { eapply progress_trans;
      [apply progress_save_milestone|apply progress_notification]. }
  destruct (projects st2 !! ms_project m) as [p|]; [|exact H12].
  eapply progress_trans; [exact H12|apply progress_project].
Qed.

Lemma progress_sprint st sprint :
  progress st (final (_check_and_complete_sprint st sprint)).
Proof.
  unfold _check_and_complete_sprint.
  destruct sprint as [[sid s]|]; [|apply progress_refl].
  cbv zeta. progress_test; [apply progress_refl|].
  progress_test; [|apply progress_refl].
  progress_test; [|apply progress_refl].
  set (st1 := save_sprint_status st sid "Completed").
  set (st2 := _create_completion_notification st1 _ _).
  assert (progress st st2) as H12.
  { eapply progress_trans;
      [apply progress_save_sprint|apply progress_notification]. }
  destruct (milestones st2 !! sp_milestone s) as [m|]; [|exact H12].
  eapply progress_trans; [exact H12|apply progress_milestone].
Qed.

Lemma progress_trigger st t :
  progress st (final (trigger_auto_completion st t)).
Proof.
  unfold trigger_auto_completion.
  destruct (decide (task_status t ≠ "Done")); [apply progress_refl|].
  destruct (sprints st !! task_sprint t) as [s|]; [|apply progress_refl].
  apply progress_sprint.
Qed.

(** X6. Whatever the store and the task, a run of the trigger leaves the
    Task, Workspace, membership, access and role tables as they were, and
    in the Sprint, Milestone and Project tables it neither adds nor removes
    a row and changes nothing but a status, which it only ever sets to
    Completed: a row that was Completed stays Completed. *)
Theorem cascade_only_completes (st : Store) (t : Task) :
  let st' := final (trigger_auto_completion st t) in
  tasks st' = tasks st
  ∧ workspaces st' = workspaces st
  ∧ workspace_members st' = workspace_members st
  ∧ project_members st' = project_members st
  ∧ access_grants st' = access_grants st
  ∧ role_permissions st' = role_permissions st
  ∧ same_or_completed completed_sprint (sprints st) (sprints st')
  ∧ same_or_completed completed_milestone (milestones st) (milestones st')
  ∧ same_or_completed completed_project (projects st) (projects st')
  ∧ (∀ k s, sprints st !! k = Some s → sp_status s = "Completed" →
            sprints st' !! k = Some s)
  ∧ (∀ k m, milestones st !! k = Some m → ms_status m = "Completed" →
            milestones st' !! k = Some m)
  ∧ (∀ k p, projects st !! k = Some p → proj_status p = "Completed" →
            projects st' !! k = Some p).
Proof.
  cbv zeta. destruct (progress_trigger st t).
  repeat (split; [assumption|]). split; [|split].
  - intros k s Hs Hc. destruct (pr_sprints0 k) as [E|(r & Hr & E)];
      [congruence|].
    rewrite E. rewrite Hs in Hr. inversion Hr; subst r.
    destruct s; simpl in Hc; subst; reflexivity.
  - intros k m Hm Hc. destruct (pr_milestones0 k) as [E|(r & Hr & E)];
      [congruence|].
    rewrite E. rewrite Hm in Hr. inversion Hr; subst r.
    destruct m; simpl in Hc; subst; reflexivity.
  - intros k p Hp Hc. destruct (pr_projects0 k) as [E|(r & Hr & E)];
      [congruence|].
    rewrite E. rewrite Hp in Hr. inversion Hr; subst r.
    destruct p; simpl in Hc; subst; reflexivity.
Qed.

Lemma cascade_only_completes_witness :
  tasks (final (trigger_auto_completion Fixture.demo_all_done
                  Fixture.task2_done))
  = tasks Fixture.demo_all_done.
Proof.
  apply (cascade_only_completes Fixture.demo_all_done Fixture.task2_done).
Defined.

(** ** The stages as equations *)

(** The tests that guard the write of each stage. *)
Definition sprint_due (st : Store) (sid : Z) (s : Sprint) : Prop :=
  count_rows (λ t, task_sprint t = sid) (tasks st) ≠ 0%nat
  ∧ count_rows (λ t, task_sprint t = sid ∧ task_status t = "Done") (tasks st)
    = count_rows (λ t, task_sprint t = sid) (tasks st)
  ∧ sp_status s ≠ "Completed".

Definition milestone_due (st : Store) (mid : Z) (m : Milestone) : Prop :=
  count_rows (λ s, sp_milestone s = mid) (sprints st) ≠ 0%nat
  ∧ count_rows (λ s, sp_milestone s = mid ∧ sp_status s = "Completed")
               (sprints st)
    = count_rows (λ s, sp_milestone s = mid) (sprints st)
  ∧ ms_status m ≠ "Completed".

Definition project_due (st : Store) (pid : Z) (p : Project) : Prop :=
  count_rows (λ m, ms_project m = pid) (milestones st) ≠ 0%nat
  ∧ count_rows (λ m, ms_project m = pid ∧ ms_status m = "Completed")
               (milestones st)
    = count_rows (λ m, ms_project m = pid) (milestones st)
  ∧ proj_status p ≠ "Completed".

Definition workspace_due (st : Store) (wid : Z) : Prop :=
  count_rows (λ p, proj_workspace p = wid) (projects st) ≠ 0%nat
  ∧ count_rows (λ p, proj_workspace p = wid ∧ proj_status p = "Completed")
               (projects st)
    = count_rows (λ p, proj_workspace p = wid) (projects st).

Global Instance sprint_due_dec st sid s : Decision (sprint_due st sid s).
Proof. unfold sprint_due. apply _. Defined.

Global Instance milestone_due_dec st mid m : Decision (milestone_due st mid m).
Proof. unfold milestone_due. apply _. Defined.

Global Instance project_due_dec st pid p : Decision (project_due st pid p).
Proof. unfold project_due. apply _. Defined.

Global Instance workspace_due_dec st wid : Decision (workspace_due st wid).
Proof. unfold workspace_due. apply _. Defined.

(** What each stage goes on to do once its write is due. *)
Definition project_continue (st : Store) (pid : Z) (p : Project) : outcome :=
  let st2 :=
    _create_completion_notification (save_project_status st pid "Completed")
      (CProject pid p)
      (all_completed_message
         (count_rows (λ m, ms_project m = pid) (milestones st)) "milestones")
  in
  match workspaces st2 !! proj_workspace p with
  | Some w => _check_and_complete_workspace st2 (Some (proj_workspace p, w))
  | None => Raised st2
  end.

Definition milestone_continue (st : Store) (mid : Z) (m : Milestone)
    : outcome :=
  let st2 :=
    _create_completion_notification (save_milestone_status st mid "Completed")
      (CMilestone mid m)
      (all_completed_message
         (count_rows (λ s, sp_milestone s = mid) (sprints st)) "sprints")
  in
  match projects st2 !! ms_project m with
  | Some p => _check_and_complete_project st2 (Some (ms_project m, p))
  | None => Raised st2
  end.

Definition sprint_continue (st : Store) (sid : Z) (s : Sprint) : outcome :=
  let st2 :=
    _create_completion_notification (save_sprint_status st sid "Completed")
      (CSprint sid s)
      (all_completed_message
         (count_rows (λ t, task_sprint t = sid) (tasks st)) "tasks")
  in
  match milestones st2 !! sp_milestone s with
  | Some m => _check_and_complete_milestone st2 (Some (sp_milestone s, m))
  | None => Raised st2
  end.

Ltac stage_equation :=
  repeat match goal with
         | |- (if ?d then _ else _) = _ => destruct d; try tauto
         end;
  try reflexivity.

Lemma workspace_stage st wid w :
  _check_and_complete_workspace st (Some (wid, w))
  = if decide (workspace_due st wid)
    then Returned (_create_workspace_completion_notification st wid w
                     (count_rows (λ p, proj_workspace p = wid) (projects st)))
    else Returned st.
Proof.
  unfold _check_and_complete_workspace, workspace_due. cbv zeta.
  destruct (decide (_ ∧ _)) as [[H1 H2]|Hn]; stage_equation.
Qed.

Lemma project_stage st pid p :
  _check_and_complete_project st (Some (pid, p))
  = if decide (project_due st pid p) then project_continue st pid p
    else Returned st.
Proof.
  unfold _check_and_complete_project, project_due, project_continue.
  cbv zeta. destruct (decide (_ ∧ _)) as [(H1 & H2 & H3)|Hn]; stage_equation.
Qed.

Lemma milestone_stage st mid m :
  _check_and_complete_milestone st (Some (mid, m))
  = if decide (milestone_due st mid m) then milestone_continue st mid m
    else Returned st.
Proof.
  unfold _check_and_complete_milestone, milestone_due, milestone_continue.
  cbv zeta. destruct (decide (_ ∧ _)) as [(H1 & H2 & H3)|Hn]; stage_equation.
Qed.

Lemma sprint_stage st sid s :
  _check_and_complete_sprint st (Some (sid, s))
  = if decide (sprint_due st sid s) then sprint_continue st sid s
    else Returned st.
Proof.
  unfold _check_and_complete_sprint, sprint_due, sprint_continue.
  cbv zeta. destruct (decide (_ ∧ _)) as [(H1 & H2 & H3)|Hn]; stage_equation.
Qed.

Lemma sprint_due_iff_ready st sid s :
  sprint_due st sid s ↔ sprint_ready st sid s.
Proof.
  unfold sprint_due, sprint_ready.
  rewrite sprint_has_task_iff, sprint_all_done_iff. reflexivity.
Qed.

(** What a notification leaves alone. *)
Lemma notification_frame st obj message :
  let st' := _create_completion_notification st obj message in
  sprints st' = sprints st ∧ milestones st' = milestones st
  ∧ projects st' = projects st ∧ workspaces st' = workspaces st
  ∧ tasks st' = tasks st ∧ status_writes st' = status_writes st
  ∧ project_members st' = project_members st
  ∧ workspace_members st' = workspace_members st.
Proof.
  cbv zeta. unfold _create_completion_notification, notify_project_members.
  destruct (notified_project st obj); [|repeat split].
  destruct (decide (positive_integer_field (obj_id obj))); repeat split.
Qed.

(** ** The order of the status writes *)

Lemma workspace_stage_writes st wid w :
  status_writes (final (_check_and_complete_workspace st (Some (wid, w))))
  = status_writes st.
Proof.
  rewrite workspace_stage.
  destruct (decide (workspace_due st wid)); [|reflexivity].
  cbn [final]. unfold _create_workspace_completion_notification.
  by destruct (decide (positive_integer_field wid)).
Qed.

Lemma project_stage_writes st pid p :
  ∃ l, status_writes (final (_check_and_complete_project st (Some (pid, p))))
       = status_writes st ++ l
       ∧ (l = [] ∨ l = [(LProject, pid)]).
Proof.
  rewrite project_stage. destruct (decide (project_due st pid p)).
  - exists [(LProject, pid)]. split; [|by right].
    unfold project_continue. cbv zeta.
    set (st1 := save_project_status st pid "Completed").
    destruct (notification_frame st1 (CProject pid p)
                (all_completed_message
                   (count_rows (λ m, ms_project m = pid) (milestones st))
                   "milestones")) as (_ & _ & _ & _ & _ & Hw & _).
    destruct (workspaces _ !! proj_workspace p) as [w|].
    + by rewrite workspace_stage_writes, Hw.
    + cbn [final]. by rewrite Hw.
  - exists []. split; [by rewrite app_nil_r|by left].
Qed.

Lemma milestone_stage_writes st mid m :
  ∃ l, status_writes (final (_check_and_complete_milestone st (Some (mid, m))))
       = status_writes st ++ l
       ∧ (l = [] ∨ l = [(LMilestone, mid)]
          ∨ l = [(LMilestone, mid); (LProject, ms_project m)]).
Proof.
  rewrite milestone_stage. destruct (decide (milestone_due st mid m)).
  - unfold milestone_continue. cbv zeta.
    set (st1 := save_milestone_status st mid "Completed").
    set (st2 := _create_completion_notification st1 _ _).
    assert (status_writes st2 = status_writes st ++ [(LMilestone, mid)])
      as Hw2.
    { subst st2. by erewrite (proj1 (proj2 (proj2 (proj2 (proj2 (proj2
        (notification_frame st1 _ _))))))). }
    destruct (projects st2 !! ms_project m) as [p|].
    + destruct (project_stage_writes st2 (ms_project m) p)
        as (l & Hl & [-> | ->]); rewrite Hl, Hw2, <- app_assoc; eauto.
    + cbn [final]. rewrite Hw2. eauto.
  - exists []. split; [by rewrite app_nil_r|by left].
Qed.

(** X7. A run of the trigger for a task whose sprint loads makes at most one
    status write per level, bottom-up and without skipping a level: none;
    or the sprint; or the sprint and its milestone; or the sprint, its
    milestone and the milestone's project. *)
Theorem status_writes_go_upward (st : Store) (t : Task) (s : Sprint) :
  sprints st !! task_sprint t = Some s →
  ∃ l, status_writes (final (trigger_auto_completion st t))
       = status_writes st ++ l
       ∧ (l = [] ∨ l = [(LSprint, task_sprint t)]
          ∨ ∃ m, milestones st !! sp_milestone s = Some m
                 ∧ (l = [(LSprint, task_sprint t);
                         (LMilestone, sp_milestone s)]
                    ∨ l = [(LSprint, task_sprint t);
                           (LMilestone, sp_milestone s);
                           (LProject, ms_project m)])).
Proof.
  intros Hs. unfold trigger_auto_completion.
  destruct (decide (task_status t ≠ "Done")).
  { exists []. split; [by rewrite app_nil_r|by left]. }
  rewrite Hs, sprint_stage.
  destruct (decide (sprint_due st (task_sprint t) s)).
  2:{ exists []. split; [by rewrite app_nil_r|by left]. }
  unfold sprint_continue. cbv zeta.
  set (st1 := save_sprint_status st (task_sprint t) "Completed").
  set (st2 := _create_completion_notification st1 _ _).
  destruct (notification_frame st1 (CSprint (task_sprint t) s)
              (all_completed_message
                 (count_rows (λ t0, task_sprint t0 = task_sprint t) (tasks st))
                 "tasks")) as (_ & Hm2 & _ & _ & _ & Hw2 & _).
  fold st2 in Hm2, Hw2.
  change (status_writes st1)
    with (status_writes st ++ [(LSprint, task_sprint t)]) in Hw2.
  change (milestones st1) with (milestones st) in Hm2.
  rewrite Hm2.
  destruct (milestones st !! sp_milestone s) as [m|] eqn:Hm.
  - destruct (milestone_stage_writes st2 (sp_milestone s) m)
      as (l & Hl & [-> |[-> | ->]]); rewrite Hl, Hw2, <- app_assoc;
      eexists; (split; [reflexivity|]); simpl; eauto 10.
  - cbn [final]. rewrite Hw2. eauto.
Qed.

Lemma status_writes_go_upward_witness :
  ∃ l, status_writes (final (trigger_auto_completion Fixture.demo_all_done
                               Fixture.task2_done))
       = status_writes Fixture.demo_all_done ++ l
       ∧ (l = [] ∨ l = [(LSprint, 300%Z)]
          ∨ ∃ m, milestones Fixture.demo_all_done !! 200%Z = Some m
                 ∧ (l = [(LSprint, 300%Z); (LMilestone, 200%Z)]
                    ∨ l = [(LSprint, 300%Z); (LMilestone, 200%Z);
                           (LProject, ms_project m)])).
Proof.
  apply (status_writes_go_upward Fixture.demo_all_done Fixture.task2_done
           Fixture.sprint1).
  reflexivity.
Defined.

(** ** Notifications *)




(** ** The milestone level *)

Lemma milestone_has_sprint_iff st mid :
  count_rows (λ s, sp_milestone s = mid) (sprints st) ≠ 0%nat
  ↔ ∃ k s, sprints st !! k = Some s ∧ sp_milestone s = mid.
Proof. apply (count_rows_ne_0 (λ s, sp_milestone s = mid)). Qed.

Lemma milestone_all_completed_iff st mid :
  count_rows (λ s, sp_milestone s = mid ∧ sp_status s = "Completed")
             (sprints st)
  = count_rows (λ s, sp_milestone s = mid) (sprints st)
  ↔ ∀ k s, sprints st !! k = Some s → sp_milestone s = mid →
           sp_status s = "Completed".
Proof.
  apply (count_rows_all (λ s, sp_milestone s = mid)
                        (λ s, sp_status s = "Completed")).
Qed.

Lemma completed_milestone_stays st st' k m :
  progress st st' →
  milestones st !! k = Some m → ms_status m = "Completed" →
  ms_status <$> milestones st' !! k = Some "Completed".
Proof.
  intros Hp Hm Hc. destruct (pr_milestones _ _ Hp k) as [E|(r & Hr & E)].
  - by rewrite E, Hm, <- Hc.
  - by rewrite E.
Qed.

(** The other sprints of the milestone of sprint [sid] are all Completed. *)
Definition other_sprints_completed (st : Store) (sid mid : Z) : Prop :=
  ∀ k s', sprints st !! k = Some s' → k ≠ sid → sp_milestone s' = mid →
          sp_status s' = "Completed".

Lemma milestone_due_after_sprint st sid s m st2 :
  sprints st !! sid = Some s →
  sprints st2 = alter completed_sprint sid (sprints st) →
  milestone_due st2 (sp_milestone s) m
  ↔ other_sprints_completed st sid (sp_milestone s)
    ∧ ms_status m ≠ "Completed".
Proof.
  intros Hs Hsp. unfold milestone_due.
  rewrite milestone_has_sprint_iff, milestone_all_completed_iff, Hsp.
  split.
  - intros (_ & Hall & Hm). split; [|exact Hm].
    intros k s' Hk Hne Hmid. apply (Hall k s'); [|exact Hmid].
    by rewrite lookup_alter_ne.
  - intros (Hothers & Hm). split; [|split; [|exact Hm]].
    + exists sid, (completed_sprint s). by rewrite lookup_alter_eq, Hs.
    + intros k s' Hk Hmid. destruct (decide (sid = k)) as [<-|Hne].
      * rewrite lookup_alter_eq, Hs in Hk. simpl in Hk.
        by inversion Hk.
      * rewrite lookup_alter_ne in Hk by done.
        apply (Hothers k s'); auto.
Qed.

(** X9. When the trigger completes a sprint whose milestone loads, it goes
    on to complete the milestone exactly when every other sprint of the
    milestone is already Completed and the milestone is not: then the run
    ends with the milestone Completed and a status write to it; otherwise
    the Milestone and Project tables stay as they were and the write to the
    sprint is the only one. *)
Theorem milestone_follows_last_sprint (st : Store) (t : Task) (s : Sprint)
    (m : Milestone) :
  task_status t = "Done" →
  sprints st !! task_sprint t = Some s →
  sprint_ready st (task_sprint t) s →
  milestones st !! sp_milestone s = Some m →
  let st' := final (trigger_auto_completion st t) in
  (other_sprints_completed st (task_sprint t) (sp_milestone s)
   ∧ ms_status m ≠ "Completed" →
     ms_status <$> milestones st' !! sp_milestone s = Some "Completed"
     ∧ (LMilestone, sp_milestone s) ∈ status_writes st')
  ∧ (¬ (other_sprints_completed st (task_sprint t) (sp_milestone s)
        ∧ ms_status m ≠ "Completed") →
       milestones st' = milestones st
       ∧ projects st' = projects st
       ∧ status_writes st'
         = status_writes st ++ [(LSprint, task_sprint t)]).
Proof.
  intros Hdone Hs Hready Hm. cbv zeta.
  rewrite (trigger_done _ _ _ Hdone Hs), sprint_stage.
  destruct (decide (sprint_due st (task_sprint t) s)) as [_|Hn].
  2:{ exfalso. by apply Hn, sprint_due_iff_ready. }
  unfold sprint_continue. cbv zeta.
  set (st1 := save_sprint_status st (task_sprint t) "Completed").
  set (st2 := _create_completion_notification st1 _ _).
  destruct (notification_frame st1 (CSprint (task_sprint t) s)
              (all_completed_message
                 (count_rows (λ t0, task_sprint t0 = task_sprint t) (tasks st))
                 "tasks")) as (Hsp2 & Hm2 & Hp2 & _ & _ & Hw2 & _).
  fold st2 in Hsp2, Hm2, Hp2, Hw2.
  change (milestones st1) with (milestones st) in Hm2.
  change (projects st1) with (projects st) in Hp2.
  change (status_writes st1)
    with (status_writes st ++ [(LSprint, task_sprint t)]) in Hw2.
  change (sprints st1)
    with (alter completed_sprint (task_sprint t) (sprints st)) in Hsp2.
  rewrite Hm2, Hm, milestone_stage.
  pose proof (milestone_due_after_sprint st (task_sprint t) s m st2 Hs Hsp2)
    as Hdue.
  destruct (decide (milestone_due st2 (sp_milestone s) m)) as [Hd|Hnd].
  - split; [intros _|intros Hnot; exfalso; apply Hnot; by apply Hdue].
    unfold milestone_continue. cbv zeta.
    set (st3 := save_milestone_status st2 (sp_milestone s) "Completed").
    set (st4 := _create_completion_notification st3 _ _).
    destruct (notification_frame st3 (CMilestone (sp_milestone s) m)
                (all_completed_message
                   (count_rows (λ s0, sp_milestone s0 = sp_milestone s)
                               (sprints st2)) "sprints"))
      as (_ & Hm4 & _ & _ & _ & Hw4 & _).
    fold st4 in Hm4, Hw4.
    assert (milestones st4 !! sp_milestone s = Some (completed_milestone m))
      as Hlook.
    { rewrite Hm4. subst st3. simpl. by rewrite lookup_alter_eq, Hm2, Hm. }
    assert (∀ o, progress st4 (final o) →
                 ms_status <$> milestones (final o) !! sp_milestone s
                 = Some "Completed"
                 ∧ (LMilestone, sp_milestone s) ∈ status_writes (final o))
      as Hfin.
    { intros o Ho. split.
      - by eapply completed_milestone_stays.
      - destruct (pr_status_writes _ _ Ho) as (l & Hl).
        rewrite Hl, Hw4. subst st3. simpl.
        rewrite !elem_of_app, list_elem_of_singleton. auto. }
    destruct (projects st4 !! ms_project m) as [p|].
    + apply Hfin, progress_project.
    + apply (Hfin (Raised st4)), progress_refl.
  - split; [intros Hyes; exfalso; by apply Hnd, Hdue|intros _].
    cbn [final]. auto.
Qed.

Lemma milestone_follows_last_sprint_witness :
  ms_status <$>
    milestones (final (trigger_auto_completion Fixture.demo_all_done
                         Fixture.task2_done)) !! 200%Z
  = Some "Completed".
Proof.
  pose proof (milestone_follows_last_sprint Fixture.demo_all_done
                Fixture.task2_done Fixture.sprint1
                (mkMilestone 100 "M1" "Not Started") eq_refl eq_refl)
    as H.
  apply H.
  - apply (bool_decide_unpack _). vm_compute. exact I.
  - reflexivity.
  - split; [|discriminate].
    intros k s' Hk Hne Hmid. exfalso. apply Hne.
    change (sprints Fixture.demo_all_done) with ({[300%Z := Fixture.sprint1]}
      : gmap Z Sprint) in Hk.
    apply lookup_singleton_Some in Hk. symmetry. tauto.
Defined.

(** ** Returning *)

(** Foreign-key integrity along the containment chain. *)
Definition chain_intact (st : Store) : Prop :=
  map_Forall (λ _ s, is_Some (milestones st !! sp_milestone s)) (sprints st)
  ∧ map_Forall (λ _ m, is_Some (projects st !! ms_project m)) (milestones st)
  ∧ map_Forall (λ _ p, is_Some (workspaces st !! proj_workspace p))
               (projects st).

Lemma workspace_stage_returns st workspace :
  ∃ st', _check_and_complete_workspace st workspace = Returned st'.
Proof.
  destruct workspace as [[wid w]|]; [|by eexists].
  rewrite workspace_stage. destruct (decide (workspace_due st wid)); eauto.
Qed.

Lemma project_stage_returns st pid p :
  is_Some (workspaces st !! proj_workspace p) →
  ∃ st', _check_and_complete_project st (Some (pid, p)) = Returned st'.
Proof.
  intros [w Hw]. rewrite project_stage.
  destruct (decide (project_due st pid p)); [|eauto].
  unfold project_continue. cbv zeta.
  set (st1 := save_project_status st pid "Completed").
  destruct (notification_frame st1 (CProject pid p)
              (all_completed_message
                 (count_rows (λ m, ms_project m = pid) (milestones st))
                 "milestones")) as (_ & _ & _ & Hws & _).
  rewrite Hws. change (workspaces st1) with (workspaces st). rewrite Hw.
  apply workspace_stage_returns.
Qed.

Lemma milestone_stage_returns st mid m :
  is_Some (projects st !! ms_project m) →
  map_Forall (λ _ p, is_Some (workspaces st !! proj_workspace p))
             (projects st) →
  ∃ st', _check_and_complete_milestone st (Some (mid, m)) = Returned st'.
Proof.
  intros [p Hp] Hfk. rewrite milestone_stage.
  destruct (decide (milestone_due st mid m)); [|eauto].
  unfold milestone_continue. cbv zeta.
  set (st1 := save_milestone_status st mid "Completed").
  set (st2 := _create_completion_notification st1 _ _).
  destruct (notification_frame st1 (CMilestone mid m)
              (all_completed_message
                 (count_rows (λ s, sp_milestone s = mid) (sprints st))
                 "sprints")) as (_ & _ & Hp2 & Hws2 & _).
  fold st2 in Hp2, Hws2.
  change (projects st1) with (projects st) in Hp2.
  change (workspaces st1) with (workspaces st) in Hws2.
  rewrite Hp2, Hp. apply project_stage_returns.
  rewrite Hws2. by apply (Hfk (ms_project m)).
Qed.

Lemma sprint_stage_returns st sid s :
  is_Some (milestones st !! sp_milestone s) →
  map_Forall (λ _ m, is_Some (projects st !! ms_project m)) (milestones st) →
  map_Forall (λ _ p, is_Some (workspaces st !! proj_workspace p))
             (projects st) →
  ∃ st', _check_and_complete_sprint st (Some (sid, s)) = Returned st'.
Proof.
  intros [m Hm] Hfkm Hfkp. rewrite sprint_stage.
  destruct (decide (sprint_due st sid s)); [|eauto].
  unfold sprint_continue. cbv zeta.
  set (st1 := save_sprint_status st sid "Completed").
  set (st2 := _create_completion_notification st1 _ _).
  destruct (notification_frame st1 (CSprint sid s)
              (all_completed_message
                 (count_rows (λ t, task_sprint t = sid) (tasks st)) "tasks"))
    as (_ & Hm2 & Hp2 & Hws2 & _).
  fold st2 in Hm2, Hp2, Hws2.
  change (milestones st1) with (milestones st) in Hm2.
  change (projects st1) with (projects st) in Hp2.
  change (workspaces st1) with (workspaces st) in Hws2.
  rewrite Hm2, Hm. apply milestone_stage_returns.
  - rewrite Hp2. by apply (Hfkm (sp_milestone s)).
  - by rewrite Hp2, Hws2.
Qed.

(** X10. With the containment chain intact (every sprint has its milestone,
    every milestone its project, every project its workspace), the trigger
    returns normally for every task whose sprint exists; for a Done task
    whose sprint row is missing it raises without touching the store. *)
Theorem trigger_returns_on_intact_chain (st : Store) (t : Task) :
  (chain_intact st → is_Some (sprints st !! task_sprint t) →
   ∃ st', trigger_auto_completion st t = Returned st')
  ∧ (task_status t = "Done" → sprints st !! task_sprint t = None →
     trigger_auto_completion st t = Raised st).
Proof.
  split; [|apply trigger_no_sprint].
  intros (Hfs & Hfm & Hfp) [s Hs]. unfold trigger_auto_completion.
  destruct (decide (task_status t ≠ "Done")); [eauto|].
  rewrite Hs. apply sprint_stage_returns; [|assumption..].
  by apply (Hfs (task_sprint t)).
Qed.

Lemma trigger_returns_on_intact_chain_witness :
  ∃ st', trigger_auto_completion Fixture.demo_all_done Fixture.task2_done
         = Returned st'.
Proof.
  apply (trigger_returns_on_intact_chain Fixture.demo_all_done
           Fixture.task2_done).
  - apply (bool_decide_unpack _). vm_compute. exact I.
  - apply (bool_decide_unpack _). vm_compute. exact I.
Defined.

(** ** Saving a task *)

Lemma Task_save_tasks st pk t :
  tasks (final (Task_save st pk t)) = <[(super_save st pk t).2 := t]> (tasks st).
Proof.
  unfold Task_save, auto_complete_on_task_done. cbv zeta.
  destruct (decide (_ ∧ _)); [|reflexivity].
  by rewrite (pr_tasks _ _ (progress_trigger _ t)).
Qed.

(** X11. [Task.save] always leaves the task stored under its key, whether or
    not the cascade runs and whether or not it raises.  Saving a task whose
    status is not Done changes the Task table and nothing else: a sprint,
    milestone or project that was Completed stays Completed when one of its
    tasks is reopened, and no notification is created. *)
Theorem save_persists_and_never_reopens (st : Store) (pk : option Z)
    (t : Task) :
  tasks (final (Task_save st pk t)) = <[(super_save st pk t).2 := t]> (tasks st)
  ∧ tasks (final (Task_save st pk t)) !! (super_save st pk t).2 = Some t
  ∧ (task_status t ≠ "Done" →
     Task_save st pk t
     = Returned (with_tasks st (<[(super_save st pk t).2 := t]> (tasks st)))).
Proof.
  pose proof (Task_save_tasks st pk t) as Htasks.
  split; [exact Htasks|]. split; [by rewrite Htasks, lookup_insert_eq|].
  intros Hnd. unfold Task_save. cbv zeta.
  destruct (decide (_ ∧ _)) as [[_ Hd]|_]; [tauto|reflexivity].
Qed.

Lemma save_persists_and_never_reopens_witness :
  Task_save Fixture.demo_all_done (Some 401%Z) Fixture.task2
  = Returned (with_tasks Fixture.demo_all_done
                (<[401%Z := Fixture.task2]> (tasks Fixture.demo_all_done))).
Proof.
  apply (save_persists_and_never_reopens Fixture.demo_all_done (Some 401%Z)
           Fixture.task2).
  discriminate.
Defined.

End CascadeExtras.

(** * Properties of the cascade on model instances *)
Module InstanceFacts.

Import Cascade CascadeFacts CascadeExtras.

(** ** What the levels above the sprint leave alone *)

Lemma save_project_Some st pid project st1 :
  Instances.save_project st pid (Instances.complete_project project) = Some st1 →
  st1 = save_project_status st pid "Completed".
Proof.
  unfold Instances.save_project. destruct (projects st !! pid); [|discriminate].
  intros H. by inversion H.
Qed.

Lemma save_milestone_Some st mid milestone st1 :
  Instances.save_milestone st mid (Instances.complete_milestone milestone)
  = Some st1 →
  st1 = save_milestone_status st mid "Completed".
Proof.
  unfold Instances.save_milestone.
  destruct (milestones st !! mid); [|discriminate].
  intros H. by inversion H.
Qed.

Lemma save_sprint_Some st sid sprint st1 :
  Instances.save_sprint st sid (Instances.complete_sprint sprint) = Some st1 →
  st1 = save_sprint_status st sid "Completed"
  ∧ is_Some (sprints st !! sid).
Proof.
  unfold Instances.save_sprint.
  destruct (sprints st !! sid) as [s|]; [|discriminate].
  intros H. inversion H. eauto.
Qed.

Lemma above_sprint_project_instance st pid project :
  above_sprint st
    (final (Instances._check_and_complete_project st pid project).1).
Proof.
  unfold Instances._check_and_complete_project. cbv zeta.
  destruct (decide (_ = 0%nat)); [apply above_sprint_refl|].
  destruct (decide (_ = _)); [|apply above_sprint_refl].
  destruct (decide (_ ≠ _)); [|apply above_sprint_refl].
  destruct (Instances.save_project st pid _) as [st1|] eqn:Hsave;
    [|apply above_sprint_refl].
  apply save_project_Some in Hsave. subst st1.
  set (st1 := save_project_status st pid "Completed").
  set (st2 := Instances._create_completion_notification_Project st1 _ _ _).
  assert (above_sprint st st2) as H12.
  { eapply above_sprint_trans;
      [apply above_sprint_save_project|apply above_sprint_notify]. }
  destruct (Instances.get_workspace st2 _) as [w|]; [|exact H12].
  eapply above_sprint_trans; [exact H12|apply above_sprint_workspace].
Qed.

Lemma above_sprint_notify_milestone st mid milestone message :
  above_sprint st
    (Instances._create_completion_notification_Milestone st mid milestone
       message).1.
Proof.
  unfold Instances._create_completion_notification_Milestone.
  destruct (Instances.get_project st milestone);
    [apply above_sprint_notify|apply above_sprint_refl].
Qed.

Lemma above_sprint_notify_sprint st sid sprint message :
  above_sprint st
    (Instances._create_completion_notification_Sprint st sid sprint
       message).1.
Proof.
  unfold Instances._create_completion_notification_Sprint.
  destruct (Instances.get_milestone st sprint) as [milestone|];
    [|apply above_sprint_refl].
  destruct (Instances.get_project st milestone);
    [apply above_sprint_notify|apply above_sprint_refl].
Qed.

Lemma above_sprint_milestone_instance st mid milestone :
  above_sprint st
    (final (Instances._check_and_complete_milestone st mid milestone).1).
Proof.
  unfold Instances._check_and_complete_milestone. cbv zeta.
  destruct (decide (_ = 0%nat)); [apply above_sprint_refl|].
  destruct (decide (_ = _)); [|apply above_sprint_refl].
  destruct (decide (_ ≠ _)); [|apply above_sprint_refl].
  destruct (Instances.save_milestone st mid _) as [st1|] eqn:Hsave;
    [|apply above_sprint_refl].
  apply save_milestone_Some in Hsave. subst st1.
  set (st1 := save_milestone_status st mid "Completed").
  pose proof (above_sprint_notify_milestone st1 mid
                (Instances.complete_milestone milestone)
                (all_completed_message
                   (count_rows (λ s, sp_milestone s = mid) (sprints st))
                   "sprints")) as Hn.
  destruct (Instances._create_completion_notification_Milestone st1 mid _ _)
    as [st2 milestone2].
  simpl in Hn.
  assert (above_sprint st st2) as H12.
  { eapply above_sprint_trans; [apply above_sprint_save_milestone|exact Hn]. }
  destruct (Instances.get_project st2 milestone2) as [project|]; [|exact H12].
  pose proof (above_sprint_project_instance st2
                (ms_project (Instances.mi_fields milestone2)) project) as Hp.
  destruct (Instances._check_and_complete_project st2 _ project)
    as [result project'].
  eapply above_sprint_trans; [exact H12|exact Hp].
Qed.


(** ** The sprint level *)

Lemma notify_sprint_fields st sid sprint message :
  Instances.si_fields
    (Instances._create_completion_notification_Sprint st sid sprint message).2
  = Instances.si_fields sprint.
Proof.
  unfold Instances._create_completion_notification_Sprint.
  destruct (Instances.get_milestone st sprint) as [milestone|];
    [|reflexivity].
  by destruct (Instances.get_project st milestone).
Qed.

(** The sprint stage does nothing unless the sprint has a task, all its
    tasks are Done and the status the instance holds is not Completed. *)
Lemma sprint_stage_idle st sid sprint :
  ¬ sprint_ready st sid (Instances.si_fields sprint) →
  Instances._check_and_complete_sprint st sid sprint = (Returned st, sprint).
Proof.
  intros Hnot. unfold Instances._check_and_complete_sprint. cbv zeta.
  destruct (decide (count_rows (λ t, task_sprint t = sid) (tasks st) = 0%nat))
    as [|Hz]; [reflexivity|].
  destruct (decide (count_rows (λ t, task_sprint t = sid ∧ task_status t = "Done")
                               (tasks st)
                    = count_rows (λ t, task_sprint t = sid) (tasks st)))
    as [Hall|]; [|reflexivity].
  destruct (decide (sp_status (Instances.si_fields sprint) ≠ "Completed"))
    as [Hc|]; [|reflexivity].
  exfalso. apply Hnot. repeat split.
  - exact (proj1 (sprint_has_task_iff st sid) Hz).
  - exact (proj1 (sprint_all_done_iff st sid) Hall).
  - exact Hc.
Qed.

Lemma sprint_stage_enter st sid sprint :
  sprint_ready st sid (Instances.si_fields sprint) →
  Instances._check_and_complete_sprint st sid sprint
  = match Instances.save_sprint st sid (Instances.complete_sprint sprint) with
    | Some st1 =>
        let '(st2, sprint2) :=
          Instances._create_completion_notification_Sprint st1 sid
            (Instances.complete_sprint sprint)
            (all_completed_message
               (count_rows (λ t, task_sprint t = sid) (tasks st)) "tasks") in
        match Instances.get_milestone st2 sprint2 with
        | Some milestone =>
            let '(result, milestone') :=
              Instances._check_and_complete_milestone st2
                (sp_milestone (Instances.si_fields sprint2)) milestone in
            (result,
             Instances.mkSprintInstance (Instances.si_fields sprint2)
               (Some milestone'))
        | None => (Raised st2, sprint2)
        end
    | None => (Raised st, Instances.complete_sprint sprint)
    end.
Proof.
  intros (Hsome & Hall & Hstatus).
  unfold Instances._check_and_complete_sprint. cbv zeta.
  destruct (decide (count_rows (λ t, task_sprint t = sid) (tasks st) = 0%nat))
    as [Hz|_].
  { exfalso. revert Hz. by apply sprint_has_task_iff. }
  destruct (decide (count_rows (λ t, task_sprint t = sid ∧ task_status t = "Done")
                               (tasks st)
                    = count_rows (λ t, task_sprint t = sid) (tasks st)))
    as [_|Hne].
  2:{ exfalso. apply Hne. by apply sprint_all_done_iff. }
  destruct (decide (sp_status (Instances.si_fields sprint) ≠ "Completed"))
    as [_|Hc]; [reflexivity|tauto].
Qed.

(** When the row of the sprint is gone the save raises. *)
Lemma sprint_stage_gone st sid sprint :
  sprint_ready st sid (Instances.si_fields sprint) →
  sprints st !! sid = None →
  Instances._check_and_complete_sprint st sid sprint
  = (Raised st, Instances.complete_sprint sprint).
Proof.
  intros Hready Hrow. rewrite (sprint_stage_enter _ _ _ Hready).
  unfold Instances.save_sprint. by rewrite Hrow.
Qed.

(** Otherwise the row is written, once, and the instance is left with the
    status Completed. *)
Lemma sprint_stage_due st sid sprint s0 :
  sprint_ready st sid (Instances.si_fields sprint) →
  sprints st !! sid = Some s0 →
  ∃ result sprint',
    Instances._check_and_complete_sprint st sid sprint = (result, sprint')
    ∧ sp_status (Instances.si_fields sprint') = "Completed"
    ∧ sprints (final result) !! sid = Some (completed_sprint s0)
    ∧ tasks (final result) = tasks st
    ∧ ∃ l, status_writes (final result)
           = status_writes st ++ (LSprint, sid) :: l
           ∧ Forall (λ e, e.1 ≠ LSprint) l.
Proof.
  intros Hready Hrow. rewrite (sprint_stage_enter _ _ _ Hready).
  unfold Instances.save_sprint. rewrite Hrow. simpl.
  set (st1 := save_sprint_status st sid "Completed").
  set (message := all_completed_message _ _).
  pose proof (above_sprint_notify_sprint st1 sid
                (Instances.complete_sprint sprint) message) as Hn.
  pose proof (notify_sprint_fields st1 sid (Instances.complete_sprint sprint)
                message) as Hf.
  destruct (Instances._create_completion_notification_Sprint st1 sid _ message)
    as [st2 sprint2].
  simpl in Hn, Hf.
  assert (∀ result, above_sprint st2 (final result) →
            sprints (final result) !! sid = Some (completed_sprint s0)
            ∧ tasks (final result) = tasks st
            ∧ ∃ l, status_writes (final result)
                   = status_writes st ++ (LSprint, sid) :: l
                   ∧ Forall (λ e, e.1 ≠ LSprint) l) as Hfin.
  { intros result Hr.
    destruct (above_sprint_trans _ _ _ Hn Hr) as (Hsp & Htk & l & Hw & Hl).
    rewrite Hsp, Htk, Hw. subst st1. simpl.
    rewrite lookup_alter_eq, Hrow. simpl.
    repeat split. exists l. by rewrite <- app_assoc. }
  destruct (Instances.get_milestone st2 sprint2) as [milestone|].
  - pose proof (above_sprint_milestone_instance st2
                  (sp_milestone (Instances.si_fields sprint2)) milestone)
      as Hm.
    destruct (Instances._check_and_complete_milestone st2 _ milestone)
      as [result milestone'].
    eexists _, _. split; [reflexivity|]. simpl.
    split; [by rewrite Hf|]. by apply Hfin.
  - eexists _, _. split; [reflexivity|].
    split; [by rewrite Hf|]. apply (Hfin (Raised st2)), above_sprint_refl.
Qed.

Lemma trigger_instance_done st task sprint :
  task_status (Instances.ti_fields task) = "Done" →
  Instances.get_sprint st task = Some sprint →
  Instances.trigger_auto_completion st task
  = ((Instances._check_and_complete_sprint st
        (task_sprint (Instances.ti_fields task)) sprint).1,
     Instances.mkTaskInstance (Instances.ti_fields task)
       (Some (Instances._check_and_complete_sprint st
                (task_sprint (Instances.ti_fields task)) sprint).2)).
Proof.
  intros Hdone Hs. unfold Instances.trigger_auto_completion.
  destruct (decide (task_status (Instances.ti_fields task) ≠ "Done"));
    [tauto|].
  rewrite Hs. by destruct (Instances._check_and_complete_sprint st _ sprint).
Qed.

Lemma trigger_instance_not_done st task :
  task_status (Instances.ti_fields task) ≠ "Done" →
  Instances.trigger_auto_completion st task = (Returned st, task).
Proof.
  intros Hnd. unfold Instances.trigger_auto_completion.
  destruct (decide (task_status (Instances.ti_fields task) ≠ "Done"));
    [reflexivity|tauto].
Qed.

Lemma trigger_instance_no_sprint st task :
  task_status (Instances.ti_fields task) = "Done" →
  Instances.get_sprint st task = None →
  Instances.trigger_auto_completion st task = (Raised st, task).
Proof.
  intros Hdone Hs. unfold Instances.trigger_auto_completion.
  destruct (decide (task_status (Instances.ti_fields task) ≠ "Done"));
    [tauto|]. by rewrite Hs.
Qed.

(** A sprint the task does not hold is read from the store. *)
Lemma get_sprint_loaded st task sprint :
  Instances.ti_sprint task = None →
  Instances.get_sprint st task = Some sprint →
  sprints st !! task_sprint (Instances.ti_fields task)
  = Some (Instances.si_fields sprint)
  ∧ Instances.si_milestone sprint = None.
Proof.
  unfold Instances.get_sprint. intros ->.
  destruct (sprints st !! _) as [s|]; [|discriminate].
  intros H. inversion H. auto.
Qed.

(** ** C4 *)

(** C4, as stated, fails on the code.  The store is the one a first run
    left behind, with sprint 300 Completed and all its tasks Done.  A task
    object that read its sprint before that run still holds it as Not
    Started: the trigger tests that status, writes the sprint again and
    notifies the project member again. *)
Lemma held_sprint_written_again_counterexample :
  let st1 :=
    final (Instances.trigger_auto_completion Fixture.demo_all_done
             (Instances.mkTaskInstance Fixture.task2_done None)).1 in
  let stale :=
    Instances.mkTaskInstance Fixture.task1
      (Some (Instances.mkSprintInstance Fixture.sprint1 None)) in
  let st2 := final (Instances.trigger_auto_completion st1 stale).1 in
  sp_status <$> sprints st1 !! 300%Z = Some "Completed"
  ∧ status_writes st2 = status_writes st1 ++ [(LSprint, 300%Z)]
  ∧ notifications st2
    = notifications st1
      ++ [mkNotification 1 None
            (completion_verb (CSprint 300 Fixture.sprint1)
               (all_completed_message 2 "tasks"))
            "general" 300]
  ∧ (Instances.trigger_auto_completion st1 stale).1 ≠ Returned st1.
Proof.
  cbv zeta. split; [vm_compute; reflexivity|].
  split; [vm_compute; reflexivity|]. split; [vm_compute; reflexivity|].
  intros H. apply (f_equal (λ o, length (status_writes (final o)))) in H.
  vm_compute in H. discriminate.
Qed.

(** C4, amended.  When the trigger runs for a Done task, a sprint that is
    neither held nor stored makes it raise at once.  Otherwise the status
    it tests is the one the sprint instance holds, which is the stored one
    when the task loads its sprint during the call.  If the sprint has a task, all its tasks are Done and that
    status is not Completed, the run ends with the stored sprint Completed
    and exactly one more status write to it, provided its row still exists;
    if the row is gone the save raises and the store is as it was.  In every
    other case the trigger returns with the store exactly as it was, so no
    status changed, no notification was created and nothing happened at the
    milestone level. *)
Theorem sprint_completed_iff_held_ready (st : Store)
    (task : Instances.TaskInstance) :
  task_status (Instances.ti_fields task) = "Done" →
  let sid := task_sprint (Instances.ti_fields task) in
  let run := Instances.trigger_auto_completion st task in
  let st' := final run.1 in
  (Instances.get_sprint st task = None → run = (Raised st, task))
  ∧ ∀ sprint,
      Instances.get_sprint st task = Some sprint →
      let held := Instances.si_fields sprint in
      (sprint_ready st sid held → is_Some (sprints st !! sid) →
         sp_status <$> sprints st' !! sid = Some "Completed"
         ∧ sprint_writes st' sid = S (sprint_writes st sid))
      ∧ (sprint_ready st sid held → sprints st !! sid = None →
           run.1 = Raised st)
      ∧ (¬ sprint_ready st sid held → run.1 = Returned st)
      ∧ (sprint_writes st' sid ≠ sprint_writes st sid
         ↔ sprint_ready st sid held ∧ is_Some (sprints st !! sid))
      ∧ (Instances.ti_sprint task = None → sprints st !! sid = Some held).
Proof.
  intros Hdone. cbv zeta. split; [by apply trigger_instance_no_sprint|].
  intros sprint Hs. rewrite (trigger_instance_done _ _ _ Hdone Hs).
  cbn [fst].
  set (sid := task_sprint (Instances.ti_fields task)).
  assert (sprint_ready st sid (Instances.si_fields sprint) →
          is_Some (sprints st !! sid) →
          sp_status <$>
            sprints (final (Instances._check_and_complete_sprint st sid
                              sprint).1) !! sid
          = Some "Completed"
          ∧ sprint_writes
              (final (Instances._check_and_complete_sprint st sid sprint).1)
              sid
            = S (sprint_writes st sid)) as Hpos.
  { intros Hready [s0 Hrow].
    destruct (sprint_stage_due st sid sprint s0 Hready Hrow)
      as (result & sprint' & -> & _ & Hsp & _ & l & Hw & Hl).
    cbn [fst]. split; [by rewrite Hsp|]. by eapply sprint_writes_app. }
  split; [exact Hpos|]. split; [|split; [|split]].
  - intros Hready Hrow. by rewrite (sprint_stage_gone _ _ _ Hready Hrow).
  - intros Hnot. by rewrite (sprint_stage_idle _ _ _ Hnot).
  - destruct (decide (sprint_ready st sid (Instances.si_fields sprint)))
      as [Hready|Hnot].
    + destruct (decide (is_Some (sprints st !! sid))) as [Hrow|Hrow].
      * destruct (Hpos Hready Hrow) as [_ Hw].
        rewrite Hw. split; [eauto|]. lia.
      * assert (sprints st !! sid = None) as Hgone.
        { destruct (sprints st !! sid) eqn:E; [|reflexivity].
          exfalso. apply Hrow. eauto. }
        rewrite (sprint_stage_gone _ _ _ Hready Hgone). cbn [fst final].
        tauto.
    + rewrite (sprint_stage_idle _ _ _ Hnot). cbn [fst final]. tauto.
  - intros Hnone. by apply get_sprint_loaded.
Qed.

Lemma sprint_completed_iff_held_ready_witness :
  (sp_status <$>
     sprints (final (Instances.trigger_auto_completion Fixture.demo_all_done
                       (Instances.mkTaskInstance Fixture.task2_done None)).1)
       !! 300%Z
   = Some "Completed")
  ∧ (Instances.trigger_auto_completion Fixture.demo
       (Instances.mkTaskInstance Fixture.task1 None)).1
    = Returned Fixture.demo
  ∧ (Instances.trigger_auto_completion Fixture.demo_all_done
       (Instances.mkTaskInstance Fixture.task1
          (Some (Instances.mkSprintInstance
                   (mkSprint 200 "S1" "Completed") None)))).1
    = Returned Fixture.demo_all_done.
Proof.
  split; [|split].
  - destruct (sprint_completed_iff_held_ready Fixture.demo_all_done
                (Instances.mkTaskInstance Fixture.task2_done None) eq_refl)
      as [_ H].
    apply (H (Instances.mkSprintInstance Fixture.sprint1 None) eq_refl).
    + apply (bool_decide_unpack _). vm_compute. exact I.
    + apply (bool_decide_unpack _). vm_compute. exact I.
  - destruct (sprint_completed_iff_held_ready Fixture.demo
                (Instances.mkTaskInstance Fixture.task1 None) eq_refl)
      as [_ H].
    apply (H (Instances.mkSprintInstance Fixture.sprint1 None) eq_refl).
    apply (bool_decide_unpack _). vm_compute. exact I.
  - destruct (sprint_completed_iff_held_ready Fixture.demo_all_done
                (Instances.mkTaskInstance Fixture.task1
                   (Some (Instances.mkSprintInstance
                            (mkSprint 200 "S1" "Completed") None)))
                eq_refl) as [_ H].
    apply (H (Instances.mkSprintInstance (mkSprint 200 "S1" "Completed")
                None) eq_refl).
    intros (_ & _ & Hc). by apply Hc.
Defined.

(** ** Running the trigger again *)

(** A task whose sprint instance holds the status Completed does
    nothing. *)
Lemma trigger_instance_completed st task sprint :
  Instances.get_sprint st task = Some sprint →
  sp_status (Instances.si_fields sprint) = "Completed" →
  Instances.trigger_auto_completion st task
  = (Returned st,
     if decide (task_status (Instances.ti_fields task) ≠ "Done") then task
     else Instances.mkTaskInstance (Instances.ti_fields task) (Some sprint)).
Proof.
  intros Hs Hc.
  destruct (decide (task_status (Instances.ti_fields task) ≠ "Done"))
    as [Hnd|Hd].
  { by apply trigger_instance_not_done. }
  apply dec_stable in Hd. rewrite (trigger_instance_done _ _ _ Hd Hs).
  rewrite sprint_stage_idle; [reflexivity|].
  intros (_ & _ & H). by apply H.
Qed.

(** The trigger run again with the task object the first run left. *)
Lemma trigger_same_instance st task :
  let run1 := Instances.trigger_auto_completion st task in
  let run2 := Instances.trigger_auto_completion (final run1.1) run1.2 in
  final run2.1 = final run1.1
  ∧ run2.2 = run1.2
  ∧ (is_Some (Instances.get_sprint st task) → run2.1 = Returned (final run1.1)).
Proof.
  cbv zeta.
  destruct (decide (task_status (Instances.ti_fields task) ≠ "Done"))
    as [Hnd|Hd].
  { rewrite (trigger_instance_not_done st task Hnd). cbn [fst snd final].
    by rewrite (trigger_instance_not_done st task Hnd). }
  apply dec_stable in Hd.
  destruct (Instances.get_sprint st task) as [sprint|] eqn:Hs.
  2:{ rewrite (trigger_instance_no_sprint st task Hd Hs). cbn [fst snd final].
      rewrite (trigger_instance_no_sprint st task Hd Hs).
      repeat split. by intros [? ?]. }
  rewrite (trigger_instance_done _ _ _ Hd Hs). cbn [fst snd].
  set (sid := task_sprint (Instances.ti_fields task)).
  assert (∀ st1 sprint',
            sp_status (Instances.si_fields sprint') = "Completed" →
            Instances.trigger_auto_completion st1
              (Instances.mkTaskInstance (Instances.ti_fields task)
                 (Some sprint'))
            = (Returned st1,
               Instances.mkTaskInstance (Instances.ti_fields task)
                 (Some sprint'))) as Hagain.
  { intros st1 sprint' Hc.
    rewrite (trigger_instance_completed st1
               (Instances.mkTaskInstance (Instances.ti_fields task)
                  (Some sprint')) sprint' eq_refl Hc).
    cbn [Instances.ti_fields].
    destruct (decide (task_status (Instances.ti_fields task) ≠ "Done"));
      [tauto|reflexivity]. }
  destruct (decide (sprint_ready st sid (Instances.si_fields sprint)))
    as [Hready|Hnot].
  - destruct (sprints st !! sid) as [s0|] eqn:Hrow.
    + destruct (sprint_stage_due st sid sprint s0 Hready Hrow)
        as (result & sprint' & -> & Hc & _).
      cbn [fst snd]. by rewrite (Hagain _ _ Hc).
    + rewrite (sprint_stage_gone _ _ _ Hready Hrow). cbn [fst snd final].
      by rewrite (Hagain st (Instances.complete_sprint sprint) eq_refl).
  - rewrite (sprint_stage_idle _ _ _ Hnot). cbn [fst snd final].
    rewrite (trigger_instance_done st
               (Instances.mkTaskInstance (Instances.ti_fields task)
                  (Some sprint)) sprint Hd eq_refl).
    cbn [Instances.ti_fields]. fold sid.
    by rewrite (sprint_stage_idle _ _ _ Hnot).
Qed.

(** ** Instances in step with the store

    An instance is in step with the store when the fields it holds are
    those of its row and the related instance it holds, if any, is in step
    as well: the state of an object that was loaded, with whatever it holds,
    and has seen no write to these rows since. *)

Definition project_in_step (st : Store) (pid : Z)
    (project : Instances.ProjectInstance) : Prop :=
  projects st !! pid = Some (Instances.pi_fields project)
  ∧ ∀ w, Instances.pi_workspace project = Some w →
         workspaces st !! proj_workspace (Instances.pi_fields project)
         = Some w.

Definition milestone_in_step (st : Store) (mid : Z)
    (milestone : Instances.MilestoneInstance) : Prop :=
  milestones st !! mid = Some (Instances.mi_fields milestone)
  ∧ ∀ p, Instances.mi_project milestone = Some p →
         project_in_step st (ms_project (Instances.mi_fields milestone)) p.

Definition sprint_in_step (st : Store) (sid : Z)
    (sprint : Instances.SprintInstance) : Prop :=
  sprints st !! sid = Some (Instances.si_fields sprint)
  ∧ ∀ m, Instances.si_milestone sprint = Some m →
         milestone_in_step st (sp_milestone (Instances.si_fields sprint)) m.

Definition task_in_step (st : Store) (task : Instances.TaskInstance) : Prop :=
  ∀ s, Instances.ti_sprint task = Some s →
       sprint_in_step st (task_sprint (Instances.ti_fields task)) s.

Lemma notify_frame st pid obj message :
  let st' := notify_project_members st pid obj message in
  sprints st' = sprints st ∧ milestones st' = milestones st
  ∧ projects st' = projects st ∧ workspaces st' = workspaces st
  ∧ tasks st' = tasks st.
Proof.
  cbv zeta. unfold notify_project_members.
  destruct (decide (positive_integer_field (obj_id obj))); repeat split.
Qed.

(** The notifications name the object by its type, name and key only. *)
Lemma notify_same st pid obj obj' message :
  obj_type obj = obj_type obj' → obj_name obj = obj_name obj' →
  obj_id obj = obj_id obj' →
  notify_project_members st pid obj message
  = notify_project_members st pid obj' message.
Proof.
  intros Ht Hn Hi. unfold notify_project_members, completion_verb.
  by rewrite Ht, Hn, Hi.
Qed.

Lemma project_in_step_frame st st' pid project :
  projects st' = projects st → workspaces st' = workspaces st →
  project_in_step st pid project → project_in_step st' pid project.
Proof. unfold project_in_step. by intros -> ->. Qed.

Lemma milestone_in_step_frame st st' mid milestone :
  milestones st' = milestones st → projects st' = projects st →
  workspaces st' = workspaces st →
  milestone_in_step st mid milestone → milestone_in_step st' mid milestone.
Proof.
  unfold milestone_in_step. intros Hm Hp Hw [Hrow Hheld].
  rewrite Hm. split; [exact Hrow|].
  intros p E. by apply (project_in_step_frame st), Hheld.
Qed.

(** What an access finds on an instance in step. *)
Lemma get_project_in_step st mid milestone :
  milestone_in_step st mid milestone →
  match Instances.get_project st milestone with
  | Some project =>
      projects st !! ms_project (Instances.mi_fields milestone)
      = Some (Instances.pi_fields project)
      ∧ project_in_step st (ms_project (Instances.mi_fields milestone))
          project
  | None =>
      projects st !! ms_project (Instances.mi_fields milestone) = None
  end.
Proof.
  intros [_ Hheld]. unfold Instances.get_project.
  destruct (Instances.mi_project milestone) as [p|].
  - specialize (Hheld p eq_refl). split; [apply Hheld|exact Hheld].
  - destruct (projects st !! _) as [p|] eqn:E; simpl; [|reflexivity].
    split; [reflexivity|]. split; [exact E|]. discriminate.
Qed.

Lemma get_milestone_in_step st sid sprint :
  sprint_in_step st sid sprint →
  match Instances.get_milestone st sprint with
  | Some milestone =>
      milestones st !! sp_milestone (Instances.si_fields sprint)
      = Some (Instances.mi_fields milestone)
      ∧ milestone_in_step st (sp_milestone (Instances.si_fields sprint))
          milestone
  | None =>
      milestones st !! sp_milestone (Instances.si_fields sprint) = None
  end.
Proof.
  intros [_ Hheld]. unfold Instances.get_milestone.
  destruct (Instances.si_milestone sprint) as [m|].
  - specialize (Hheld m eq_refl). split; [apply Hheld|exact Hheld].
  - destruct (milestones st !! _) as [m|] eqn:E; simpl; [|reflexivity].
    split; [reflexivity|]. split; [exact E|]. discriminate.
Qed.

Lemma get_sprint_in_step st task :
  task_in_step st task →
  match Instances.get_sprint st task with
  | Some sprint =>
      sprints st !! task_sprint (Instances.ti_fields task)
      = Some (Instances.si_fields sprint)
      ∧ sprint_in_step st (task_sprint (Instances.ti_fields task)) sprint
  | None => sprints st !! task_sprint (Instances.ti_fields task) = None
  end.
Proof.
  unfold task_in_step. intros Hheld. unfold Instances.get_sprint.
  destruct (Instances.ti_sprint task) as [s|].
  - specialize (Hheld s eq_refl). split; [apply Hheld|exact Hheld].
  - destruct (sprints st !! _) as [s|] eqn:E; simpl; [|reflexivity].
    split; [reflexivity|]. split; [exact E|]. discriminate.
Qed.

(** ** The run on instances in step is the run of [Cascade] *)

Lemma project_stage_in_step st pid project :
  project_in_step st pid project →
  (Instances._check_and_complete_project st pid project).1
  = _check_and_complete_project st (Some (pid, Instances.pi_fields project)).
Proof.
  intros [Hrow Hheld].
  unfold Instances._check_and_complete_project, _check_and_complete_project.
  cbv zeta.
  destruct (decide (_ = 0%nat)); [reflexivity|].
  destruct (decide (_ = _)); [|reflexivity].
  destruct (decide (_ ≠ _)); [|reflexivity].
  unfold Instances.save_project. rewrite Hrow.
  change (proj_status (Instances.pi_fields
                         (Instances.complete_project project)))
    with "Completed".
  set (st1 := save_project_status st pid "Completed").
  set (message := all_completed_message _ _).
  unfold Instances._create_completion_notification_Project,
    _create_completion_notification, notified_project.
  rewrite (notify_same st1 pid
             (CProject pid (Instances.pi_fields
                              (Instances.complete_project project)))
             (CProject pid (Instances.pi_fields project))
             message eq_refl eq_refl eq_refl).
  set (st2 := notify_project_members st1 pid _ message).
  assert (workspaces st2 = workspaces st) as Hws.
  { subst st2. by rewrite (proj1 (proj2 (proj2 (proj2
      (notify_frame st1 pid (CProject pid (Instances.pi_fields project))
         message))))). }
  unfold Instances.get_workspace.
  change (Instances.pi_workspace (Instances.complete_project project))
    with (Instances.pi_workspace project).
  change (proj_workspace (Instances.pi_fields
                            (Instances.complete_project project)))
    with (proj_workspace (Instances.pi_fields project)).
  destruct (Instances.pi_workspace project) as [w|] eqn:Ew.
  - rewrite Hws, (Hheld w eq_refl). reflexivity.
  - destruct (workspaces st2 !! proj_workspace (Instances.pi_fields project));
      reflexivity.
Qed.

Lemma milestone_stage_in_step st mid milestone :
  milestone_in_step st mid milestone →
  (Instances._check_and_complete_milestone st mid milestone).1
  = _check_and_complete_milestone st
      (Some (mid, Instances.mi_fields milestone)).
Proof.
  intros Hstep. pose proof Hstep as [Hrow Hheld].
  unfold Instances._check_and_complete_milestone,
    _check_and_complete_milestone.
  cbv zeta.
  destruct (decide (_ = 0%nat)); [reflexivity|].
  destruct (decide (_ = _)); [|reflexivity].
  destruct (decide (_ ≠ _)); [|reflexivity].
  unfold Instances.save_milestone. rewrite Hrow.
  change (ms_status (Instances.mi_fields
                       (Instances.complete_milestone milestone)))
    with "Completed".
  set (st1 := save_milestone_status st mid "Completed").
  set (message := all_completed_message _ _).
  pose proof (get_project_in_step st mid milestone Hstep) as Hget.
  unfold Instances._create_completion_notification_Milestone,
    _create_completion_notification, notified_project.
  change (Instances.get_project st1 (Instances.complete_milestone milestone))
    with (Instances.get_project st milestone).
  change (projects st1) with (projects st).
  change (ms_project (Instances.mi_fields
                        (Instances.complete_milestone milestone)))
    with (ms_project (Instances.mi_fields milestone)).
  destruct (Instances.get_project st milestone) as [project|] eqn:Hg.
  - destruct Hget as [Hprow Hpstep]. rewrite Hprow. simpl option_bind.
    cbn [mbind option_bind].
    rewrite (notify_same st1 (ms_project (Instances.mi_fields milestone))
               (CMilestone mid (Instances.mi_fields
                                  (Instances.complete_milestone milestone)))
               (CMilestone mid (Instances.mi_fields milestone))
               message eq_refl eq_refl eq_refl).
    set (st2 := notify_project_members st1 _ _ message).
    destruct (notify_frame st1 (ms_project (Instances.mi_fields milestone))
                (CMilestone mid (Instances.mi_fields milestone)) message)
      as (_ & _ & Hp2 & Hw2 & _).
    fold st2 in Hp2, Hw2.
    change (projects st1) with (projects st) in Hp2.
    change (workspaces st1) with (workspaces st) in Hw2.
    cbn [Instances.get_project Instances.mi_project Instances.mi_fields].
    rewrite Hp2, Hprow.
    rewrite <- (project_stage_in_step st2
                  (ms_project (Instances.mi_fields milestone)) project).
    2:{ by apply (project_in_step_frame st). }
    change (ms_project (Instances.mi_fields
                          (Instances.complete_milestone milestone)))
      with (ms_project (Instances.mi_fields milestone)).
    by destruct (Instances._check_and_complete_project st2 _ project).
  - rewrite Hget. cbn [mbind option_bind].
    change (Instances.get_project st1
              (Instances.complete_milestone milestone))
      with (Instances.get_project st milestone).
    rewrite Hg. change (projects st1) with (projects st). by rewrite Hget.
Qed.

Lemma sprint_stage_in_step st sid sprint :
  sprint_in_step st sid sprint →
  (Instances._check_and_complete_sprint st sid sprint).1
  = _check_and_complete_sprint st (Some (sid, Instances.si_fields sprint)).
Proof.
  intros Hstep. pose proof Hstep as [Hrow Hheld].
  unfold Instances._check_and_complete_sprint, _check_and_complete_sprint.
  cbv zeta.
  destruct (decide (_ = 0%nat)); [reflexivity|].
  destruct (decide (_ = _)); [|reflexivity].
  destruct (decide (_ ≠ _)); [|reflexivity].
  unfold Instances.save_sprint. rewrite Hrow.
  change (sp_status (Instances.si_fields (Instances.complete_sprint sprint)))
    with "Completed".
  set (st1 := save_sprint_status st sid "Completed").
  set (message := all_completed_message _ _).
  pose proof (get_milestone_in_step st sid sprint Hstep) as Hget.
  unfold Instances._create_completion_notification_Sprint,
    _create_completion_notification, notified_project.
  change (Instances.get_milestone st1 (Instances.complete_sprint sprint))
    with (Instances.get_milestone st sprint).
  change (milestones st1) with (milestones st).
  change (projects st1) with (projects st).
  change (sp_milestone (Instances.si_fields
                          (Instances.complete_sprint sprint)))
    with (sp_milestone (Instances.si_fields sprint)).
  destruct (Instances.get_milestone st sprint) as [milestone|] eqn:Hg.
  - destruct Hget as [Hmrow Hmstep]. rewrite Hmrow. cbn [mbind option_bind].
    pose proof (get_project_in_step st _ milestone Hmstep) as Hgp.
    change (Instances.get_project st1 milestone)
      with (Instances.get_project st milestone).
    destruct (Instances.get_project st milestone) as [project|] eqn:Hgp'.
    + destruct Hgp as [Hprow Hpstep]. rewrite Hprow. cbn [mbind option_bind].
      rewrite (notify_same st1 (ms_project (Instances.mi_fields milestone))
                 (CSprint sid (Instances.si_fields
                                 (Instances.complete_sprint sprint)))
                 (CSprint sid (Instances.si_fields sprint))
                 message eq_refl eq_refl eq_refl).
      set (st2 := notify_project_members st1 _ _ message).
      destruct (notify_frame st1 (ms_project (Instances.mi_fields milestone))
                  (CSprint sid (Instances.si_fields sprint)) message)
        as (_ & Hm2 & Hp2 & Hw2 & _).
      fold st2 in Hm2, Hp2, Hw2.
      change (milestones st1) with (milestones st) in Hm2.
      change (projects st1) with (projects st) in Hp2.
      change (workspaces st1) with (workspaces st) in Hw2.
      cbn [Instances.get_milestone Instances.si_milestone
           Instances.si_fields].
      rewrite Hm2, Hmrow.
      change (sp_milestone (Instances.si_fields
                              (Instances.complete_sprint sprint)))
        with (sp_milestone (Instances.si_fields sprint)).
      pose proof (milestone_stage_in_step st2
                    (sp_milestone (Instances.si_fields sprint))
                    (Instances.mkMilestoneInstance
                       (Instances.mi_fields milestone) (Some project)))
        as Hlink.
      cbn [Instances.mi_fields] in Hlink. rewrite <- Hlink.
      2:{ split; [by rewrite Hm2|]. intros p E. inversion E; subst p.
          by apply (project_in_step_frame st). }
      by destruct (Instances._check_and_complete_milestone st2 _ _).
    + rewrite Hgp. cbn [mbind option_bind].
      cbn [Instances.get_milestone Instances.si_milestone
           Instances.si_fields].
      change (milestones st1) with (milestones st). rewrite Hmrow.
      change (sp_milestone (Instances.si_fields
                              (Instances.complete_sprint sprint)))
        with (sp_milestone (Instances.si_fields sprint)).
      rewrite <- (milestone_stage_in_step st1
                    (sp_milestone (Instances.si_fields sprint)) milestone).
      2:{ by apply (milestone_in_step_frame st). }
      by destruct (Instances._check_and_complete_milestone st1 _ milestone).
  - rewrite Hget. cbn [mbind option_bind].
    change (Instances.get_milestone st1 (Instances.complete_sprint sprint))
      with (Instances.get_milestone st sprint).
    rewrite Hg. change (milestones st1) with (milestones st).
    by rewrite Hget.
Qed.

(** For a task object in step with the store, [trigger_auto_completion] on
    instances has the outcome of [Cascade.trigger_auto_completion] on the
    fields of the task. *)
Lemma trigger_in_step st task :
  task_in_step st task →
  (Instances.trigger_auto_completion st task).1
  = trigger_auto_completion st (Instances.ti_fields task).
Proof.
  intros Hstep. pose proof (get_sprint_in_step st task Hstep) as Hget.
  unfold Instances.trigger_auto_completion, trigger_auto_completion.
  destruct (decide (task_status (Instances.ti_fields task) ≠ "Done"));
    [reflexivity|].
  destruct (Instances.get_sprint st task) as [sprint|].
  - destruct Hget as [Hrow Hsstep]. rewrite Hrow.
    rewrite <- (sprint_stage_in_step st _ sprint Hsstep).
    by destruct (Instances._check_and_complete_sprint st _ sprint).
  - by rewrite Hget.
Qed.

(** ** C5 *)

(** C5, as stated, fails on the code.  Task 401 is Done and a first run of
    the trigger, made with an object of it that loads its sprint, completes
    sprint, milestone and project: three status writes, one notification
    each.  A second run for the same task, made with an object of it that
    read the sprint before the first run, finds the status Not Started on
    the sprint it holds: it writes the sprint a second time and notifies
    again. *)
Lemma second_run_on_held_sprint_counterexample :
  let first := Instances.mkTaskInstance Fixture.task2_done None in
  let second :=
    Instances.mkTaskInstance Fixture.task2_done
      (Some (Instances.mkSprintInstance Fixture.sprint1 None)) in
  let st1 :=
    final (Instances.trigger_auto_completion Fixture.demo_all_done first).1 in
  let st2 := final (Instances.trigger_auto_completion st1 second).1 in
  status_writes st1
  = [(LSprint, 300%Z); (LMilestone, 200%Z); (LProject, 100%Z)]
  ∧ length (notifications st1) = 3%nat
  ∧ status_writes st2
    = [(LSprint, 300%Z); (LMilestone, 200%Z); (LProject, 100%Z);
       (LSprint, 300%Z)]
  ∧ length (notifications st2) = 4%nat
  ∧ st2 ≠ st1.
Proof.
  cbv zeta. repeat (split; [vm_compute; reflexivity|]).
  intros H. apply (f_equal (λ st, length (status_writes st))) in H.
  vm_compute in H. discriminate.
Qed.

(** C5, amended.  The trigger does nothing for a task that is not Done.
    Run again with the task object the first run left, it changes nothing:
    the store, with its status writes and notifications, and the object are
    the ones the first run ended with, and the second run returns whenever
    the sprint was held or loaded.  The same holds when each of the two
    runs is made with a task object in step with the store it runs on, such
    as an object that holds no sprint and loads it during the call.  In
    general a run for a Done task leaves the store as it was exactly when
    the sprint has no task, or a task that is not Done, or the sprint
    instance holds the status Completed, or the row of the sprint is gone;
    with the status Completed held, it returns.  The convenience function is
    the same trigger. *)
Theorem trigger_idempotent_amended (st : Store)
    (task : Instances.TaskInstance) :
  (task_status (Instances.ti_fields task) ≠ "Done" →
   Instances.trigger_auto_completion st task = (Returned st, task))
  ∧ (let run1 := Instances.trigger_auto_completion st task in
     let st1 := final run1.1 in
     (let run2 := Instances.trigger_auto_completion st1 run1.2 in
      final run2.1 = st1
      ∧ run2.2 = run1.2
      ∧ status_writes (final run2.1) = status_writes st1
      ∧ notifications (final run2.1) = notifications st1
      ∧ (is_Some (Instances.get_sprint st task) → run2.1 = Returned st1))
     ∧ (task_in_step st task →
        ∀ task2,
          Instances.ti_fields task2 = Instances.ti_fields task →
          task_in_step st1 task2 →
          let run2 := Instances.trigger_auto_completion st1 task2 in
          final run2.1 = st1
          ∧ status_writes (final run2.1) = status_writes st1
          ∧ notifications (final run2.1) = notifications st1
          ∧ (run1.1 = Returned st1 → run2.1 = Returned st1)))
  ∧ (∀ sprint,
       Instances.get_sprint st task = Some sprint →
       (sp_status (Instances.si_fields sprint) = "Completed" →
        (Instances.trigger_auto_completion st task).1 = Returned st)
       ∧ (task_status (Instances.ti_fields task) = "Done" →
          final (Instances.trigger_auto_completion st task).1 = st
          ↔ ¬ (sprint_ready st (task_sprint (Instances.ti_fields task))
                 (Instances.si_fields sprint)
               ∧ is_Some (sprints st
                            !! task_sprint (Instances.ti_fields task)))))
  ∧ Instances.auto_complete_on_task_done st task
    = Instances.trigger_auto_completion st task.
Proof.
  split; [apply trigger_instance_not_done|].
  split; [|split; [|reflexivity]].
  - cbv zeta. split.
    + destruct (trigger_same_instance st task) as (Hfin & Hobj & Hret).
      rewrite Hfin. auto.
    + intros Hstep task2 Hfields Hstep2.
      rewrite (trigger_in_step st task Hstep) in *.
      rewrite (trigger_in_step _ task2 Hstep2), Hfields.
      destruct (trigger_twice st (Instances.ti_fields task) _ eq_refl)
        as [Hfin Hret].
      rewrite Hfin. auto.
  - intros sprint Hs. split.
    { intros Hc.
      by rewrite (trigger_instance_completed st task sprint Hs Hc). }
    intros Hdone. rewrite (trigger_instance_done _ _ _ Hdone Hs). cbn [fst].
    set (sid := task_sprint (Instances.ti_fields task)).
    destruct (decide (sprint_ready st sid (Instances.si_fields sprint)))
      as [Hready|Hnot].
    + destruct (sprints st !! sid) as [s0|] eqn:Hrow.
      * destruct (sprint_stage_due st sid sprint s0 Hready Hrow)
          as (result & sprint' & -> & _ & _ & _ & l & Hw & _).
        cbn [fst]. split; [|intros Hn; exfalso; apply Hn; eauto].
        intros Hfin. rewrite Hfin in Hw.
        apply (f_equal length) in Hw. rewrite length_app in Hw.
        simpl in Hw. lia.
      * rewrite (sprint_stage_gone _ _ _ Hready Hrow). cbn [fst final].
        split; [|reflexivity]. intros _ [_ [? ?]]. discriminate.
    + rewrite (sprint_stage_idle _ _ _ Hnot). cbn [fst final]. tauto.
Qed.

Lemma trigger_idempotent_amended_witness :
  Instances.trigger_auto_completion Fixture.demo
    (Instances.mkTaskInstance Fixture.task2 None)
  = (Returned Fixture.demo, Instances.mkTaskInstance Fixture.task2 None)
  ∧ (let run1 :=
       Instances.trigger_auto_completion Fixture.demo_all_done
         (Instances.mkTaskInstance Fixture.task2_done None) in
     final (Instances.trigger_auto_completion (final run1.1) run1.2).1
     = final run1.1
     ∧ final (Instances.trigger_auto_completion (final run1.1)
                (Instances.mkTaskInstance Fixture.task2_done None)).1
       = final run1.1).
Proof.
  split; [|split].
  - pose proof (trigger_idempotent_amended Fixture.demo
                  (Instances.mkTaskInstance Fixture.task2 None)) as [H _].
    apply H. discriminate.
  - pose proof (trigger_idempotent_amended Fixture.demo_all_done
                  (Instances.mkTaskInstance Fixture.task2_done None))
      as [_ [[[H _] _] _]].
    exact H.
  - pose proof (trigger_idempotent_amended Fixture.demo_all_done
                  (Instances.mkTaskInstance Fixture.task2_done None))
      as [_ [[_ H] _]].
    apply (H ltac:(intros s E; discriminate E)
             (Instances.mkTaskInstance Fixture.task2_done None) eq_refl
             ltac:(intros s E; discriminate E)).
Defined.

End InstanceFacts.

(** * Properties of the Kanban move *)
Module KanbanExtras.

Import Cascade CascadeFacts CascadeExtras Kanban.


(** X12. [move_task_to_column] refuses a status that is not one of To-do,
    In Progress, Review and Done with an error, and answers [None] for a
    task that does not exist; in both cases the store is left exactly as it
    was. *)
Theorem move_rejects_without_change (st : Store) (task_id : Z)
    (new_status : string) :
  (new_status ∉ ["To-do"; "In Progress"; "Review"; "Done"] →
   move_task_to_column st task_id new_status
   = (st, MoveError "Invalid status. Must be one of: ['To-do', 'In Progress', 'Review', 'Done']"))
  ∧ (new_status ∈ ["To-do"; "In Progress"; "Review"; "Done"] →
     tasks st !! task_id = None →
     move_task_to_column st task_id new_status = (st, MoveNotFound)).
Proof.
  unfold move_task_to_column. split.
  - intros Hbad.
    destruct (decide (new_status ∉ valid_statuses)) as [_|Hn];
      [reflexivity|]. by destruct Hn.
  - intros Hok Hnone.
    destruct (decide (new_status ∉ valid_statuses)) as [Hn|_];
      [by destruct Hn|]. by rewrite Hnone.
Qed.

Lemma move_rejects_without_change_witness :
  move_task_to_column Fixture.demo 400 "Blocked"
  = (Fixture.demo,
     MoveError "Invalid status. Must be one of: ['To-do', 'In Progress', 'Review', 'Done']")
  ∧ move_task_to_column Fixture.demo 999 "Review"
    = (Fixture.demo, MoveNotFound).
Proof.
  pose proof (move_rejects_without_change Fixture.demo 400 "Blocked")
    as [Hbad _].
  pose proof (move_rejects_without_change Fixture.demo 999 "Review")
    as [_ Hmissing].
  split.
  - apply Hbad. apply (bool_decide_unpack _). vm_compute. exact I.
  - apply Hmissing; [|reflexivity].
    apply (bool_decide_unpack _). vm_compute. exact I.
Defined.



End KanbanExtras.

(** * Further properties of the audit recorder *)
Module AuditExtras.

Import Audit AuditFacts.

(** The field list [serialize_model_state] walks. *)
Definition field_list_of (instance : pyval) (fields : option (list string))
    : list string :=
  match fields with
  | Some (f :: fs) => f :: fs
  | _ => get_default_fields_for_model (type_name instance)
  end.

Lemma foldl_insert_lookup {A} (g : string → A) (l : list string)
    (d : gmap string A) (k : string) :
  foldl (λ data field, <[field := g field]> data) d l !! k
  = if decide (k ∈ l) then Some (g k) else d !! k.
Proof.
  revert d. induction l as [|f l IH]; intros d; simpl.
  - destruct (decide (k ∈ [])) as [H|_]; [|reflexivity].
    by apply not_elem_of_nil in H.
  - rewrite IH. destruct (decide (k ∈ l)) as [Hin|Hnin].
    + rewrite decide_True; [reflexivity|by right].
    + destruct (decide (f = k)) as [->|Hne].
      * rewrite lookup_insert_eq. rewrite decide_True; [reflexivity|by left].
      * rewrite lookup_insert_ne by done.
        rewrite decide_False; [reflexivity|].
        intros H. apply elem_of_cons in H as [->|H]; tauto.
Qed.

Lemma serialize_model_state_eq instance fields :
  instance ≠ PJson JNull →
  serialize_model_state instance fields
  = Some (foldl (λ data field, <[field := serialize_field instance field]> data)
                ∅ (field_list_of instance fields)).
Proof.
  intros Hnn. unfold serialize_model_state, field_list_of.
  destruct instance as [[]| |]; try reflexivity. by destruct Hnn.
Qed.

(** X14. [capture_state] of an instance (anything but [None]) is a snapshot
    whose keys are exactly the requested fields, or the default fields of
    the model when none or an empty list is requested; every such key is
    present, and a field whose read raises is recorded as null.  For [None]
    there is no snapshot. *)
Theorem snapshot_has_exactly_the_fields (instance : pyval)
    (fields : option (list string)) :
  (instance ≠ PJson JNull →
   ∃ state,
     capture_state instance fields = Some state
     ∧ dom state = list_to_set (field_list_of instance fields)
     ∧ (∀ f, f ∈ field_list_of instance fields →
             state !! f = Some (serialize_field instance f))
     ∧ (∀ f e, f ∈ field_list_of instance fields →
               getattr instance f = Raise e → state !! f = Some JNull))
  ∧ capture_state (PJson JNull) fields = None.
Proof.
  split; [|reflexivity]. intros Hnn. unfold capture_state.
  rewrite (serialize_model_state_eq _ _ Hnn). eexists. split; [reflexivity|].
  assert (∀ f, f ∈ field_list_of instance fields →
               foldl (λ data field,
                        <[field := serialize_field instance field]> data)
                     (∅ : gmap string json)
                     (field_list_of instance fields) !! f
               = Some (serialize_field instance f)) as Hlook.
  { intros f Hf. rewrite foldl_insert_lookup. by rewrite decide_True. }
  split; [|split; [exact Hlook|]].
  - apply set_eq. intros k. rewrite elem_of_dom, elem_of_list_to_set.
    rewrite foldl_insert_lookup.
    destruct (decide (k ∈ field_list_of instance fields)) as [Hin|Hnin].
    + split; [done|eauto].
    + rewrite lookup_empty. split; [by intros [? ?]|done].
  - intros f e Hf Hraise. rewrite (Hlook f Hf).
    unfold serialize_field. by rewrite Hraise.
Qed.

Lemma snapshot_has_exactly_the_fields_witness :
  ∃ state,
    capture_state Fixture.dangling_task None = Some state
    ∧ dom state
      = list_to_set ["id"; "title"; "description"; "status"; "priority";
                     "assignee"; "reporter"; "start_date"; "due_date";
                     "sprint"]
    ∧ state !! "sprint" = Some JNull.
Proof.
  destruct (snapshot_has_exactly_the_fields Fixture.dangling_task None)
    as [H _].
  destruct H as (state & Hs & Hdom & _ & Hnull); [discriminate|].
  exists state. split; [exact Hs|]. split; [exact Hdom|].
  apply (Hnull "sprint" ObjectDoesNotExist).
  - apply (bool_decide_unpack _). vm_compute. exact I.
  - reflexivity.
Defined.

(** ** The diff *)

Lemma py_eqb_sym a b : py_eqb a b = py_eqb b a.
Proof.
  destruct a, b; simpl; try reflexivity;
    apply bool_decide_ext; split; congruence.
Qed.

Lemma differs_sym a b : differs a b = differs b a.
Proof.
  destruct a, b; unfold differs;
    first [ by rewrite py_eqb_sym
          | apply (f_equal negb), bool_decide_ext; split; congruence ].
Qed.

Lemma compute_changes_lookup (o n : gmap string json) k v :
  compute_changes (Some o) (Some n) !! k = Some v
  ↔ v = (py_get o k, py_get n k)
    ∧ differs (py_get o k) (py_get n k) = true.
Proof.
  unfold compute_changes.
  assert (∀ X : gset string,
            set_fold
              (λ key changes,
                 let old_val := py_get o key in
                 let new_val := py_get n key in
                 if differs old_val new_val
                 then <[key := (old_val, new_val)]> changes
                 else changes) (∅ : gmap string (json * json)) X !! k
            = Some v
            ↔ k ∈ X ∧ v = (py_get o k, py_get n k)
              ∧ differs (py_get o k) (py_get n k) = true) as Hfold.
  { apply (set_fold_ind_L
             (λ (r : gmap string (json * json)) (X : gset string),
                r !! k = Some v
                ↔ k ∈ X ∧ v = (py_get o k, py_get n k)
                  ∧ differs (py_get o k) (py_get n k) = true)).
    - rewrite lookup_empty. split; [discriminate|].
      intros [H _]. by apply not_elem_of_empty in H.
    - intros x X r Hx IH. cbv zeta.
      rewrite elem_of_union, elem_of_singleton.
      destruct (differs (py_get o x) (py_get n x)) eqn:Hd.
      + destruct (decide (x = k)) as [->|Hne].
        * rewrite lookup_insert_eq. split.
          -- intros H. inversion H. auto.
          -- intros (_ & -> & _). reflexivity.
        * rewrite lookup_insert_ne by done. rewrite IH.
          split; [tauto|]. intros ([->|?] & ? & ?); tauto.
      + rewrite IH. split; [tauto|].
        intros ([->|?] & ? & ?); [congruence|tauto]. }
  rewrite Hfold. split; [tauto|]. intros [Hv Hd]. split; [|tauto].
  rewrite elem_of_union, !elem_of_dom. unfold py_get in Hd.
  destruct (o !! k); [left; eauto|].
  destruct (n !! k); [right; eauto|]. discriminate.
Qed.

(** X15. [compute_changes] records under a key the pair of the old and the
    new value exactly when they differ.  It is symmetric: the changes from
    one state to another are those of the way back with each pair swapped.
    A state against itself, and anything against an absent state, gives no
    changes. *)
Theorem compute_changes_is_a_symmetric_diff (o n : gmap string json) :
  (∀ k a b,
     compute_changes (Some o) (Some n) !! k = Some (a, b)
     ↔ a = py_get o k ∧ b = py_get n k ∧ differs a b = true)
  ∧ (∀ k a b,
       compute_changes (Some o) (Some n) !! k = Some (a, b)
       ↔ compute_changes (Some n) (Some o) !! k = Some (b, a))
  ∧ compute_changes (Some o) (Some o) = ∅
  ∧ compute_changes None (Some n) = ∅
  ∧ compute_changes (Some o) None = ∅.
Proof.
  assert (∀ (x y : gmap string json) k a b,
            compute_changes (Some x) (Some y) !! k = Some (a, b)
            ↔ a = py_get x k ∧ b = py_get y k ∧ differs a b = true) as Hchar.
  { intros x y k a b. rewrite compute_changes_lookup. split.
    - intros [H Hd]. inversion H; subst. auto.
    - intros (-> & -> & Hd). auto. }
  split; [apply Hchar|]. split; [|split; [|split; reflexivity]].
  - intros k a b. rewrite !Hchar, (differs_sym b a). tauto.
  - apply map_eq. intros k. rewrite lookup_empty.
    destruct (compute_changes (Some o) (Some o) !! k) as [[a b]|] eqn:E;
      [|reflexivity].
    apply Hchar in E as (-> & -> & Hd). rewrite differs_refl in Hd.
    discriminate.
Qed.

(** ** Context enrichment *)

Lemma run_assignments_dom instance assignments context context' caught :
  run_assignments instance assignments context = (context', caught) →
  dom context' ⊆ dom context ∪ list_to_set assignments.*1.
Proof.
  revert context. induction assignments as [|[key path] rest IH];
    intros context Hrun; simpl in Hrun.
  - inversion Hrun; subst. apply union_subseteq_l.
  - destruct (getattr_path instance path) as [v|e].
    + apply IH in Hrun. etrans; [exact Hrun|].
      rewrite dom_insert_L. intros x. simpl. rewrite !elem_of_union. tauto.
    + inversion Hrun; subst. apply union_subseteq_l.
Qed.

Lemma run_assignments_all_ok instance assignments context :
  Forall (λ kp : string * list string,
            ∃ v, getattr_path instance kp.2 = Ok v) assignments →
  ∃ context',
    run_assignments instance assignments context = (context', None)
    ∧ dom context' = dom context ∪ list_to_set assignments.*1.
Proof.
  intros Hall. revert context.
  induction Hall as [|[key path] rest [v Hv] _ IH]; intros context; simpl.
  - exists context. split; [reflexivity|].
    by rewrite (right_id_L ∅ (∪)).
  - simpl in Hv. rewrite Hv.
    destruct (IH (<[key := v]> context)) as (context' & Hrun & Hdom).
    exists context'. split; [exact Hrun|].
    rewrite Hdom, dom_insert_L. apply set_eq. intros x. simpl.
    rewrite !elem_of_union. tauto.
Qed.

(** X16. The context [get_entity_context] returns has no keys but those the
    model's assignments name, and has all of them when every path reads.
    For a model other than the seven audited ones it is empty.  It is also
    empty as soon as the first path runs into a null parent: because the
    entity's own id and name are assigned last, a task or sprint with a
    null parent is logged without any context, not even its own id. *)
Theorem context_keys_and_null_parent (instance : pyval) :
  (∀ context,
     get_entity_context instance = Ok context →
     dom context
     ⊆ list_to_set (context_assignments (type_name instance)).*1)
  ∧ (Forall (λ kp : string * list string,
               ∃ v, getattr_path instance kp.2 = Ok v)
            (context_assignments (type_name instance)) →
     ∃ context,
       get_entity_context instance = Ok context
       ∧ dom context
         = list_to_set (context_assignments (type_name instance)).*1)
  ∧ (type_name instance
       ∉ ["Workspace"; "Project"; "Milestone"; "Sprint"; "Task";
          "WorkspaceMember"; "ProjectMember"] →
     get_entity_context instance = Ok ∅)
  ∧ (∀ key path rest,
       context_assignments (type_name instance) = (key, path) :: rest →
       getattr_path instance path = Raise AttributeError →
       get_entity_context instance = Ok ∅).
Proof.
  split; [|split; [|split]].
  - intros context Hctx. unfold get_entity_context in Hctx.
    destruct (run_assignments instance _ ∅) as [context' caught] eqn:Hrun.
    apply run_assignments_dom in Hrun.
    rewrite dom_empty_L, (left_id_L ∅ (∪)) in Hrun.
    destruct caught as [[]|]; inversion Hctx; subst; exact Hrun.
  - intros Hall. unfold get_entity_context.
    destruct (run_assignments_all_ok instance _ ∅ Hall)
      as (context & -> & Hdom).
    exists context. split; [reflexivity|].
    by rewrite Hdom, dom_empty_L, (left_id_L ∅ (∪)).
  - intros Hother. unfold get_entity_context, context_assignments.
    repeat (destruct (decide (type_name instance = _)) as [E|_];
            [exfalso; apply Hother; rewrite E;
             apply (bool_decide_unpack _); vm_compute; exact I|]).
    reflexivity.
  - intros key path rest Hassign Hraise. unfold get_entity_context.
    rewrite Hassign. simpl. by rewrite Hraise.
Qed.

Lemma context_keys_and_null_parent_witness :
  get_entity_context Fixture.orphan_task = Ok ∅.
Proof.
  destruct (context_keys_and_null_parent Fixture.orphan_task)
    as (_ & _ & _ & H).
  eapply H.
  - vm_compute. reflexivity.
  - vm_compute. reflexivity.
Defined.

(** ** What the entries hold *)

Lemma merge_extra_info_lookup context extra k :
  omap to_json (merge_extra_info context (Some extra)) !! k
  = match extra !! k with
    | Some v => Some v
    | None => context !! k ≫= to_json
    end.
Proof.
  unfold merge_extra_info. simpl. rewrite lookup_omap.
  destruct (extra !! k) as [v|] eqn:E.
  - assert (((PJson <$> extra) ∪ context) !! k = Some (PJson v)) as ->;
      [|reflexivity].
    apply lookup_union_Some_l. by rewrite lookup_fmap, E.
  - rewrite lookup_union_r; [reflexivity|]. by rewrite lookup_fmap, E.
Qed.

(** X17. In the entry [log_event] stores for a saved instance whose key
    the [object_id] column accepts and whose context enrichment does not
    fail, the caller's [extra_info] takes precedence over the derived
    context: every key the caller supplies is
    stored with the caller's value, every other key of the context is stored
    as derived, and there are no further keys.  The action and the two
    states are stored as the caller passed them. *)
Theorem caller_extra_info_overrides_context (user : option Z)
    (instance : pyval) (n : Z) (action : string)
    (old_state new_state : option (gmap string json))
    (reason : option string) (extra : gmap string json) :
  getattr instance "id" = Ok (PJson (JInt n)) →
  positive_integer_field n →
  benign_chain instance →
  ∃ entry context,
    log_event user instance action old_state new_state reason (Some extra)
    = Ok entry
    ∧ get_entity_context instance = Ok context
    ∧ (∀ k v, extra !! k = Some v → al_extra_info entry !! k = Some v)
    ∧ (∀ k j, extra !! k = None → context !! k = Some (PJson j) →
              al_extra_info entry !! k = Some j)
    ∧ dom (al_extra_info entry) = dom extra ∪ dom context
    ∧ al_action entry = action
    ∧ al_old_value entry = old_state
    ∧ al_new_value entry = new_state.
Proof.
  intros Hid Hn Hbenign.
  destruct (get_entity_context_benign instance Hbenign)
    as (context & Hctx & Hjson).
  eexists _, context. unfold log_event. rewrite Hctx.
  split; [apply create_ok;
            [exact Hid|exact Hn|by apply merge_extra_info_json]|].
  split; [reflexivity|]. simpl.
  split; [|split; [|split; [|auto]]].
  - intros k v Hk. by rewrite merge_extra_info_lookup, Hk.
  - intros k j Hk Hc. by rewrite merge_extra_info_lookup, Hk, Hc.
  - apply set_eq. intros k.
    rewrite elem_of_union, !elem_of_dom, merge_extra_info_lookup.
    destruct (extra !! k) as [v|] eqn:E.
    + split; [intros _; left; eauto|eauto].
    + destruct (context !! k) as [c|] eqn:Ec; simpl.
      * pose proof (Hjson k c Ec) as Hc. destruct c; try done. simpl.
        split; [intros _; right; eauto|eauto].
      * split; [intros [? ?]; done|intros [[? ?]|[? ?]]; done].
Qed.

Lemma caller_extra_info_overrides_context_witness :
  ∃ entry,
    log_event None Fixture.orphan_task "TASK_STATUS_CHANGED" None None None
              (Some {[ "workspace_id" := JInt 1 ]})
    = Ok entry
    ∧ al_extra_info entry !! "workspace_id" = Some (JInt 1).
Proof.
  destruct (caller_extra_info_overrides_context None Fixture.orphan_task
              400%Z "TASK_STATUS_CHANGED" None None None
              {[ "workspace_id" := JInt 1 ]} eq_refl)
    as (entry & context & Hlog & _ & Hextra & _).
  { apply (bool_decide_unpack _). vm_compute. exact I. }
  { apply (bool_decide_unpack _). vm_compute. exact I. }
  exists entry. split; [exact Hlog|].
  apply Hextra. apply lookup_singleton_eq.
Defined.

(** X18. For a saved instance whose key the [object_id] column accepts
    and whose context enrichment does not fail, [log_create] and
    [log_delete] store mirrored entries: the snapshot
    [capture_state] gives is the new value of the one and the old value of
    the other, the opposite value is null, the actions are CREATED and
    DELETED, and class name, key, user, reason and [extra_info] are the
    same in both. *)
Theorem create_and_delete_mirror (user : option Z) (instance : pyval) (n : Z)
    (reason : option string) (extra_info : option (gmap string json)) :
  getattr instance "id" = Ok (PJson (JInt n)) →
  positive_integer_field n →
  benign_chain instance →
  ∃ created deleted,
    log_create user instance reason extra_info = Ok created
    ∧ log_delete user instance reason extra_info = Ok deleted
    ∧ al_action created = "CREATED" ∧ al_action deleted = "DELETED"
    ∧ al_old_value created = None
    ∧ al_new_value created = capture_state instance None
    ∧ al_old_value deleted = capture_state instance None
    ∧ al_new_value deleted = None
    ∧ al_content_type created = type_name instance
    ∧ al_object_id created = n
    ∧ al_content_type deleted = al_content_type created
    ∧ al_object_id deleted = al_object_id created
    ∧ al_user deleted = al_user created
    ∧ al_reason deleted = al_reason created
    ∧ al_extra_info deleted = al_extra_info created.
Proof.
  intros Hid Hn Hbenign.
  destruct (get_entity_context_benign instance Hbenign)
    as (context & Hctx & Hjson).
  eexists _, _. unfold log_create, log_delete. rewrite Hctx.
  split; [apply create_ok;
            [exact Hid|exact Hn|by apply merge_extra_info_json]|].
  split; [apply create_ok;
            [exact Hid|exact Hn|by apply merge_extra_info_json]|].
  simpl. unfold capture_state. repeat split.
Qed.

Lemma create_and_delete_mirror_witness :
  ∃ created deleted,
    log_create None Fixture.orphan_task None None = Ok created
    ∧ log_delete None Fixture.orphan_task None None = Ok deleted
    ∧ al_new_value created = al_old_value deleted.
Proof.
  destruct (create_and_delete_mirror None Fixture.orphan_task 400%Z None None
              eq_refl)
    as (c & d & Hc & Hd & _ & _ & _ & Hnew & Hold & _).
  { apply (bool_decide_unpack _). vm_compute. exact I. }
  { apply (bool_decide_unpack _). vm_compute. exact I. }
  exists c, d. split; [exact Hc|]. split; [exact Hd|]. congruence.
Defined.

End AuditExtras.

(** * Properties of the static role table *)
Module RolesExtras.

Import Roles.

Lemma roles_fold (permission : string) (d : list (string * RoleData))
    (acc : list string) :
  foldl (λ roles item,
           if decide (permission ∈ permissions item.2)
           then roles ++ [item.1]
           else roles) acc d
  = acc ++ (filter (λ item : string * RoleData,
                      permission ∈ permissions item.2) d).*1.
Proof.
  revert acc. induction d as [|item d IH]; intros acc; simpl.
  - by rewrite app_nil_r.
  - rewrite IH. destruct (decide (permission ∈ permissions item.2)) as [H|H].
    + rewrite filter_cons_True by done. simpl. by rewrite <- app_assoc.
    + by rewrite filter_cons_False by done.
Qed.

Lemma dict_get_cons {A} (key0 : string) (x0 : A) (d : list (string * A))
    (key : string) :
  dict_get ((key0, x0) :: d) key
  = if decide (key0 = key) then Some x0 else dict_get d key.
Proof.
  unfold dict_get. simpl. destruct (decide (key0 = key)); [reflexivity|].
  destruct (list_find (λ item : string * A, item.1 = key) d) as [[i y]|];
    reflexivity.
Qed.

Lemma dict_get_Some {A} (d : list (string * A)) (key : string) (x : A) :
  NoDup d.*1 → dict_get d key = Some x ↔ (key, x) ∈ d.
Proof.
  induction d as [|[key0 x0] d IH]; intros Hnd.
  - split; [discriminate|]. intros H. by apply not_elem_of_nil in H.
  - simpl in Hnd. apply NoDup_cons in Hnd as [Hnotin Hnd].
    rewrite dict_get_cons, elem_of_cons.
    destruct (decide (key0 = key)) as [->|Hne].
    + split.
      * intros H. inversion H. by left.
      * intros [H|H]; [by inversion H|].
        exfalso. apply Hnotin. apply list_elem_of_fmap. by exists (key, x).
    + rewrite (IH Hnd). split; [by right|].
      intros [H|H]; [inversion H; congruence|exact H].
Qed.

Lemma dict_get_None {A} (d : list (string * A)) (key : string) :
  key ∉ d.*1 → dict_get d key = None.
Proof.
  induction d as [|[key0 x0] d IH]; intros Hnotin; [reflexivity|].
  rewrite dict_get_cons. simpl in Hnotin.
  apply not_elem_of_cons in Hnotin as [Hne Hnotin].
  destruct (decide (key0 = key)); [congruence|]. by apply IH.
Qed.

Lemma role_keys_NoDup : NoDup ROLE_PERMISSIONS.*1.
Proof. apply (bool_decide_unpack _). vm_compute. exact I. Qed.

Lemma roles_with_permission_iff role permission :
  role ∈ get_roles_with_permission permission
  ↔ permission ∈ get_role_permissions role.
Proof.
  unfold get_roles_with_permission, get_role_permissions.
  rewrite roles_fold. simpl app. rewrite list_elem_of_fmap.
  setoid_rewrite list_elem_of_filter. split.
  - intros ([role' data] & -> & Hperm & Hin). simpl in *.
    apply (dict_get_Some _ _ _ role_keys_NoDup) in Hin. by rewrite Hin.
  - destruct (dict_get ROLE_PERMISSIONS role) as [data|] eqn:E.
    + intros Hperm. apply (dict_get_Some _ _ _ role_keys_NoDup) in E.
      exists (role, data). auto.
    + intros H. by apply not_elem_of_nil in H.
Qed.

(** X19. The two lookups of the static role table agree: a role is listed
    by [get_roles_with_permission] for a permission exactly when
    [get_role_permissions] lists that permission for the role, and
    [user_has_permission] is true exactly for the users whose role is so
    listed.  A missing user, a user without a role, and a role that is not
    one of Admin, Project Admin, User and System have no permission at
    all. *)
Theorem role_table_lookups_agree :
  (∀ role permission,
     role ∈ get_roles_with_permission permission
     ↔ permission ∈ get_role_permissions role)
  ∧ (∀ role permission,
       user_has_permission (Some (Some role)) permission = true
       ↔ role ∈ get_roles_with_permission permission)
  ∧ (∀ permission,
       user_has_permission None permission = false
       ∧ user_has_permission (Some None) permission = false)
  ∧ (∀ role,
       role ∉ ["Admin"; "Project Admin"; "User"; "System"] →
       get_role_permissions role = []
       ∧ ∀ permission,
           user_has_permission (Some (Some role)) permission = false).
Proof.
  split; [exact roles_with_permission_iff|]. split; [|split].
  - intros role permission. unfold user_has_permission.
    etrans; [apply bool_decide_eq_true|].
    symmetry. apply roles_with_permission_iff.
  - intros permission. by split.
  - intros role Hother.
    assert (get_role_permissions role = []) as Hnone.
    { unfold get_role_permissions.
      by rewrite (dict_get_None ROLE_PERMISSIONS role Hother). }
    split; [exact Hnone|]. intros permission. unfold user_has_permission.
    rewrite Hnone. apply bool_decide_eq_false_2, not_elem_of_nil.
Qed.

Lemma role_table_lookups_agree_witness :
  get_role_permissions "Manager" = []
  ∧ user_has_permission (Some (Some "Manager")) "project.edit" = false.
Proof.
  destruct role_table_lookups_agree as (_ & _ & _ & H).
  destruct (H "Manager") as [Hnone Hdeny].
  - apply (bool_decide_unpack _). vm_compute. exact I.
  - split; [exact Hnone|apply Hdeny].
Defined.

End RolesExtras.
